(** * cscatt: the MPI coordination layer ([modules/mpi_lib.c])

    A shallow embedding of the wrapper module around MPI/PETSc/SLEPc and
    the properties of its task partitioner, its typed messaging protocol,
    its matrix and vector handles, the eigensolver dispatch and the
    gather-output routine.

    Platform: LP64, little endian.  [size_t] is a 64-bit unsigned integer
    whose arithmetic wraps modulo [2^64]; [unsigned] and [int] are 32 bits
    wide.  Machine integers are values of [Z] with the wrap-around written
    out at every operation. *)

From stdpp Require Import base numbers list strings functions gmap relations.
From Stdlib Require Import ZArith Lia Ascii Sorted.

Local Open Scope Z_scope.

(** ** Machine integers *)

Definition SIZE_MODULUS : Z := 2 ^ 64.
Definition UINT_MODULUS : Z := 2 ^ 32.
Definition INT_MAX : Z := 2 ^ 31 - 1.

Definition size_wrap (x : Z) : Z := x mod SIZE_MODULUS.
Definition size_add (a b : Z) : Z := size_wrap (a + b).
Definition size_sub (a b : Z) : Z := size_wrap (a - b).
Definition size_mul (a b : Z) : Z := size_wrap (a * b).
Definition size_div (a b : Z) : Z := a / b.

Definition is_size_t (x : Z) : Prop := 0 <= x < SIZE_MODULUS.

(** ** Process-wide state

    The file-scope statics of [mpi_lib.c]:
    [this_rank = 0, comm_size = 1, thread_level = 0] and
    [chunk_size = 1, tasks = 1, extra_tasks = 0, last_rank_index = 0]. *)

Record mpi_globals : Type := {
  this_rank : Z;
  comm_size : Z;
  thread_level : Z;
  chunk_size : Z;
  tasks : Z;
  extra_tasks : Z;
  last_rank_index : Z
}.

Definition initial_globals : mpi_globals :=
  {| this_rank := 0; comm_size := 1; thread_level := 0;
     chunk_size := 1; tasks := 1; extra_tasks := 0; last_rank_index := 0 |}.

(** The state of process [rank] out of [size] once [mpi_init] has asked the
    substrate for its rank and for the communicator size. *)
Definition process (size rank : Z) : mpi_globals :=
  {| this_rank := rank; comm_size := size;
     thread_level := thread_level initial_globals;
     chunk_size := chunk_size initial_globals;
     tasks := tasks initial_globals;
     extra_tasks := extra_tasks initial_globals;
     last_rank_index := last_rank_index initial_globals |}.

Definition mpi_rank (g : mpi_globals) : Z := this_rank g.
Definition mpi_comm_size (g : mpi_globals) : Z := comm_size g.
Definition mpi_thread_level (g : mpi_globals) : Z := thread_level g.

(** ** Build configuration

    The macros that select what is compiled.  [struct mpi_matrix] and
    [struct mpi_vector] have one layout per build; the records below carry
    the fields of both layouts and every build reads only its own. *)

Record build : Type := {
  USE_MPI : bool;
  USE_PETSC : bool;
  USE_SLEPC : bool;
  MATRIX_BOUND_CHECK : bool
}.

(** ** Outcomes of a call *)

(** What [PRINT_ERROR] is given to print. *)
Inductive diagnostic : Type :=
| invalid_type (type : ascii)
| petsc_failure (rank : Z) (name : string) (code : Z).

Inductive halt : Type :=
| assertion_failed
| exit_failure (d : diagnostic)
| substrate_abort.

(** [Blocks]: a blocking call that waits for a message that is not there.
    [Undefined]: the C program has no defined behaviour (a read or write
    outside an array, a signed overflow, a stream that is [NULL]).
    [OutOfFuel]: the bound on loop iterations given to the model was too
    small; it is not a behaviour of the program. *)
Inductive outcome (A : Type) : Type :=
| Returns (a : A)
| Halts (h : halt)
| Blocks
| Undefined
| OutOfFuel.

Arguments Returns {A} a.
Arguments Halts {A} h.
Arguments Blocks {A}.
Arguments Undefined {A}.
Arguments OutOfFuel {A}.

Definition outcome_bind {A B : Type} (o : outcome A) (f : A -> outcome B) : outcome B :=
  match o with
  | Returns a => f a
  | Halts h => Halts h
  | Blocks => Blocks
  | Undefined => Undefined
  | OutOfFuel => OutOfFuel
  end.

(** Modelled from the spec: [ASSERT], a macro of [globals.h], which is not
    among the sources; a violated assertion halts the process. *)
Definition ASSERT {A : Type} (condition : bool) (k : outcome A) : outcome A :=
  if condition then k else Halts assertion_failed.

(** [int] and [unsigned] views of a [size_t]. *)
Definition int_range (x : Z) : bool := (- 2 ^ 31 <=? x) && (x <=? INT_MAX).

Definition c_int (x : Z) : Z :=
  let r := x mod UINT_MODULUS in
  if r <=? INT_MAX then r else r - UINT_MODULUS.

(** The object representation of a [size_t] as two [unsigned] words, least
    significant first. *)
Definition size_t_words (n : Z) : list Z := [n mod UINT_MODULUS; n / UINT_MODULUS].

Definition size_t_of_words (w : list Z) : Z :=
  match w with
  | [lo; hi] => lo + hi * UINT_MODULUS
  | _ => 0
  end.

(** A [double] is its IEEE 754 bit pattern; [x == x] fails for a NaN only. *)
Definition is_nan (x : Z) : bool :=
  ((x / 2 ^ 52) mod 2 ^ 11 =? 2047) && negb (x mod 2 ^ 52 =? 0).

(** ** Task partitioner *)

Module Tasks.

(** [mpi_set_tasks]: the statics on return. *)
Definition mpi_set_tasks (g : mpi_globals) (max_task : Z) : outcome mpi_globals :=
  ASSERT (0 <? max_task) (
    let chunk := size_div max_task (comm_size g) in
    let last :=
      size_add (size_mul (size_sub (comm_size g) 1) chunk) (size_sub chunk 1) in
    Returns {| this_rank := this_rank g; comm_size := comm_size g;
               thread_level := thread_level g;
               chunk_size := chunk;
               tasks := max_task;
               extra_tasks := size_sub (size_sub max_task 1) last;
               last_rank_index := last |}).

Definition mpi_first_task (g : mpi_globals) : Z :=
  size_mul (this_rank g) (chunk_size g).

Definition mpi_last_task (g : mpi_globals) : Z :=
  size_add (size_mul (this_rank g) (chunk_size g)) (size_sub (chunk_size g) 1).

(** The local [index] of [mpi_extra_task]. *)
Definition extra_task_index (g : mpi_globals) : Z :=
  if 0 <? extra_tasks g
  then size_add (size_add (last_rank_index g) (this_rank g)) 1
  else 0.

Definition mpi_extra_task (g : mpi_globals) : Z :=
  let index := extra_task_index g in
  if index <? tasks g then index else 0.

(** The call hands out a task index rather than the sentinel: both
    conditionals of [mpi_extra_task] take their first branch. *)
Definition has_extra_task (g : mpi_globals) : bool :=
  (0 <? extra_tasks g) && (extra_task_index g <? tasks g).

(** The main chunk of a process as a half-open interval. *)
Definition in_main_chunk (g : mpi_globals) (t : Z) : Prop :=
  this_rank g * chunk_size g <= t < (this_rank g + 1) * chunk_size g.

Definition owns (g : mpi_globals) (t : Z) : Prop :=
  in_main_chunk g t \/ (has_extra_task g = true /\ t = mpi_extra_task g).

(** Ownership of task [t] by process [r] of [size] after every process has
    called [mpi_set_tasks(max_task)]. *)
Definition rank_owns (size max_task r t : Z) : Prop :=
  match mpi_set_tasks (process size r) max_task with
  | Returns g => owns g t
  | _ => False
  end.

Definition exact_partition (size max_task : Z) : Prop :=
  (forall t, 0 <= t < max_task ->
     exists r, 0 <= r < size /\ rank_owns size max_task r t) /\
  (forall r t, 0 <= r < size -> rank_owns size max_task r t ->
     0 <= t < max_task) /\
  (forall r1 r2 t, 0 <= r1 < size -> 0 <= r2 < size ->
     rank_owns size max_task r1 t -> rank_owns size max_task r2 t ->
     r1 = r2) /\
  (forall r g, 0 <= r < size ->
     mpi_set_tasks (process size r) max_task = Returns g ->
     has_extra_task g = true -> ~ in_main_chunk g (mpi_extra_task g)).

(** No wrap-around in [last_rank_index + this_rank + 1] for any rank of a
    communicator of [size] processes, unless there is no extra task. *)
Definition extra_index_fits (size max_task : Z) : Prop :=
  max_task mod size = 0 \/ size * (max_task / size + 1) <= SIZE_MODULUS.

(** Extra tasks go to the lowest ranks and to nobody else. *)
Definition extra_only_low_ranks (size max_task : Z) : Prop :=
  forall r g, 0 <= r < size ->
    mpi_set_tasks (process size r) max_task = Returns g ->
    (has_extra_task g = true <-> r < extra_tasks g).

End Tasks.

(** ** Typed messaging protocol *)

Module Msg.

Inductive MPI_Datatype : Type :=
| MPI_INT | MPI_CHAR | MPI_FLOAT | MPI_DOUBLE | MPI_UNSIGNED.

Record message : Type := { msg_type : MPI_Datatype; msg_data : list Z }.

(** Modelled from the spec: the message-passing substrate, a library that is
    not part of the sources.  Messages from one source to one destination
    under one tag are received in the order sent; a receive of [count]
    elements reads that many elements of the oldest message and leaves the
    elements beyond them unread; a receive with no message blocks.  A
    negative [count] makes the library abort; a [count] beyond the end of
    the buffer is a read or a write outside an array.  A network gives the
    queue of each channel, a channel being a source, a destination and a
    tag; the empty network has nothing in flight. *)
Abbreviation network := (Z * Z * Z -> list message).

#[global] Instance network_empty : Empty network := fun _ => [].

Definition channel (net : network) (source dest tag : Z) : list message :=
  net (source, dest, tag).

Definition comm (A : Type) : Type := network -> network * outcome A.

Definition ret {A : Type} (a : A) : comm A := fun net => (net, Returns a).

Definition bind {A B : Type} (m : comm A) (f : A -> comm B) : comm B :=
  fun net =>
    match m net with
    | (net', Returns a) => f a net'
    | (net', Halts h) => (net', Halts h)
    | (net', Blocks) => (net', Blocks)
    | (net', Undefined) => (net', Undefined)
    | (net', OutOfFuel) => (net', OutOfFuel)
    end.

Definition stop {A : Type} (o : outcome A) : comm A := fun net => (net, o).

#[global] Instance comm_ret : MRet comm := @ret.
#[global] Instance comm_bind : MBind comm := fun A B f m => bind m f.

Definition assert (condition : bool) : comm unit :=
  stop (ASSERT condition (Returns tt)).

Definition MPI_Send (self : Z) (buf : list Z) (count : Z) (datatype : MPI_Datatype)
    (dest tag : Z) : comm unit :=
  fun net =>
    if count <? 0 then (net, Halts substrate_abort)
    else if Z.of_nat (length buf) <? count then (net, Undefined)
    else
      let msg := {| msg_type := datatype; msg_data := take (Z.to_nat count) buf |} in
      (<[(self, dest, tag) := channel net self dest tag ++ [msg]]> net, Returns tt).

Definition MPI_Recv (self : Z) (buf : list Z) (count : Z) (datatype : MPI_Datatype)
    (source tag : Z) : comm (list Z) :=
  fun net =>
    if count <? 0 then (net, Halts substrate_abort)
    else
      match channel net source self tag with
      | [] => (net, Blocks)
      | msg :: rest =>
          let got := take (Z.to_nat count) (msg_data msg) in
          let unread := drop (Z.to_nat count) (msg_data msg) in
          let queue :=
            match unread with
            | [] => rest
            | _ => {| msg_type := msg_type msg; msg_data := unread |} :: rest
            end in
          if (length buf <? length got)%nat
          then (<[(source, self, tag) := queue]> net, Undefined)
          else (<[(source, self, tag) := queue]> net,
                Returns (got ++ drop (length got) buf))
      end.

Definition MPI_Iprobe (self source tag : Z) : comm bool :=
  fun net =>
    (net, Returns (match channel net source self tag with [] => false | _ => true end)).

Definition ASSERT_RANK (g : mpi_globals) (n : Z) : comm unit :=
  assert (n <? comm_size g).

(** [mpi_inbox] *)
Definition mpi_inbox (cfg : build) (g : mpi_globals) (from : Z) : comm bool :=
  ASSERT_RANK g from ;;
  if USE_MPI cfg then MPI_Iprobe (this_rank g) from 666
  else ret false.

(** [mpi_send].  The buffer [data] is a list, so [data != NULL] holds by
    construction. *)
Definition mpi_send (cfg : build) (g : mpi_globals)
    (to n : Z) (type : ascii) (data : list Z) : comm unit :=
  assert (0 <? n) ;;
  ASSERT_RANK g to ;;
  if USE_MPI cfg then
    MPI_Send (this_rank g) (size_t_words n) 1 MPI_UNSIGNED to 666 ;;
    if (type =? "i")%char then
      MPI_Send (this_rank g) data (c_int n) MPI_INT to 667
    else if (type =? "c")%char then
      MPI_Send (this_rank g) data (c_int n) MPI_CHAR to 667
    else if (type =? "f")%char then
      MPI_Send (this_rank g) data (c_int n) MPI_FLOAT to 667
    else if (type =? "d")%char then
      MPI_Send (this_rank g) data (c_int n) MPI_DOUBLE to 667
    else
      stop (Halts (exit_failure (invalid_type type)))
  else ret tt.

(** [mpi_receive]; the result is the content of the buffer [data] on return.
    Modelled from the spec: [min], a macro of [globals.h], is the minimum
    of its arguments. *)
Definition mpi_receive (cfg : build) (g : mpi_globals)
    (from n : Z) (type : ascii) (data : list Z) : comm (list Z) :=
  assert (0 <? n) ;;
  ASSERT_RANK g from ;;
  if USE_MPI cfg then
    words ← MPI_Recv (this_rank g) (size_t_words 0) 1 MPI_UNSIGNED from 666;
    let m := Z.min n (size_t_of_words words) in
    if (type =? "i")%char then
      MPI_Recv (this_rank g) data (c_int m) MPI_INT from 667
    else if (type =? "c")%char then
      MPI_Recv (this_rank g) data (c_int m) MPI_CHAR from 667
    else if (type =? "f")%char then
      MPI_Recv (this_rank g) data (c_int m) MPI_FLOAT from 667
    else if (type =? "d")%char then
      MPI_Recv (this_rank g) data (c_int m) MPI_DOUBLE from 667
    else
      stop (Halts (exit_failure (invalid_type type)))
  else ret data.

(** The datatype that the [switch] of [mpi_send] and [mpi_receive] selects
    for a supported [type]. *)
Definition datatype_of (type : ascii) : MPI_Datatype :=
  if (type =? "i")%char then MPI_INT
  else if (type =? "c")%char then MPI_CHAR
  else if (type =? "f")%char then MPI_FLOAT
  else MPI_DOUBLE.

Definition supported_type (type : ascii) : bool :=
  (type =? "i")%char || (type =? "c")%char || (type =? "f")%char || (type =? "d")%char.

(** A call of [mpi_send] for [n] elements transmits the header before the
    payload: there is a state [net_h] of the network, that in which the
    header [n] has gone out on the control channel and the data channel is
    still as it was, from which the payload is sent, and in which every
    call for [n] elements ends that cannot send a payload, because its type
    is not supported (the process exits there) or because its buffer
    [short] has fewer than [n] elements. *)
Definition header_before_payload (cfg : build) (gs : mpi_globals) (to n : Z)
    (type : ascii) (buf : list Z) (net : network) : Prop :=
  exists net_h,
    MPI_Send (this_rank gs) (size_t_words n) 1 MPI_UNSIGNED to 666 net =
      (net_h, Returns tt) /\
    channel net_h (this_rank gs) to 666 =
      channel net (this_rank gs) to 666 ++
      [{| msg_type := MPI_UNSIGNED; msg_data := [n] |}] /\
    channel net_h (this_rank gs) to 667 = channel net (this_rank gs) to 667 /\
    mpi_send cfg gs to n type buf net =
      MPI_Send (this_rank gs) buf (c_int n) (datatype_of type) to 667 net_h /\
    (forall type' : ascii, supported_type type' = false ->
       mpi_send cfg gs to n type' buf net =
         (net_h, Halts (exit_failure (invalid_type type')))) /\
    (forall (type' : ascii) (short : list Z),
       supported_type type' = true -> Z.of_nat (length short) < n ->
       mpi_send cfg gs to n type' short net = (net_h, Undefined)).

(** A send of [n] elements of [buf] by process [gs] to process [gr],
    followed by a receive of [n'] elements into [outbuf] there: both calls
    return, the control channel carries the header [n] and the data channel
    the payload, the first [min n n'] elements arrive, and the header has
    gone out before the payload. *)
Definition round_trip (cfg : build) (gs gr : mpi_globals) (n n' : Z)
    (type : ascii) (buf outbuf : list Z) (net : network) : Prop :=
  exists net1 net2 out,
    mpi_send cfg gs (this_rank gr) n type buf net = (net1, Returns tt) /\
    channel net1 (this_rank gs) (this_rank gr) 666 =
      [{| msg_type := MPI_UNSIGNED; msg_data := [n] |}] /\
    channel net1 (this_rank gs) (this_rank gr) 667 =
      [{| msg_type := datatype_of type; msg_data := buf |}] /\
    mpi_receive cfg gr (this_rank gs) n' type outbuf net1 = (net2, Returns out) /\
    length out = length outbuf /\
    (forall i : nat, Z.of_nat i < Z.min n n' -> out !! i = buf !! i) /\
    header_before_payload cfg gs (this_rank gr) n type buf net.

End Msg.

(** ** Dense matrices ([matrix.c]) *)

Module Matrix.

(** [struct matrix]: row-major [data], [max_row] by [max_col]. *)
Record matrix : Type := {
  data : list Z;
  max_row : Z;
  max_col : Z;
  use_omp : Z
}.

(** [DATA_OFFSET]: the index of [data[p*max_col + q]], in [size_t]. *)
Definition DATA_OFFSET (m : matrix) (p q : Z) : Z :=
  size_add (size_mul p (max_col m)) q.

Definition ASSERT_ROW_INDEX {A : Type} (cfg : build) (m : matrix) (p : Z)
    (k : outcome A) : outcome A :=
  if MATRIX_BOUND_CHECK cfg then ASSERT (p <? max_row m) k else k.

Definition ASSERT_COL_INDEX {A : Type} (cfg : build) (m : matrix) (q : Z)
    (k : outcome A) : outcome A :=
  if MATRIX_BOUND_CHECK cfg then ASSERT (q <? max_col m) k else k.

Definition matrix_set (cfg : build) (m : matrix) (p q : Z) (x : Z) : outcome matrix :=
  ASSERT_ROW_INDEX cfg m p (ASSERT_COL_INDEX cfg m q (
    let k := DATA_OFFSET m p q in
    if k <? Z.of_nat (length (data m)) then
      Returns {| data := <[Z.to_nat k := x]> (data m);
                 max_row := max_row m; max_col := max_col m; use_omp := use_omp m |}
    else Undefined)).

Definition matrix_get (cfg : build) (m : matrix) (p q : Z) : outcome Z :=
  ASSERT_ROW_INDEX cfg m p (ASSERT_COL_INDEX cfg m q (
    match data m !! Z.to_nat (DATA_OFFSET m p q) with
    | Some x => Returns x
    | None => Undefined
    end)).

Definition matrix_rows (m : matrix) : Z := max_row m.

End Matrix.

(** ** The sparse backend *)

Module Petsc.

(** Modelled from the spec: the distributed sparse backend (PETSc and
    SLEPc), libraries that are not part of the sources.  A [Mat] is the
    finite map of the entries that this process has staged, a [Vec] is the
    slice of the vector that this process owns, and an [EPS] is the record of
    what the solver has been configured with; a setter stores its arguments
    and reports success (code 0). *)
Abbreviation Mat := (gmap (Z * Z) Z).

Definition MatSetValue (A : Mat) (row col : Z) (value : Z) : Z * Mat :=
  (0, <[(row, col) := value]> A).

Record Vec : Type := { own_first : Z; own_last : Z; own_values : list Z }.

Definition PETSC_ERR_ARG_OUTOFRANGE : Z := 63.

Definition VecGetValues (x : Vec) (ix : Z) : Z * Z :=
  if (own_first x <=? ix) && (ix <? own_last x) then
    match own_values x !! Z.to_nat (ix - own_first x) with
    | Some y => (0, y)
    | None => (PETSC_ERR_ARG_OUTOFRANGE, 0)
    end
  else (PETSC_ERR_ARG_OUTOFRANGE, 0).

Inductive EPSWhich : Type := EPS_LARGEST_REAL | EPS_SMALLEST_REAL.
Inductive EPSProblemType : Type := EPS_HEP.
Inductive EPSType : Type := EPSKRYLOVSCHUR.

Definition PETSC_DECIDE : Z := -1.

Record EPS : Type := {
  eps_operator : option Mat;
  eps_nev : Z;
  eps_ncv : Z;
  eps_mpd : Z;
  eps_problem_type : option EPSProblemType;
  eps_which : option EPSWhich;
  eps_type : option EPSType;
  eps_tol : Z;
  eps_max_it : Z;
  eps_nconv : Z
}.

Definition EPSCreate : Z * EPS :=
  (0, {| eps_operator := None; eps_nev := 1; eps_ncv := PETSC_DECIDE;
         eps_mpd := PETSC_DECIDE; eps_problem_type := None; eps_which := None;
         eps_type := None; eps_tol := 0; eps_max_it := PETSC_DECIDE;
         eps_nconv := 0 |}).

Definition EPSSetOperators (eps : EPS) (A : Mat) : Z * EPS :=
  (0, {| eps_operator := Some A; eps_nev := eps_nev eps; eps_ncv := eps_ncv eps;
         eps_mpd := eps_mpd eps; eps_problem_type := eps_problem_type eps;
         eps_which := eps_which eps; eps_type := eps_type eps;
         eps_tol := eps_tol eps; eps_max_it := eps_max_it eps;
         eps_nconv := eps_nconv eps |}).

Definition EPSSetDimensions (eps : EPS) (nev ncv mpd : Z) : Z * EPS :=
  (0, {| eps_operator := eps_operator eps; eps_nev := nev; eps_ncv := ncv;
         eps_mpd := mpd; eps_problem_type := eps_problem_type eps;
         eps_which := eps_which eps; eps_type := eps_type eps;
         eps_tol := eps_tol eps; eps_max_it := eps_max_it eps;
         eps_nconv := eps_nconv eps |}).

Definition EPSSetProblemType (eps : EPS) (type : EPSProblemType) : Z * EPS :=
  (0, {| eps_operator := eps_operator eps; eps_nev := eps_nev eps;
         eps_ncv := eps_ncv eps; eps_mpd := eps_mpd eps;
         eps_problem_type := Some type;
         eps_which := eps_which eps; eps_type := eps_type eps;
         eps_tol := eps_tol eps; eps_max_it := eps_max_it eps;
         eps_nconv := eps_nconv eps |}).

Definition EPSSetWhichEigenpairs (eps : EPS) (which : EPSWhich) : Z * EPS :=
  (0, {| eps_operator := eps_operator eps; eps_nev := eps_nev eps;
         eps_ncv := eps_ncv eps; eps_mpd := eps_mpd eps;
         eps_problem_type := eps_problem_type eps;
         eps_which := Some which; eps_type := eps_type eps;
         eps_tol := eps_tol eps; eps_max_it := eps_max_it eps;
         eps_nconv := eps_nconv eps |}).

Definition EPSSetType (eps : EPS) (type : EPSType) : Z * EPS :=
  (0, {| eps_operator := eps_operator eps; eps_nev := eps_nev eps;
         eps_ncv := eps_ncv eps; eps_mpd := eps_mpd eps;
         eps_problem_type := eps_problem_type eps;
         eps_which := eps_which eps; eps_type := Some type;
         eps_tol := eps_tol eps; eps_max_it := eps_max_it eps;
         eps_nconv := eps_nconv eps |}).

Definition EPSSetTolerances (eps : EPS) (tol : Z) (maxits : Z) : Z * EPS :=
  (0, {| eps_operator := eps_operator eps; eps_nev := eps_nev eps;
         eps_ncv := eps_ncv eps; eps_mpd := eps_mpd eps;
         eps_problem_type := eps_problem_type eps;
         eps_which := eps_which eps; eps_type := eps_type eps;
         eps_tol := tol; eps_max_it := maxits;
         eps_nconv := eps_nconv eps |}).

(** The numerical kernels, which the model does not compute: the iterative
    solver maps a configured [EPS] to an error code and the number of
    converged eigenpairs; the dense solver [call_dsyev] maps [jobz], [uplo],
    [n], the array [a] and [lda] to the overwritten array and the
    eigenvalues, or fails. *)
Record kernels : Type := {
  krylov_schur : EPS -> Z * Z;
  call_dsyev : ascii -> ascii -> Z -> list Z -> Z -> outcome (list Z * list Z)
}.

Definition EPSSolve (K : kernels) (eps : EPS) : Z * EPS :=
  let '(info, nconv) := krylov_schur K eps in
  (info, {| eps_operator := eps_operator eps; eps_nev := eps_nev eps;
            eps_ncv := eps_ncv eps; eps_mpd := eps_mpd eps;
            eps_problem_type := eps_problem_type eps;
            eps_which := eps_which eps; eps_type := eps_type eps;
            eps_tol := eps_tol eps; eps_max_it := eps_max_it eps;
            eps_nconv := nconv |}).

Definition EPSGetConverged (eps : EPS) : Z * Z := (0, eps_nconv eps).

End Petsc.

(** ** Matrix and vector handles, eigensolver dispatch *)

Module Handles.

Import Matrix Petsc.

(** [matrix_symm_eigen] of [matrix.c]: the eigenvalues, and the matrix
    overwritten by [call_dsyev]. *)
Definition matrix_symm_eigen (K : kernels) (m : matrix) (job : ascii)
    : outcome (list Z * matrix) :=
  outcome_bind (call_dsyev K job "l" (max_row m) (data m) (max_row m))
    (fun '(a, eigenval) =>
       Returns (eigenval,
                {| data := a; max_row := max_row m; max_col := max_col m;
                   use_omp := use_omp m |})).

(** [struct mpi_matrix]: [mat_data, mat_max_row, mat_max_col, mat_first,
    mat_last] and [mat_solver] are the fields [data, max_row, max_col,
    first, last, solver] of the layout with the sparse backend;
    [dense_data] and [mat_eigenval] are [data] and [eigenval] of the layout
    without it. *)
Record mpi_matrix : Type := {
  mat_data : Mat;
  mat_max_row : Z;
  mat_max_col : Z;
  mat_first : Z;
  mat_last : Z;
  mat_solver : option EPS;
  dense_data : matrix;
  mat_eigenval : option (list Z)
}.

(** [struct mpi_vector]: [vec_data] is [data] with the sparse backend,
    [raw_data] is [data] without it. *)
Record mpi_vector : Type := {
  vec_data : Vec;
  raw_data : list Z;
  vec_length : Z;
  vec_first : Z;
  vec_last : Z
}.

(** [CHECK_PETSC_ERROR]: with a non-zero code the failure is reported and,
    if [stop], the process exits. *)
Definition CHECK_PETSC_ERROR {A : Type} (g : mpi_globals) (name : string)
    (code : Z) (stop : bool) (k : outcome A) : outcome A :=
  if code =? 0 then k
  else if stop then Halts (exit_failure (petsc_failure (this_rank g) name code))
  else k.

Definition ASSERT_ROW_INDEX {A : Type} (cfg : build) (m : mpi_matrix) (p : Z)
    (k : outcome A) : outcome A :=
  if USE_PETSC cfg then ASSERT (p <? mat_max_row m) k else k.

Definition ASSERT_COL_INDEX {A : Type} (cfg : build) (m : mpi_matrix) (q : Z)
    (k : outcome A) : outcome A :=
  if USE_PETSC cfg then ASSERT (q <? mat_max_col m) k else k.

Definition with_mat_data (m : mpi_matrix) (A : Mat) : mpi_matrix :=
  {| mat_data := A; mat_max_row := mat_max_row m; mat_max_col := mat_max_col m;
     mat_first := mat_first m; mat_last := mat_last m; mat_solver := mat_solver m;
     dense_data := dense_data m; mat_eigenval := mat_eigenval m |}.

Definition with_dense_data (m : mpi_matrix) (d : matrix) : mpi_matrix :=
  {| mat_data := mat_data m; mat_max_row := mat_max_row m;
     mat_max_col := mat_max_col m; mat_first := mat_first m;
     mat_last := mat_last m; mat_solver := mat_solver m;
     dense_data := d; mat_eigenval := mat_eigenval m |}.

Definition with_solver (m : mpi_matrix) (eps : EPS) : mpi_matrix :=
  {| mat_data := mat_data m; mat_max_row := mat_max_row m;
     mat_max_col := mat_max_col m; mat_first := mat_first m;
     mat_last := mat_last m; mat_solver := Some eps;
     dense_data := dense_data m; mat_eigenval := mat_eigenval m |}.

Definition with_eigenval (m : mpi_matrix) (eigenval : list Z) : mpi_matrix :=
  {| mat_data := mat_data m; mat_max_row := mat_max_row m;
     mat_max_col := mat_max_col m; mat_first := mat_first m;
     mat_last := mat_last m; mat_solver := mat_solver m;
     dense_data := dense_data m; mat_eigenval := Some eigenval |}.

(** [mpi_matrix_set].  The [int] arguments [p] and [q] become [size_t] on
    the way into [matrix_set]. *)
Definition mpi_matrix_set (cfg : build) (g : mpi_globals) (m : mpi_matrix)
    (p q : Z) (x : Z) : outcome mpi_matrix :=
  ASSERT_ROW_INDEX cfg m p (ASSERT_COL_INDEX cfg m q (
    if USE_PETSC cfg then
      if (mat_first m <=? p) && (p <? mat_last m) then
        let '(info, A) := MatSetValue (mat_data m) p q x in
        CHECK_PETSC_ERROR g "MatSetValue()" info true (Returns (with_mat_data m A))
      else Returns m
    else
      outcome_bind (matrix_set cfg (dense_data m) (size_wrap p) (size_wrap q) x)
        (fun d => Returns (with_dense_data m d)))).

(** A matrix shared by the processes of a communicator: the handle that
    each rank holds.  [on_rank r f] is process [r] running [f] on its own
    handle. *)
Definition on_rank (r : Z) (f : mpi_matrix -> outcome mpi_matrix)
    (handles : list mpi_matrix) : outcome (list mpi_matrix) :=
  match handles !! Z.to_nat r with
  | Some m => outcome_bind (f m) (fun m' => Returns (<[Z.to_nat r := m']> handles))
  | None => Undefined
  end.

(** [mpi_matrix_sparse_eigen]: the handle on return and the result. *)
Definition mpi_matrix_sparse_eigen (cfg : build) (K : kernels) (g : mpi_globals)
    (m : mpi_matrix) (n max_step : Z) (tol : Z) (up : bool)
    : outcome (mpi_matrix * Z) :=
  ASSERT (0 <? n) (ASSERT (0 <? max_step) (
  ASSERT (Bool.eqb up up) (ASSERT (negb (is_nan tol)) (
    if USE_PETSC cfg && USE_SLEPC cfg then
      let '(info, solver) := EPSCreate in
      CHECK_PETSC_ERROR g "EPSCreate()" info true (
      let '(info, solver) := EPSSetOperators solver (mat_data m) in
      CHECK_PETSC_ERROR g "EPSSetOperators()" info true (
      if negb (int_range (2 * n + 10)) then Undefined else
      let '(info, solver) := EPSSetDimensions solver n (2 * n + 10) PETSC_DECIDE in
      CHECK_PETSC_ERROR g "EPSSetDimensions()" info true (
      let '(info, solver) := EPSSetProblemType solver EPS_HEP in
      CHECK_PETSC_ERROR g "EPSSetProblemType()" info true (
      let job := if up then EPS_LARGEST_REAL else EPS_SMALLEST_REAL in
      let '(info, solver) := EPSSetWhichEigenpairs solver job in
      CHECK_PETSC_ERROR g "EPSSetWhichEigenpairs()" info true (
      let '(info, solver) := EPSSetType solver EPSKRYLOVSCHUR in
      CHECK_PETSC_ERROR g "EPSSetType()" info true (
      let '(info, solver) := EPSSetTolerances solver tol max_step in
      CHECK_PETSC_ERROR g "EPSSetTolerances()" info true (
      let '(info, solver) := EPSSolve K solver in
      CHECK_PETSC_ERROR g "EPSSolve()" info true (
      let '(info, n_max) := EPSGetConverged solver in
      CHECK_PETSC_ERROR g "EPSGetConverged()" info true (
      Returns (with_solver m solver, n_max))))))))))
    else
      outcome_bind (matrix_symm_eigen K (dense_data m) "v")
        (fun '(eigenval, d) =>
           Returns (with_eigenval (with_dense_data m d) eigenval,
                    c_int (matrix_rows d))))))).

(** The handle that [mpi_matrix_alloc] leaves for a [rows] by [cols] matrix
    of which this process owns the rows [[first, last)]: nothing staged, a
    dense buffer of zeros. *)
Definition fresh_matrix (rows cols first last : Z) : mpi_matrix :=
  {| mat_data := ∅; mat_max_row := rows; mat_max_col := cols;
     mat_first := first; mat_last := last; mat_solver := None;
     dense_data := {| data := replicate (Z.to_nat (rows * cols)) 0;
                      max_row := rows; max_col := cols; use_omp := 0 |};
     mat_eigenval := None |}.

(** Kernels for examples: the iterative solver reports [nconv] converged
    pairs, the dense solver leaves the array as it is and reports
    [eigenval]. *)
Definition constant_kernels (nconv : Z) (eigenval : list Z) : kernels :=
  {| krylov_schur := fun _ => (0, nconv);
     call_dsyev := fun _ _ _ a _ => Returns (a, eigenval) |}.

End Handles.

(** ** Gather-output *)

Module Gather.

Import Msg Petsc Handles.

(** [mpi_barrier]: every process waits for the others; the state of the
    caller is what it was. *)
Definition mpi_barrier (cfg : build) : comm unit := ret tt.

(** [sleep]: of no effect on the state. *)
Definition sleep : comm unit := ret tt.

(** [fwrite(&value, sizeof(double), 1, stream)] *)
Definition fwrite_value (value : Z) (stream : list Z) : list Z := stream ++ [value].

(** The loop of the root over its own elements,
    [for (n = ...; n < ...; ++n) { VecGetValues; fwrite }], on the indices
    [ns]; the result is the variable [value] and the stream. *)
Fixpoint write_owned (g : mpi_globals) (v : mpi_vector) (ns : list Z)
    (value : Z) (stream : list Z) : outcome (Z * list Z) :=
  match ns with
  | [] => Returns (value, stream)
  | n :: ns' =>
      let '(info, value') := VecGetValues (vec_data v) n in
      CHECK_PETSC_ERROR g "VecGetValues()" info true
        (write_owned g v ns' value' (fwrite_value value' stream))
  end.

(** The loop of the other processes,
    [for (n = ...; n < ...; ++n) { VecGetValues; mpi_send(0, 1, 'd', &value) }]. *)
Fixpoint send_owned (cfg : build) (g : mpi_globals) (v : mpi_vector) (ns : list Z)
    : comm unit :=
  match ns with
  | [] => ret tt
  | n :: ns' =>
      let '(info, value) := VecGetValues (vec_data v) n in
      if info =? 0 then
        mpi_send cfg g 0 1 "d" [value] ;; send_owned cfg g v ns'
      else stop (Halts (exit_failure (petsc_failure (this_rank g) "VecGetValues()" info)))
  end.

(** [while (mpi_inbox(from)) { mpi_receive(from, 1, 'd', &value); fwrite }],
    run for at most [fuel] iterations. *)
Fixpoint drain_inbox (fuel : nat) (cfg : build) (g : mpi_globals) (from : Z)
    (value : Z) (stream : list Z) : comm (Z * list Z) :=
  match fuel with
  | O => stop OutOfFuel
  | S fuel' =>
      pending ← mpi_inbox cfg g from;
      if pending : bool then
        buffer ← mpi_receive cfg g from 1 "d" [value];
        let value' := default value (head buffer) in
        drain_inbox fuel' cfg g from value' (fwrite_value value' stream)
      else ret (value, stream)
  end.

(** [for (from = 1; from < mpi_comm_size(); ++from) while ...], on the
    ranks [froms]. *)
Fixpoint drain_ranks (fuel : nat) (cfg : build) (g : mpi_globals) (froms : list Z)
    (value : Z) (stream : list Z) : comm (Z * list Z) :=
  match froms with
  | [] => ret (value, stream)
  | from :: froms' =>
      '(value', stream') ← drain_inbox fuel cfg g from value stream;
      drain_ranks fuel cfg g froms' value' stream'
  end.

(** The indices [max(n_min, first), ..., min(n_max, last) - 1] of both
    [for] loops.  Modelled from the spec: [min] and [max], macros of
    [globals.h], are the minimum and the maximum. *)
Definition owned_indices (v : mpi_vector) (n_min n_max : Z) : list Z :=
  seqZ (Z.max n_min (vec_first v))
       (Z.min n_max (vec_last v) - Z.max n_min (vec_first v)).

(** [mpi_vector_write].  [stream] is [None] for a [NULL] stream and else
    what has been written to it; the result is the stream on return.  The
    local [value] is 0 until it is assigned. *)
Definition mpi_vector_write (fuel : nat) (cfg : build) (g : mpi_globals)
    (v : mpi_vector) (n_min n_max : Z) (stream : option (list Z))
    : comm (option (list Z)) :=
  assert (-1 <? n_min) ;;
  assert (n_min <? n_max) ;;
  assert (n_max <? vec_length v) ;;
  (if mpi_rank g =? 0 then assert (bool_decide (is_Some stream)) else ret tt) ;;
  if USE_PETSC cfg then
    mpi_barrier cfg ;;
    if mpi_rank g =? 0 then
      match stream with
      | None => stop Undefined
      | Some out =>
          let drain value out :=
            '(_, out') ← drain_ranks fuel cfg g
                           (seqZ 1 (mpi_comm_size g - 1)) value out;
            ret (Some out') in
          if n_min <? vec_last v then
            '(value, out') ← stop (write_owned g v (owned_indices v n_min n_max) 0 out);
            if mpi_comm_size g =? 1 then ret (Some out')
            else drain value out'
          else
            sleep ;; drain 0 out
      end
    else
      if vec_last v <=? n_min then ret stream
      else
        send_owned cfg g v (owned_indices v n_min n_max) ;;
        ret stream
  else
    match stream with
    | None => stop Undefined
    | Some out =>
        if n_min + n_max <=? Z.of_nat (length (raw_data v)) then
          ret (Some (out ++ take (Z.to_nat n_max) (drop (Z.to_nat n_min) (raw_data v))))
        else stop Undefined
    end.

(** The handle that [mpi_vector_alloc] and the staging of [elements] leave
    on a process that owns the indices [[first, last)] of a vector; without
    the backend the whole vector is in [raw_data]. *)
Definition vector_handle (elements : list Z) (first last : Z) : mpi_vector :=
  {| vec_data := {| own_first := first; own_last := last;
                    own_values := take (Z.to_nat (last - first))
                                    (drop (Z.to_nat first) elements) |};
     raw_data := elements;
     vec_length := Z.of_nat (length elements);
     vec_first := first;
     vec_last := last |}.

(** The handles of a vector split between two processes: rank 0 owns the
    indices below [k], rank 1 the others. *)
Definition split_in_two (elements : list Z) (k : Z) (r : Z) : mpi_vector :=
  if r =? 0 then vector_handle elements 0 k
  else vector_handle elements k (Z.of_nat (length elements)).

(** The elements first, ..., last - 1 of the requested range, the output
    that the documentation of [mpi_vector_write] announces. *)
Definition requested_range (elements : list Z) (n_min n_max : Z) : list Z :=
  take (Z.to_nat (n_max - n_min)) (drop (Z.to_nat n_min) elements).

(** One schedule of the collective call: the processes [ranks] run
    [mpi_vector_write] to its end one after the other, and then the root
    runs it, so that every message is there when the root looks for it. *)
Fixpoint run_senders (fuel : nat) (cfg : build) (size : Z)
    (handles : Z -> mpi_vector) (ranks : list Z) (n_min n_max : Z) : comm unit :=
  match ranks with
  | [] => ret tt
  | r :: ranks' =>
      mpi_vector_write fuel cfg (process size r) (handles r) n_min n_max None ;;
      run_senders fuel cfg size handles ranks' n_min n_max
  end.

Definition gather (fuel : nat) (cfg : build) (size : Z)
    (handles : Z -> mpi_vector) (n_min n_max : Z) (out : list Z)
    : comm (option (list Z)) :=
  run_senders fuel cfg size handles (seqZ 1 (size - 1)) n_min n_max ;;
  mpi_vector_write fuel cfg (process size 0) (handles 0) n_min n_max (Some out).

(** A handle as [mpi_vector_alloc] fills it: [first] and [last] are the
    ownership range of the backend vector, which holds one value per owned
    index. *)
Definition wf_vector (v : mpi_vector) : Prop :=
  vec_first v = own_first (vec_data v) /\
  vec_last v = own_last (vec_data v) /\
  Z.of_nat (length (own_values (vec_data v))) = vec_last v - vec_first v.

(** The values of the owned elements of the requested range, by ascending
    index. *)
Definition owned_values (v : mpi_vector) (n_min n_max : Z) : list Z :=
  (fun n => (VecGetValues (vec_data v) n).2) <$> owned_indices v n_min n_max.

(** The value that a process holds for the element of index [n] of the
    vector: the [n - first]-th of the values that it owns. *)
Definition owned_element (v : mpi_vector) (n : Z) : Z :=
  default 0 (own_values (vec_data v) !! Z.to_nat (n - vec_first v)).

(** What the documentation of [mpi_vector_write] announces of a process,
    stated without the loops of the function: [ns] lists the indices of
    [[n_min, n_max)] that the process owns, each of them once, by ascending
    index. *)
Definition ascending_owned (v : mpi_vector) (n_min n_max : Z) (ns : list Z) : Prop :=
  StronglySorted Z.lt ns /\
  forall n, n ∈ ns <-> (n_min <= n < n_max /\ vec_first v <= n < vec_last v).

(** The two messages of [mpi_send(0, 1, 'd', &value)]. *)
Definition unit_header : message :=
  {| msg_type := MPI_UNSIGNED; msg_data := [1] |}.

Definition unit_payload (value : Z) : message :=
  {| msg_type := MPI_DOUBLE; msg_data := [value] |}.

End Gather.

(** ** The collective call under any schedule

    The processes of one collective call of [mpi_vector_write] with the
    sparse backend, after the barrier, as a transition system: a step is one
    iteration of the sending loop of a process other than the root, or one
    move of the root (its own loop, one round of the [while] loop, the
    passage to the next rank, the return).  Steps of different processes
    interleave in any order. *)

Module Schedule.

Import Msg Petsc Handles Gather.

(** Where the root is: before its own loop, in the [while] loop of the first
    rank of [froms] with the other ranks of [froms] still to come, or back
    from the call. *)
Inductive root_state : Type :=
| root_start (stream : list Z)
| root_draining (froms : list Z) (value : Z) (stream : list Z)
| root_done (stream : list Z).

Definition root_stream (rs : root_state) : list Z :=
  match rs with
  | root_start stream => stream
  | root_draining _ _ stream => stream
  | root_done stream => stream
  end.

(** The network, the indices that each other process has still to send, and
    the root. *)
Record system : Type := {
  sys_net : network;
  sys_todo : Z -> list Z;
  sys_root : root_state
}.

Definition with_todo (todo : Z -> list Z) (r : Z) (ns : list Z) : Z -> list Z :=
  fun r' => if decide (r' = r) then ns else todo r'.

Section Steps.

Variables (cfg : build) (size : Z) (handles : Z -> mpi_vector) (n_min n_max : Z).

Inductive step : system -> system -> Prop :=
| step_send (s : system) (r n : Z) (ns : list Z) (net' : network) :
    1 <= r < size ->
    sys_todo s r = n :: ns ->
    send_owned cfg (process size r) (handles r) [n] (sys_net s) = (net', Returns tt) ->
    step s {| sys_net := net';
              sys_todo := with_todo (sys_todo s) r ns;
              sys_root := sys_root s |}
| step_own (s : system) (out : list Z) (value : Z) (out' : list Z) :
    sys_root s = root_start out ->
    n_min < vec_last (handles 0) ->
    write_owned (process size 0) (handles 0)
      (owned_indices (handles 0) n_min n_max) 0 out = Returns (value, out') ->
    step s {| sys_net := sys_net s;
              sys_todo := sys_todo s;
              sys_root := if size =? 1 then root_done out'
                          else root_draining (seqZ 1 (size - 1)) value out' |}
| step_sleep (s : system) (out : list Z) :
    sys_root s = root_start out ->
    vec_last (handles 0) <= n_min ->
    step s {| sys_net := sys_net s;
              sys_todo := sys_todo s;
              sys_root := root_draining (seqZ 1 (size - 1)) 0 out |}
| step_receive (s : system) (from : Z) (froms : list Z) (value : Z)
    (stream : list Z) (net1 net' : network) (buffer : list Z) :
    sys_root s = root_draining (from :: froms) value stream ->
    mpi_inbox cfg (process size 0) from (sys_net s) = (net1, Returns true) ->
    mpi_receive cfg (process size 0) from 1 "d" [value] net1 = (net', Returns buffer) ->
    step s {| sys_net := net';
              sys_todo := sys_todo s;
              sys_root := root_draining (from :: froms)
                            (default value (head buffer))
                            (fwrite_value (default value (head buffer)) stream) |}
| step_next (s : system) (from : Z) (froms : list Z) (value : Z)
    (stream : list Z) (net1 : network) :
    sys_root s = root_draining (from :: froms) value stream ->
    mpi_inbox cfg (process size 0) from (sys_net s) = (net1, Returns false) ->
    step s {| sys_net := net1;
              sys_todo := sys_todo s;
              sys_root := root_draining froms value stream |}
| step_return (s : system) (value : Z) (stream : list Z) :
    sys_root s = root_draining [] value stream ->
    step s {| sys_net := sys_net s;
              sys_todo := sys_todo s;
              sys_root := root_done stream |}.

(** The system after the barrier: nothing on the channels to the root,
    every other process before its loop, the root before its own with
    [out] on the stream. *)
Definition initial (out : list Z) (s : system) : Prop :=
  (forall r, 1 <= r < size ->
     channel (sys_net s) r 0 666 = [] /\ channel (sys_net s) r 0 667 = [] /\
     sys_todo s r = owned_indices (handles r) n_min n_max) /\
  sys_root s = root_start out.

(** What ties a state to the values [drained r] that the root has taken
    from each rank [r] so far: the values that [r] owns in the range are
    those drained, those on the channels and those still to send, in this
    order; and the stream holds [out], the root's own values and what has
    been drained, by rank. *)
Definition consistent (out : list Z) (drained : Z -> list Z) (s : system) : Prop :=
  (forall r, 1 <= r < size ->
     exists inflight,
       owned_values (handles r) n_min n_max =
         drained r ++ inflight ++
         ((fun n => (VecGetValues (vec_data (handles r)) n).2) <$> sys_todo s r) /\
       channel (sys_net s) r 0 666 = ((fun x => unit_header) <$> inflight) /\
       channel (sys_net s) r 0 667 = (unit_payload <$> inflight) /\
       (forall n, n ∈ sys_todo s r ->
          vec_first (handles r) <= n < vec_last (handles r))) /\
  match sys_root s with
  | root_start stream => stream = out /\ forall r, drained r = []
  | root_draining froms value stream =>
      (exists done, seqZ 1 (size - 1) = done ++ froms) /\
      (forall r, r ∈ tail froms -> drained r = []) /\
      stream = out ++ owned_values (handles 0) n_min n_max ++
               concat (drained <$> seqZ 1 (size - 1))
  | root_done stream =>
      stream = out ++ owned_values (handles 0) n_min n_max ++
               concat (drained <$> seqZ 1 (size - 1))
  end.

End Steps.

End Schedule.

(** ** Start-up, teardown and build report *)

Module Topology.

Import Handles.

(** Modelled from the spec: what the message-passing substrate and the
    sparse backend, libraries that are not part of the sources, answer at
    start-up and at teardown: the error codes of the initialisers and of the
    finalisers, the level of thread support provided, the rank of this
    process and the number of processes of the world communicator. *)
Record environment : Type := {
  PetscInitialize : Z;
  SlepcInitialize : Z;
  MPI_Init_thread : Z;
  MPI_Comm_rank : Z;
  MPI_Comm_size : Z;
  SlepcFinalize : Z;
  PetscFinalize : Z
}.

(** The substrate writes an [int] through the pointer that it is given, and
    [mpi_init] gives it the address of a [size_t] static: the low word is
    overwritten and the high word is kept. *)
Definition store_int (old value : Z) : Z :=
  old / UINT_MODULUS * UINT_MODULUS + value mod UINT_MODULUS.

(** [mpi_init], run by the master thread; [argv] is [None] for [NULL]. *)
Definition mpi_init (cfg : build) (env : environment) (argc : Z)
    (argv : option (list string)) (g : mpi_globals) : outcome mpi_globals :=
  ASSERT (0 <? argc) (ASSERT (bool_decide (is_Some argv)) (
    let petsc (k : outcome mpi_globals) :=
      if USE_PETSC cfg
      then CHECK_PETSC_ERROR g "PetscInitialize()" (PetscInitialize env) true k
      else k in
    let slepc (k : outcome mpi_globals) :=
      if USE_PETSC cfg && USE_SLEPC cfg
      then CHECK_PETSC_ERROR g "SlepcInitialize()" (SlepcInitialize env) true k
      else k in
    petsc (slepc (
      if USE_MPI cfg then
        Returns {| this_rank := store_int (this_rank g) (MPI_Comm_rank env);
                   comm_size := store_int (comm_size g) (MPI_Comm_size env);
                   thread_level :=
                     if USE_PETSC cfg then thread_level g
                     else store_int (thread_level g) (MPI_Init_thread env);
                   chunk_size := chunk_size g;
                   tasks := tasks g;
                   extra_tasks := extra_tasks g;
                   last_rank_index := last_rank_index g |}
      else Returns g)))).

Definition mpi_using_slepc (cfg : build) : bool := USE_PETSC cfg && USE_SLEPC cfg.

(** [CHECK_PETSC_ERROR] with the error stream kept.  Modelled from the
    spec: [PRINT_ERROR], a macro of [globals.h], which is not among the
    sources, reports the failure on the diagnostic stream. *)
Definition CHECK_PETSC_ERROR_on {A : Type} (g : mpi_globals) (name : string)
    (code : Z) (stop : bool) (stderr : list diagnostic)
    (k : list diagnostic -> outcome A) : outcome A :=
  if code =? 0 then k stderr
  else if stop then Halts (exit_failure (petsc_failure (this_rank g) name code))
  else k (stderr ++ [petsc_failure (this_rank g) name code]).

(** [mpi_end]: the error stream on return.  The barrier and the finaliser
    of the substrate leave the state of the caller as it is. *)
Definition mpi_end (cfg : build) (env : environment) (g : mpi_globals)
    (stderr : list diagnostic) : outcome (list diagnostic) :=
  let slepc (k : list diagnostic -> outcome (list diagnostic)) :=
    if USE_PETSC cfg && USE_SLEPC cfg
    then CHECK_PETSC_ERROR_on g "SlepcFinalize()" (SlepcFinalize env) false stderr k
    else k stderr in
  let petsc (stderr : list diagnostic)
      (k : list diagnostic -> outcome (list diagnostic)) :=
    if USE_PETSC cfg
    then CHECK_PETSC_ERROR_on g "PetscFinalize()" (PetscFinalize env) false stderr k
    else k stderr in
  slepc (fun stderr => petsc stderr (fun stderr => Returns stderr)).

(** [mpi_about]: the lines of [output] on return; [date] and [file] are
    what [__DATE__] and [__FILE__] expand to. *)
Definition mpi_about (cfg : build) (date file : string)
    (output : option (list string)) : outcome (list string) :=
  ASSERT (bool_decide (is_Some output)) (
    match output with
    | None => Undefined
    | Some lines =>
        Returns (lines ++
          [ "# build date  = " +:+ date;
            "# source code = " +:+ file;
            if USE_MPI cfg then "# using MPI   = yes" else "# using MPI   = no";
            if USE_PETSC cfg then "# using PETSc = yes" else "# using PETSc = no";
            if USE_SLEPC cfg then "# using SLEPc = yes" else "# using SLEPc = no" ])
    end).

End Topology.

(** ** More of the dense matrices ([matrix.c]) *)

Module Dense.

Import Matrix.

(** Modelled from the spec: [allocate(length, size, set_zero)], a function
    of [globals.h], which is not among the sources, as its callers use it:
    a fresh block of [length] elements, of zeros if [set_zero].  What a
    block that is not zeroed holds is not determined; the model takes it
    from [fresh], so that what is proved holds whatever it is. *)
Definition allocate (fresh : list Z) (length : Z) (set_zero : bool) : list Z :=
  if set_zero then replicate (Z.to_nat length) 0
  else resize (Z.to_nat length) 0 fresh.

Definition with_data (m : matrix) (d : list Z) : matrix :=
  {| data := d; max_row := max_row m; max_col := max_col m; use_omp := use_omp m |}.

(** [array[k] = x] and [array[k]], for [k] of type [size_t]. *)
Definition array_store (array : list Z) (k : Z) (x : Z) : outcome (list Z) :=
  if k <? Z.of_nat (length array) then Returns (<[Z.to_nat k := x]> array)
  else Undefined.

Definition array_load (array : list Z) (k : Z) : outcome Z :=
  match array !! Z.to_nat k with
  | Some x => Returns x
  | None => Undefined
  end.

(** [m->data[k] = x] and [m->data[k]] *)
Definition store (m : matrix) (k : Z) (x : Z) : outcome matrix :=
  outcome_bind (array_store (data m) k x) (fun d => Returns (with_data m d)).

Definition load (m : matrix) (k : Z) : outcome Z := array_load (data m) k.

(** [for (size_t n = ...; n < ...; ++n) body], on the indices [ns].  The
    iterations of the loops that run under OpenMP touch different elements,
    so that their order is of no effect. *)
Fixpoint for_loop {State : Type} (ns : list Z)
    (body : Z -> State -> outcome State) (s : State) : outcome State :=
  match ns with
  | [] => Returns s
  | n :: ns' => outcome_bind (body n s) (for_loop ns' body)
  end.

Definition matrix_set_all (m : matrix) (x : Z) : outcome matrix :=
  let n_max := size_mul (max_row m) (max_col m) in
  for_loop (seqZ 0 n_max) (fun n m => store m n x) m.

(** [matrix_set_zero]; the bit pattern of [0.0] is 0. *)
Definition matrix_set_zero (m : matrix) : outcome matrix :=
  let n_max := size_mul (max_row m) (max_col m) in
  for_loop (seqZ 0 n_max) (fun n m => store m n 0) m.

(** [matrix_using_magma]; [magma] tells whether [USE_MAGMA] is defined. *)
Definition matrix_using_magma (magma : bool) : bool := magma.

(** [matrix_alloc].  With [USE_MAGMA] the block comes from
    [magma_dmalloc_pinned], which does not zero it. *)
Definition matrix_alloc (magma : bool) (fresh : list Z) (max_row max_col : Z)
    (set_zero : bool) : outcome matrix :=
  let pointer (d : list Z) :=
    {| data := d; max_row := max_row; max_col := max_col; use_omp := 0 |} in
  if magma then
    let m := pointer (allocate fresh (size_mul max_row max_col) false) in
    if set_zero then matrix_set_zero m else Returns m
  else Returns (pointer (allocate fresh (size_mul max_row max_col) set_zero)).

Definition matrix_set_symm (cfg : build) (m : matrix) (p q : Z) (x : Z)
    : outcome matrix :=
  ASSERT_ROW_INDEX cfg m p (ASSERT_COL_INDEX cfg m q (
    outcome_bind (store m (DATA_OFFSET m p q) x)
      (fun m => store m (DATA_OFFSET m q p) x))).

Definition matrix_set_row (cfg : build) (m : matrix) (p : Z) (x : Z) : outcome matrix :=
  ASSERT_ROW_INDEX cfg m p (
    for_loop (seqZ 0 (max_col m)) (fun q m => store m (DATA_OFFSET m p q) x) m).

Definition matrix_set_col (cfg : build) (m : matrix) (q : Z) (x : Z) : outcome matrix :=
  ASSERT_COL_INDEX cfg m q (
    for_loop (seqZ 0 (max_row m)) (fun p m => store m (DATA_OFFSET m p q) x) m).

Definition matrix_get_row (cfg : build) (magma : bool) (fresh : list Z)
    (m : matrix) (p : Z) : outcome matrix :=
  ASSERT_ROW_INDEX cfg m p (
    outcome_bind (matrix_alloc magma fresh 1 (max_col m) false) (fun row =>
      for_loop (seqZ 0 (max_col m))
        (fun q row =>
           outcome_bind (load m (DATA_OFFSET m p q))
             (fun x => store row (DATA_OFFSET row 0 q) x))
        row)).

Definition matrix_get_col (cfg : build) (magma : bool) (fresh : list Z)
    (m : matrix) (q : Z) : outcome matrix :=
  ASSERT_COL_INDEX cfg m q (
    outcome_bind (matrix_alloc magma fresh (max_row m) 1 false) (fun col =>
      for_loop (seqZ 0 (max_row m))
        (fun p col =>
           outcome_bind (load m (DATA_OFFSET m p q))
             (fun x => store col (DATA_OFFSET col p 0) x))
        col)).

Definition matrix_get_diag (magma : bool) (fresh : list Z) (m : matrix)
    : outcome matrix :=
  outcome_bind (matrix_alloc magma fresh (max_row m) 1 false) (fun diag =>
    for_loop (seqZ 0 (max_row m))
      (fun p diag =>
         outcome_bind (load m (DATA_OFFSET m p p))
           (fun x => store diag (DATA_OFFSET diag p 0) x))
      diag).

Definition matrix_get_raw_row (cfg : build) (fresh : list Z) (m : matrix) (p : Z)
    : outcome (list Z) :=
  ASSERT_ROW_INDEX cfg m p (
    for_loop (seqZ 0 (max_col m))
      (fun q row =>
         outcome_bind (load m (DATA_OFFSET m p q)) (fun x => array_store row q x))
      (allocate fresh (max_col m) false)).

Definition matrix_get_raw_col (cfg : build) (fresh : list Z) (m : matrix) (q : Z)
    : outcome (list Z) :=
  ASSERT_COL_INDEX cfg m q (
    for_loop (seqZ 0 (max_row m))
      (fun p col =>
         outcome_bind (load m (DATA_OFFSET m p q)) (fun x => array_store col p x))
      (allocate fresh (max_row m) false)).

Definition matrix_cols (m : matrix) : Z := max_col m.

(** Comparisons of a [double] with [0.0], on its bit pattern: the sign is
    bit 63, both zeros compare equal to [0.0], and every comparison with a
    NaN is false but [!=]. *)
Definition double_is_zero (x : Z) : bool := x mod 2 ^ 63 =? 0.

Definition double_ne_zero (x : Z) : bool := negb (double_is_zero x).

Definition double_lt_zero (x : Z) : bool :=
  Z.testbit x 63 && negb (double_is_zero x) && negb (is_nan x).

Definition double_ge_zero (x : Z) : bool :=
  negb (is_nan x) && negb (double_lt_zero x).

(** [for (n = 0; n < n_max; ++n) if (test(m->data[n])) return true;
    return false;] on the indices [ns]. *)
Fixpoint any_element (test : Z -> bool) (m : matrix) (ns : list Z) : outcome bool :=
  match ns with
  | [] => Returns false
  | n :: ns' =>
      outcome_bind (load m n)
        (fun x => if test x then Returns true else any_element test m ns')
  end.

Definition matrix_is_null (m : matrix) : outcome bool :=
  let n_max := size_mul (max_row m) (max_col m) in
  outcome_bind (any_element double_ne_zero m (seqZ 0 n_max))
    (fun found => Returns (negb found)).

Definition matrix_is_positive (m : matrix) : outcome bool :=
  let n_max := size_mul (max_row m) (max_col m) in
  outcome_bind (any_element double_lt_zero m (seqZ 0 n_max))
    (fun found => Returns (negb found)).

Definition matrix_is_negative (m : matrix) : outcome bool :=
  let n_max := size_mul (max_row m) (max_col m) in
  outcome_bind (any_element double_ge_zero m (seqZ 0 n_max))
    (fun found => Returns (negb found)).

(** A matrix as [matrix_alloc] leaves it: [data] has [max_row*max_col]
    elements, a product that does not wrap around. *)
Definition wf_matrix (m : matrix) : Prop :=
  0 <= max_row m < SIZE_MODULUS /\ 0 <= max_col m < SIZE_MODULUS /\
  max_row m * max_col m < SIZE_MODULUS /\
  Z.of_nat (length (data m)) = max_row m * max_col m.

(** The element in row [p] and column [q] of the row-major array, and the
    row [p] and the column [q]. *)
Definition element (m : matrix) (p q : Z) : Z :=
  default 0 (data m !! Z.to_nat (p * max_col m + q)).

Definition row_of (m : matrix) (p : Z) : list Z :=
  element m p <$> seqZ 0 (max_col m).

Definition column_of (m : matrix) (q : Z) : list Z :=
  (fun p => element m p q) <$> seqZ 0 (max_row m).

(** *** Files

    A file is the sequence of its 8-byte words, a [size_t] or a [double]
    each; a file system gives the files that exist by name. *)
Abbreviation files := (gmap string (list Z)).

(** What [fopen] allows: [PRINT_ERROR("unable to open %s\n", filename)] and
    [exit(EXIT_FAILURE)] when it returns [NULL], and else the rest of the
    function. *)
Inductive opened (A : Type) : Type :=
| unable_to_open (filename : string)
| opened_then (o : outcome A).

Arguments unable_to_open {A} filename.
Arguments opened_then {A} o.

(** [fread(buffer, 8, count, input)]: the items read and the rest of the
    stream. *)
Definition fread (count : Z) (input : list Z) : list Z * list Z :=
  (take (Z.to_nat count) input, drop (Z.to_nat count) input).

(** [matrix_save]: the file system on return.  [writable] tells whether
    [fopen(filename, "wb")] succeeds; a write on the open stream is
    complete.  The [fwrite] of the elements reads [max_row*max_col] of
    them. *)
Definition matrix_save (writable : bool) (fs : files) (m : matrix)
    (filename : string) : opened files :=
  if writable then
    let n_max := size_mul (max_row m) (max_col m) in
    opened_then (
      if n_max <=? Z.of_nat (length (data m)) then
        Returns (<[filename :=
                     [max_row m; max_col m] ++ take (Z.to_nat n_max) (data m)]> fs)
      else Undefined)
  else unable_to_open filename.

(** [matrix_load]; [fopen(filename, "rb")] fails for a file that does not
    exist. *)
Definition matrix_load (magma : bool) (fresh : list Z) (fs : files)
    (filename : string) : opened matrix :=
  match fs !! filename with
  | None => unable_to_open filename
  | Some input =>
      opened_then (
        let '(item, input) := fread 1 input in
        ASSERT (Z.of_nat (length item) =? 1) (
        let max_row := default 0 (head item) in
        let '(item, input) := fread 1 input in
        ASSERT (Z.of_nat (length item) =? 1) (
        let max_col := default 0 (head item) in
        outcome_bind (matrix_alloc magma fresh max_row max_col false) (fun m =>
          let n_max := size_mul (Matrix.max_row m) (Matrix.max_col m) in
          let '(items, input) := fread n_max input in
          let m := with_data m (items ++ drop (length items) (data m)) in
          ASSERT (Z.of_nat (length items) =? n_max) (Returns m)))))
  end.

End Dense.

(** ** Allocation, assembly and eigenpairs of the handles *)

Module Lifecycle.

Import Matrix Petsc Handles Dense.

(** Modelled from the spec: the calls of the sparse backend, a library that
    is not part of the sources, that create and assemble matrices and
    vectors and return eigenpairs; each gives an error code and its
    results.  The ownership range of a matrix or a vector is what the
    backend says it is. *)
Record backend : Type := {
  MatCreateAIJ : Z -> Z -> Z -> Z -> Z * Mat;
  MatCreateSeqAIJ : Z -> Z -> Z -> Z * Mat;
  MatSetOption : Mat -> Z * Mat;
  MatGetOwnershipRange : Mat -> Z * (Z * Z);
  MatAssemblyBegin : Mat -> Z * Mat;
  MatAssemblyEnd : Mat -> Z * Mat;
  VecCreate : Z * Vec;
  VecSetSizes : Vec -> Z -> Z -> Z * Vec;
  VecGetOwnershipRange : Vec -> Z * (Z * Z);
  VecAssemblyBegin : Vec -> Z * Vec;
  VecAssemblyEnd : Vec -> Z * Vec;
  MatCreateVecs : Mat -> Z * Vec;
  VecGetSize : Vec -> Z * Z;
  EPSGetEigenpair : option EPS -> Z -> Vec -> Z * (Z * Vec)
}.

(** The fields of a handle that its build does not have. *)
Definition no_matrix : matrix := {| data := []; max_row := 0; max_col := 0; use_omp := 0 |}.

Definition no_vec : Vec := {| own_first := 0; own_last := 0; own_values := [] |}.

(** A backend for examples: every call succeeds, creates nothing and
    returns what it is given, and every ownership range is empty. *)
Definition idle_backend : backend :=
  {| MatCreateAIJ := fun _ _ _ _ => (0, ∅);
     MatCreateSeqAIJ := fun _ _ _ => (0, ∅);
     MatSetOption := fun A => (0, A);
     MatGetOwnershipRange := fun _ => (0, (0, 0));
     MatAssemblyBegin := fun A => (0, A);
     MatAssemblyEnd := fun A => (0, A);
     VecCreate := (0, no_vec);
     VecSetSizes := fun x _ _ => (0, x);
     VecGetOwnershipRange := fun _ => (0, (0, 0));
     VecAssemblyBegin := fun x => (0, x);
     VecAssemblyEnd := fun x => (0, x);
     MatCreateVecs := fun _ => (0, no_vec);
     VecGetSize := fun _ => (0, 0);
     EPSGetEigenpair := fun _ _ x => (0, (0, x)) |}.

(** [mpi_matrix_alloc]; [non_zeros] is the array of the two hints. *)
Definition mpi_matrix_alloc (cfg : build) (magma : bool) (B : backend)
    (g : mpi_globals) (fresh : list Z) (max_row max_col : Z)
    (non_zeros : list Z) : outcome mpi_matrix :=
  ASSERT (0 <? max_row) (ASSERT (0 <? max_col) (
    match non_zeros with
    | d_nz :: o_nz :: _ =>
        ASSERT (0 <=? d_nz) (ASSERT (0 <=? o_nz) (
          if USE_PETSC cfg then
            let created :=
              if 1 <? mpi_comm_size g then
                ("MatCreateAIJ()"%string,
                 MatCreateAIJ B (c_int max_row) (c_int max_col) d_nz o_nz)
              else
                ("MatCreateSeqAIJ()"%string,
                 MatCreateSeqAIJ B (c_int max_row) (c_int max_col) d_nz) in
            let '(name, (info, A)) := created in
            CHECK_PETSC_ERROR g name info true (
            let '(info, A) := MatSetOption B A in
            CHECK_PETSC_ERROR g "MatSetOption()" info true (
            let '(info, (first, last)) := MatGetOwnershipRange B A in
            CHECK_PETSC_ERROR g "MatGetOwnershipRange()" info true (
            Returns {| mat_data := A;
                       mat_max_row := c_int max_row; mat_max_col := c_int max_col;
                       mat_first := first; mat_last := last;
                       mat_solver := None;
                       dense_data := no_matrix; mat_eigenval := None |})))
          else
            outcome_bind (matrix_alloc magma fresh max_row max_col false) (fun d =>
              Returns {| mat_data := ∅; mat_max_row := 0; mat_max_col := 0;
                         mat_first := 0; mat_last := 0; mat_solver := None;
                         dense_data := d; mat_eigenval := None |})))
    | _ => Undefined
    end)).

(** [mpi_matrix_build]: the code that [MatAssemblyBegin] returns is
    overwritten by that of [MatAssemblyEnd] before it is looked at. *)
Definition mpi_matrix_build (cfg : build) (B : backend) (g : mpi_globals)
    (m : mpi_matrix) : outcome mpi_matrix :=
  if USE_PETSC cfg then
    let '(info, A) := MatAssemblyBegin B (mat_data m) in
    let '(info, A) := MatAssemblyEnd B A in
    CHECK_PETSC_ERROR g "MatAssemblyEnd()" info true (Returns (with_mat_data m A))
  else Returns m.

(** [mpi_vector_alloc] *)
Definition mpi_vector_alloc (cfg : build) (B : backend) (g : mpi_globals)
    (fresh : list Z) (length : Z) : outcome mpi_vector :=
  ASSERT (0 <? length) (
    if USE_PETSC cfg then
      let '(info, x) := VecCreate B in
      CHECK_PETSC_ERROR g "VecCreate()" info true (
      let '(info, x) := VecSetSizes B x PETSC_DECIDE length in
      CHECK_PETSC_ERROR g "VecSetSizes()" info true (
      let '(info, (first, last)) := VecGetOwnershipRange B x in
      CHECK_PETSC_ERROR g "VecGetOwnershipRange()" info true (
      Returns {| vec_data := x; raw_data := []; vec_length := length;
                 vec_first := first; vec_last := last |})))
    else
      Returns {| vec_data := no_vec; raw_data := allocate fresh length false;
                 vec_length := length; vec_first := 0; vec_last := 0 |}).

Definition with_vec_data (v : mpi_vector) (x : Vec) : mpi_vector :=
  {| vec_data := x; raw_data := raw_data v; vec_length := vec_length v;
     vec_first := vec_first v; vec_last := vec_last v |}.

(** [mpi_vector_build] *)
Definition mpi_vector_build (cfg : build) (B : backend) (g : mpi_globals)
    (v : mpi_vector) : outcome mpi_vector :=
  if USE_PETSC cfg then
    let '(info, x) := VecAssemblyBegin B (vec_data v) in
    let '(info, x) := VecAssemblyEnd B x in
    CHECK_PETSC_ERROR g "VecAssemblyEnd()" info true (Returns (with_vec_data v x))
  else Returns v.

(** [mpi_matrix_eigenpair]: the vector returned and the value stored in
    [*eigenval]. *)
Definition mpi_matrix_eigenpair (cfg : build) (magma : bool) (B : backend)
    (g : mpi_globals) (fresh : list Z) (m : mpi_matrix) (n : Z)
    : outcome (mpi_vector * Z) :=
  Handles.ASSERT_COL_INDEX cfg m n (
    if USE_PETSC cfg && USE_SLEPC cfg then
      let '(info, x) := MatCreateVecs B (mat_data m) in
      CHECK_PETSC_ERROR g "MatCreateVecs()" info true (
      let '(info, length) := VecGetSize B x in
      CHECK_PETSC_ERROR g "VecGetSize()" info true (
      let '(info, (first, last)) := VecGetOwnershipRange B x in
      CHECK_PETSC_ERROR g "VecGetOwnershipRange()" info true (
      let '(info, (eigenval, x)) := EPSGetEigenpair B (mat_solver m) n x in
      CHECK_PETSC_ERROR g "EPSGetEigenpair()" info true (
      Returns ({| vec_data := x; raw_data := []; vec_length := length;
                  vec_first := first; vec_last := last |}, eigenval)))))
    else
      match mat_eigenval m with
      | None => Halts assertion_failed
      | Some values =>
          if n <? 0 then Undefined else
          outcome_bind (array_load values n) (fun eigenval =>
          outcome_bind
            (if matrix_using_magma magma
             then matrix_get_raw_row cfg fresh (dense_data m) (size_wrap n)
             else matrix_get_raw_col cfg fresh (dense_data m) (size_wrap n))
            (fun column =>
               Returns ({| vec_data := no_vec; raw_data := column;
                           vec_length := c_int (matrix_rows (dense_data m));
                           vec_first := 0; vec_last := 0 |}, eigenval)))
      end).

(** Every process of [ranks] runs [f] on its own handle of a shared
    matrix. *)
Fixpoint on_ranks (ranks : list Z) (f : Z -> mpi_matrix -> outcome mpi_matrix)
    (handles : list mpi_matrix) : outcome (list mpi_matrix) :=
  match ranks with
  | [] => Returns handles
  | r :: ranks' => outcome_bind (on_rank r (f r) handles) (on_ranks ranks' f)
  end.

(** Process [r] out of [size] calls [mpi_matrix_set(m, p, q, x)] on its
    handle [m]. *)
Definition set_on_rank (cfg : build) (size p q x : Z) (r : Z) (m : mpi_matrix)
    : outcome mpi_matrix :=
  mpi_matrix_set cfg (process size r) m p q x.

(** The handles of a matrix of [rows] by [cols] that the [size] processes
    of a communicator hold, process [r] owning the rows
    [[bound r, bound (r + 1))]. *)
Definition shared_matrix (size rows cols : Z) (bound : Z -> Z)
    (handles : list mpi_matrix) : Prop :=
  forall r, 0 <= r < size ->
    exists m, handles !! Z.to_nat r = Some m /\
      mat_max_row m = rows /\ mat_max_col m = cols /\
      mat_first m = bound r /\ mat_last m = bound (r + 1).

End Lifecycle.

(** ** Vectors split into consecutive ranges *)

Module Layout.

Import Handles Gather.

(** The handles of a vector of [elements] of which process [r] owns the
    indices [[bound r, bound (r + 1))], as the backend splits a vector
    between the [size] processes of a communicator. *)
Definition split_at (elements : list Z) (bound : Z -> Z) (r : Z) : mpi_vector :=
  vector_handle elements (bound r) (bound (r + 1)).

Definition consecutive (size : Z) (bound : Z -> Z) (length : Z) : Prop :=
  bound 0 = 0 /\ bound size = length /\
  forall r, 0 <= r < size -> bound r <= bound (r + 1).

End Layout.

(** * Properties *)

(** ** Arithmetic of [size_t] *)

Lemma SIZE_MODULUS_pos : 0 < SIZE_MODULUS.
Proof. reflexivity. Qed.

Lemma size_wrap_small x : is_size_t x -> size_wrap x = x.
Proof. intros H. apply Z.mod_small. exact H. Qed.

Lemma size_wrap_range x : is_size_t (size_wrap x).
Proof. apply Z.mod_pos_bound, SIZE_MODULUS_pos. Qed.

Lemma size_wrap_add_l a b : size_wrap (size_wrap a + b) = size_wrap (a + b).
Proof. apply Zplus_mod_idemp_l. Qed.

Lemma size_wrap_add_r a b : size_wrap (a + size_wrap b) = size_wrap (a + b).
Proof. apply Zplus_mod_idemp_r. Qed.

Lemma size_wrap_sub_l a b : size_wrap (size_wrap a - b) = size_wrap (a - b).
Proof. apply Zminus_mod_idemp_l. Qed.

Lemma size_wrap_sub_r a b : size_wrap (a - size_wrap b) = size_wrap (a - b).
Proof. apply Zminus_mod_idemp_r. Qed.

Lemma size_wrap_mul_l a b : size_wrap (size_wrap a * b) = size_wrap (a * b).
Proof. apply Zmult_mod_idemp_l. Qed.

Lemma size_wrap_mul_r a b : size_wrap (a * size_wrap b) = size_wrap (a * b).
Proof. apply Zmult_mod_idemp_r. Qed.

(** Push every intermediate wrap-around of a [size_t] expression to the
    outside. *)
Ltac size_norm :=
  unfold size_add, size_sub, size_mul, size_div;
  repeat first
    [ rewrite size_wrap_add_l | rewrite size_wrap_add_r
    | rewrite size_wrap_sub_l | rewrite size_wrap_sub_r
    | rewrite size_wrap_mul_l | rewrite size_wrap_mul_r ].

(** ** Task partitioner *)

Section TaskFacts.

Import Tasks.

Variables size max_task : Z.
Hypothesis size_ok : 1 <= size < SIZE_MODULUS.
Hypothesis max_task_ok : 0 < max_task < SIZE_MODULUS.

Lemma chunk_bounds :
  0 <= max_task / size /\
  size * (max_task / size) <= max_task < size * (max_task / size) + size.
Proof.
  pose proof (Z.div_mod max_task size ltac:(lia)) as E.
  pose proof (Z.mod_pos_bound max_task size ltac:(lia)) as B.
  split; [apply Z.div_pos; lia | lia].
Qed.

Lemma remainder_eq : max_task - size * (max_task / size) = max_task mod size.
Proof. pose proof (Z.div_mod max_task size ltac:(lia)). lia. Qed.

(** What [mpi_set_tasks] leaves in the statics of process [r]. *)
Lemma mpi_set_tasks_process r :
  exists g, mpi_set_tasks (process size r) max_task = Returns g /\
    this_rank g = r /\ comm_size g = size /\
    chunk_size g = max_task / size /\ tasks g = max_task /\
    extra_tasks g = max_task mod size /\
    last_rank_index g = size_wrap (size * (max_task / size) - 1).
Proof.
  unfold mpi_set_tasks, process, ASSERT. simpl.
  destruct (Z.ltb_spec 0 max_task) as [_|]; [|lia].
  pose proof chunk_bounds as [Hc Hb].
  eexists. split; [reflexivity|]. simpl.
  assert (L : size_add (size_mul (size_sub size 1) (size_div max_task size))
                (size_sub (size_div max_task size) 1)
              = size_wrap (size * (max_task / size) - 1)).
  { size_norm. rewrite (size_wrap_small (size - 1)) by (unfold is_size_t; lia).
    f_equal. ring. }
  rewrite L. repeat split.
  size_norm.
  replace (max_task - 1 - (size * (max_task / size) - 1))
    with (max_task - size * (max_task / size)) by ring.
  rewrite remainder_eq. apply size_wrap_small.
  pose proof (Z.mod_pos_bound max_task size ltac:(lia)). unfold is_size_t. lia.
Qed.

Lemma extra_task_index_process r g :
  mpi_set_tasks (process size r) max_task = Returns g ->
  extra_task_index g =
    if 0 <? max_task mod size
    then size_wrap (size * (max_task / size) + r) else 0.
Proof.
  intros Hg. destruct (mpi_set_tasks_process r) as (g' & Hg' & Hr & _ & _ & _ & He & Hl).
  rewrite Hg in Hg'. injection Hg' as <-.
  unfold extra_task_index. rewrite He, Hl, Hr.
  destruct (0 <? max_task mod size); [|reflexivity].
  size_norm. rewrite <- Z.add_assoc, size_wrap_add_l. f_equal. ring.
Qed.

(** Without wrap-around the extra index of rank [r] is [size*chunk + r]. *)
Lemma extra_task_index_fits r g :
  extra_index_fits size max_task -> 0 <= r < size ->
  mpi_set_tasks (process size r) max_task = Returns g ->
  extra_task_index g =
    if 0 <? max_task mod size then size * (max_task / size) + r else 0.
Proof.
  intros Hfit Hr Hg. rewrite (extra_task_index_process r g Hg).
  destruct (Z.ltb_spec 0 (max_task mod size)) as [Hpos|]; [|reflexivity].
  pose proof chunk_bounds as [Hc Hb].
  apply size_wrap_small. unfold is_size_t.
  destruct Hfit as [H0|Hfit]; [lia|]. nia.
Qed.

Lemma has_extra_task_fits r g :
  extra_index_fits size max_task -> 0 <= r < size ->
  mpi_set_tasks (process size r) max_task = Returns g ->
  has_extra_task g = true <-> r < max_task mod size.
Proof.
  intros Hfit Hr Hg. unfold has_extra_task.
  rewrite (extra_task_index_fits r g Hfit Hr Hg).
  destruct (mpi_set_tasks_process r) as (g' & Hg' & _ & _ & _ & Ht & He & _).
  rewrite Hg in Hg'. injection Hg' as <-. rewrite He, Ht.
  pose proof remainder_eq as Hrem.
  destruct (Z.ltb_spec 0 (max_task mod size)); simpl.
  - rewrite Z.ltb_lt. lia.
  - split; [discriminate | lia].
Qed.

Lemma mpi_extra_task_fits r g :
  extra_index_fits size max_task -> 0 <= r < size ->
  mpi_set_tasks (process size r) max_task = Returns g ->
  mpi_extra_task g =
    if has_extra_task g then size * (max_task / size) + r else 0.
Proof.
  intros Hfit Hr Hg. unfold mpi_extra_task, has_extra_task.
  rewrite (extra_task_index_fits r g Hfit Hr Hg).
  destruct (mpi_set_tasks_process r) as (g' & Hg' & _ & _ & _ & Ht & He & _).
  rewrite Hg in Hg'. injection Hg' as <-. rewrite He, Ht.
  destruct (0 <? max_task mod size); simpl.
  - destruct (_ <? max_task); reflexivity.
  - destruct (0 <? max_task); reflexivity.
Qed.

Lemma in_main_chunk_process r g t :
  mpi_set_tasks (process size r) max_task = Returns g ->
  in_main_chunk g t <->
  r * (max_task / size) <= t < (r + 1) * (max_task / size).
Proof.
  intros Hg. destruct (mpi_set_tasks_process r) as (g' & Hg' & Hr & _ & Hc & _).
  rewrite Hg in Hg'. injection Hg' as <-.
  unfold in_main_chunk. rewrite Hr, Hc. reflexivity.
Qed.

(** The accessors of the main chunk: the first index always, the last one
    when the chunk is not empty. *)
Lemma main_chunk_accessors r g :
  0 <= r < size ->
  mpi_set_tasks (process size r) max_task = Returns g ->
  mpi_first_task g = r * (max_task / size) /\
  (size <= max_task -> mpi_last_task g = (r + 1) * (max_task / size) - 1).
Proof.
  intros Hr Hg. destruct (mpi_set_tasks_process r) as (g' & Hg' & Hr' & _ & Hc & _).
  rewrite Hg in Hg'. injection Hg' as <-.
  pose proof chunk_bounds as [Hc0 Hb].
  unfold mpi_first_task, mpi_last_task. rewrite Hr', Hc. split.
  - size_norm. apply size_wrap_small. unfold is_size_t. nia.
  - intros Hle. size_norm.
    assert (1 <= max_task / size) by (apply Z.div_le_lower_bound; lia).
    replace (r * (max_task / size) + (max_task / size - 1))
      with ((r + 1) * (max_task / size) - 1) by ring.
    apply size_wrap_small. unfold is_size_t. nia.
Qed.

End TaskFacts.

Import Tasks.

(** C1 (amended): for every [max_task > 0] and communicator size [>= 1]
    such that [last_rank_index + rank + 1] does not wrap around for any rank
    (or there is no extra task at all), after [mpi_set_tasks(max_task)] the
    main chunks [[rank*chunk_size, (rank+1)*chunk_size)] together with the
    extra tasks handed out by [mpi_extra_task] cover exactly
    [{0, ..., max_task-1}], and every index has exactly one owner.  The
    lower bound of a main chunk is [mpi_first_task()]; its upper bound is
    [mpi_last_task() + 1] whenever [size <= max_task]. *)
Theorem tasks_partition_exact (size max_task : Z) :
  1 <= size < SIZE_MODULUS ->
  0 < max_task < SIZE_MODULUS ->
  extra_index_fits size max_task ->
  exact_partition size max_task /\
  (forall r g, 0 <= r < size ->
     mpi_set_tasks (process size r) max_task = Returns g ->
     mpi_first_task g = r * chunk_size g /\
     (size <= max_task -> mpi_last_task g = (r + 1) * chunk_size g - 1)).
Proof.
  intros Hs Hm Hfit.
  pose proof (chunk_bounds size max_task Hs Hm) as [Hc Hb].
  pose proof (remainder_eq size max_task Hs) as Hrem.
  assert (Hown : forall r t, 0 <= r < size ->
            (rank_owns size max_task r t <->
             r * (max_task / size) <= t < (r + 1) * (max_task / size) \/
             (r < max_task mod size /\ t = size * (max_task / size) + r))).
  { intros r t Hr. unfold rank_owns.
    destruct (mpi_set_tasks_process size max_task Hs Hm r) as (g & Hg & _).
    rewrite Hg. unfold owns.
    rewrite (in_main_chunk_process size max_task Hs Hm r g t Hg).
    rewrite (has_extra_task_fits size max_task Hs Hm r g Hfit Hr Hg).
    rewrite (mpi_extra_task_fits size max_task Hs Hm r g Hfit Hr Hg).
    split; (intros [H|[H1 H2]]; [left; exact H | right]).
    - split; [exact H1|].
      apply (has_extra_task_fits size max_task Hs Hm r g Hfit Hr Hg) in H1.
      rewrite H1 in H2. exact H2.
    - split; [exact H1|].
      apply (has_extra_task_fits size max_task Hs Hm r g Hfit Hr Hg) in H1.
      rewrite H1. exact H2. }
  split; [repeat split|].
  - intros t Ht.
    destruct (Z_lt_le_dec t (size * (max_task / size))) as [Hlt|Hge].
    + assert (0 < max_task / size) by nia.
      exists (t / (max_task / size)).
      pose proof (Z.div_mod t (max_task / size) ltac:(lia)) as E.
      pose proof (Z.mod_pos_bound t (max_task / size) ltac:(lia)) as B.
      assert (0 <= t / (max_task / size) < size).
      { split; [apply Z.div_pos; lia|]. apply Z.div_lt_upper_bound; lia. }
      split; [assumption|]. apply Hown; [assumption|]. left. nia.
    + exists (t - size * (max_task / size)).
      assert (0 <= t - size * (max_task / size) < size) by lia.
      split; [assumption|]. apply Hown; [assumption|]. right. lia.
  - apply Hown in H0; [|assumption]. destruct H0 as [H0|[H0 ->]]; nia.
  - apply Hown in H0; [|assumption]. destruct H0 as [H0|[H0 ->]]; nia.
  - intros r1 r2 t H1 H2 O1 O2.
    apply Hown in O1; [|assumption]. apply Hown in O2; [|assumption].
    destruct O1 as [O1|[O1 E1]], O2 as [O2|[O2 E2]]; nia.
  - intros r g Hr Hg Hex Hin.
    apply (in_main_chunk_process size max_task Hs Hm r g _ Hg) in Hin.
    rewrite (mpi_extra_task_fits size max_task Hs Hm r g Hfit Hr Hg), Hex in Hin.
    nia.
  - intros r g Hr Hg.
    destruct (mpi_set_tasks_process size max_task Hs Hm r) as (g' & Hg' & _ & _ & Hcs & _).
    rewrite Hg in Hg'. injection Hg' as <-. rewrite Hcs.
    apply (main_chunk_accessors size max_task Hs Hm r g Hr Hg).
Qed.

Lemma tasks_partition_exact_witness :
  exact_partition 4 10 /\
  (forall r g, 0 <= r < 4 ->
     mpi_set_tasks (process 4 r) 10 = Returns g ->
     mpi_first_task g = r * chunk_size g /\
     (4 <= 10 -> mpi_last_task g = (r + 1) * chunk_size g - 1)).
Proof.
  apply (tasks_partition_exact 4 10).
  - unfold SIZE_MODULUS. lia.
  - unfold SIZE_MODULUS. lia.
  - right. vm_compute. discriminate.
Defined.

(** C1 fails as stated: with 7 processes and [2^64 - 1] tasks the extra
    index of rank 3 wraps around to 1, a task of rank 0's main chunk. *)
Lemma tasks_partition_wraps : ~ exact_partition 7 (2 ^ 64 - 1).
Proof.
  intros (_ & _ & H & _).
  assert (0 = 3) as E; [|discriminate E].
  apply (H 0 3 1); clear H; [lia | lia | |].
  - left. vm_compute. split; [discriminate | reflexivity].
  - right. vm_compute. split; reflexivity.
Qed.

Lemma size_wrap_inj_offset a r1 r2 :
  0 <= r1 < SIZE_MODULUS -> 0 <= r2 < SIZE_MODULUS ->
  size_wrap (a + r1) = size_wrap (a + r2) -> r1 = r2.
Proof.
  unfold size_wrap. intros H1 H2 E.
  pose proof SIZE_MODULUS_pos as HM.
  pose proof (Z.div_mod (a + r1) SIZE_MODULUS ltac:(lia)) as E1.
  pose proof (Z.div_mod (a + r2) SIZE_MODULUS ltac:(lia)) as E2.
  rewrite E in E1.
  assert ((a + r1) / SIZE_MODULUS = (a + r2) / SIZE_MODULUS) by nia.
  lia.
Qed.

(** C3 (amended): [mpi_extra_task()] returns [last_rank_index + rank + 1]
    (in [size_t] arithmetic) exactly when [extra_tasks > 0] and that index
    is below [max_task], and the sentinel 0 otherwise; no two ranks are
    handed the same extra index; and, provided [last_rank_index + rank + 1]
    does not wrap around for any rank, the ranks that get an extra task are
    exactly those with [rank < extra_tasks].  For 4 processes and 10 tasks:
    chunk size 2, main chunks [0..1], [2..3], [4..5], [6..7], last main index
    7, two extra tasks, 8 for rank 0 and 9 for rank 1, none for ranks 2, 3. *)
Theorem extra_task_assignment :
  (forall size max_task,
     1 <= size < SIZE_MODULUS -> 0 < max_task < SIZE_MODULUS ->
     (forall r g, 0 <= r < size ->
        mpi_set_tasks (process size r) max_task = Returns g ->
        let index := size_add (size_add (last_rank_index g) r) 1 in
        mpi_extra_task g =
          if (0 <? extra_tasks g) && (index <? max_task) then index else 0) /\
     (forall r1 r2 g1 g2, 0 <= r1 < size -> 0 <= r2 < size ->
        mpi_set_tasks (process size r1) max_task = Returns g1 ->
        mpi_set_tasks (process size r2) max_task = Returns g2 ->
        has_extra_task g1 = true -> has_extra_task g2 = true ->
        mpi_extra_task g1 = mpi_extra_task g2 -> r1 = r2) /\
     (extra_index_fits size max_task -> extra_only_low_ranks size max_task)) /\
  (fun r =>
     outcome_bind (mpi_set_tasks (process 4 r) 10)
       (fun g => Returns (chunk_size g, last_rank_index g, extra_tasks g,
                          mpi_first_task g, mpi_last_task g,
                          has_extra_task g, mpi_extra_task g)))
    <$> [0; 1; 2; 3]
  = [Returns (2, 7, 2, 0, 1, true, 8); Returns (2, 7, 2, 2, 3, true, 9);
     Returns (2, 7, 2, 4, 5, false, 0); Returns (2, 7, 2, 6, 7, false, 0)].
Proof.
  split; [|vm_compute; reflexivity].
  intros size max_task Hs Hm. split; [|split].
  - intros r g Hr Hg index.
    destruct (mpi_set_tasks_process size max_task Hs Hm r)
      as (g' & Hg' & Hrk & _ & _ & Ht & _).
    rewrite Hg in Hg'. injection Hg' as <-.
    unfold mpi_extra_task, extra_task_index. rewrite Hrk, Ht. fold index.
    destruct (0 <? extra_tasks g); simpl; [reflexivity|].
    destruct (0 <? max_task); reflexivity.
  - intros r1 r2 g1 g2 Hr1 Hr2 Hg1 Hg2 He1 He2 Heq.
    unfold mpi_extra_task, has_extra_task in *.
    apply andb_true_iff in He1 as [Hpos He1].
    apply andb_true_iff in He2 as [_ He2].
    rewrite He1, He2 in Heq.
    rewrite (extra_task_index_process size max_task Hs Hm r1 g1 Hg1) in Heq.
    rewrite (extra_task_index_process size max_task Hs Hm r2 g2 Hg2) in Heq.
    destruct (mpi_set_tasks_process size max_task Hs Hm r1)
      as (g' & Hg' & _ & _ & _ & _ & Hex & _).
    rewrite Hg1 in Hg'. injection Hg' as <-.
    rewrite Hex in Hpos. rewrite Hpos in Heq.
    apply size_wrap_inj_offset in Heq; [assumption | lia | lia].
  - intros Hfit r g Hr Hg.
    rewrite (has_extra_task_fits size max_task Hs Hm r g Hfit Hr Hg).
    destruct (mpi_set_tasks_process size max_task Hs Hm r)
      as (g' & Hg' & _ & _ & _ & _ & He & _).
    rewrite Hg in Hg'. injection Hg' as <-. rewrite He. reflexivity.
Qed.

Lemma extra_task_assignment_witness :
  (forall r g, 0 <= r < 3 ->
     mpi_set_tasks (process 3 r) 11 = Returns g ->
     let index := size_add (size_add (last_rank_index g) r) 1 in
     mpi_extra_task g =
       if (0 <? extra_tasks g) && (index <? 11) then index else 0) /\
  (forall r1 r2 g1 g2, 0 <= r1 < 3 -> 0 <= r2 < 3 ->
     mpi_set_tasks (process 3 r1) 11 = Returns g1 ->
     mpi_set_tasks (process 3 r2) 11 = Returns g2 ->
     has_extra_task g1 = true -> has_extra_task g2 = true ->
     mpi_extra_task g1 = mpi_extra_task g2 -> r1 = r2) /\
  (extra_index_fits 3 11 -> extra_only_low_ranks 3 11).
Proof.
  apply (proj1 extra_task_assignment 3 11).
  - unfold SIZE_MODULUS. lia.
  - unfold SIZE_MODULUS. lia.
Defined.

(** C3 fails as stated: with 7 processes and [2^64 - 1] tasks there is one
    extra task, yet rank 3 is handed index 1 by [mpi_extra_task()]. *)
Lemma extra_task_beyond_pool : ~ extra_only_low_ranks 7 (2 ^ 64 - 1).
Proof.
  intros H.
  destruct (mpi_set_tasks (process 7 3) (2 ^ 64 - 1)) as [g|h| | |] eqn:Hg;
    try (vm_compute in Hg; discriminate Hg).
  pose proof (proj1 (H 3 g ltac:(lia) Hg)) as Hlt. clear H.
  vm_compute in Hg. injection Hg as <-.
  specialize (Hlt eq_refl). vm_compute in Hlt. discriminate Hlt.
Qed.

(** C10: with fewer tasks than processes the [size_t] arithmetic of
    [mpi_set_tasks] wraps around: the chunk size is 0, [last_rank_index] is
    [2^64 - 1] and [extra_tasks] is [max_task]; [mpi_first_task()] is 0 and
    [mpi_last_task()] is [2^64 - 1] on every rank, and [mpi_extra_task()]
    is the caller's own rank when that is below [max_task], else 0. *)
Theorem set_tasks_fewer_tasks_than_ranks (size max_task r : Z) :
  0 < max_task < size -> size < SIZE_MODULUS -> 0 <= r < size ->
  exists g, mpi_set_tasks (process size r) max_task = Returns g /\
    chunk_size g = 0 /\
    last_rank_index g = 2 ^ 64 - 1 /\
    extra_tasks g = max_task /\
    mpi_first_task g = 0 /\
    mpi_last_task g = 2 ^ 64 - 1 /\
    mpi_extra_task g = if r <? max_task then r else 0.
Proof.
  intros Hm Hs Hr.
  destruct (mpi_set_tasks_process size max_task ltac:(lia) ltac:(lia) r)
    as (g & Hg & Hrk & _ & Hc & Ht & He & Hl).
  rewrite (Z.div_small max_task size) in * by lia.
  rewrite (Z.mod_small max_task size) in * by lia.
  replace (size * 0 - 1) with (-1) in Hl by lia.
  exists g. split; [exact Hg|].
  assert (Hlast : last_rank_index g = 2 ^ 64 - 1) by (rewrite Hl; reflexivity).
  repeat split; try assumption.
  - unfold mpi_first_task, size_mul. rewrite Hrk, Hc, Z.mul_0_r. reflexivity.
  - unfold mpi_last_task, size_mul. rewrite Hrk, Hc, Z.mul_0_r. reflexivity.
  - unfold mpi_extra_task, extra_task_index. rewrite He, Ht, Hrk, Hlast.
    destruct (Z.ltb_spec 0 max_task); [|lia].
    size_norm.
    replace (2 ^ 64 - 1 + r + 1) with (r + 1 * SIZE_MODULUS)
      by (unfold SIZE_MODULUS; lia).
    unfold size_wrap. rewrite Z.mod_add by (unfold SIZE_MODULUS; lia).
    rewrite Z.mod_small by lia. reflexivity.
Qed.

Lemma set_tasks_fewer_tasks_than_ranks_witness :
  exists g, mpi_set_tasks (process 4 1) 2 = Returns g /\
    chunk_size g = 0 /\
    last_rank_index g = 2 ^ 64 - 1 /\
    extra_tasks g = 2 /\
    mpi_first_task g = 0 /\
    mpi_last_task g = 2 ^ 64 - 1 /\
    mpi_extra_task g = if 1 <? 2 then 1 else 0.
Proof.
  apply (set_tasks_fewer_tasks_than_ranks 4 2 1).
  - lia.
  - reflexivity.
  - lia.
Defined.

(** ** Typed messaging protocol *)

Import Msg.

Lemma channel_insert_eq (net : network) (s d t : Z) (q : list message) :
  channel (<[(s, d, t) := q]> net) s d t = q.
Proof. unfold channel. apply fn_lookup_insert. Qed.

Lemma channel_insert_ne (net : network) (k : Z * Z * Z) (s d t : Z) (q : list message) :
  k <> (s, d, t) -> channel (<[k := q]> net) s d t = channel net s d t.
Proof. intros H. unfold channel. apply fn_lookup_insert_ne. exact H. Qed.

Lemma bind_returns {A B : Type} (m : comm A) (f : A -> comm B) net net' a :
  m net = (net', Returns a) -> (m ≫= f) net = f a net'.
Proof. intros H. unfold mbind, comm_bind, bind. rewrite H. reflexivity. Qed.

Lemma bind_halts {A B : Type} (m : comm A) (f : A -> comm B) net net' h :
  m net = (net', Halts h) -> (m ≫= f) net = (net', Halts h).
Proof. intros H. unfold mbind, comm_bind, bind. rewrite H. reflexivity. Qed.

Lemma assert_true net : assert true net = (net, Returns tt).
Proof. reflexivity. Qed.

Lemma supported_type_false type :
  supported_type type = false ->
  (type =? "i")%char = false /\ (type =? "c")%char = false /\
  (type =? "f")%char = false /\ (type =? "d")%char = false.
Proof.
  unfold supported_type. intros H.
  repeat (apply orb_false_iff in H as [H ?]). auto.
Qed.

(** The header of a message as [mpi_send] puts it on the control channel. *)
Lemma send_header self n dest net :
  MPI_Send self (size_t_words n) 1 MPI_UNSIGNED dest 666 net =
  (<[(self, dest, 666) :=
       channel net self dest 666 ++
       [{| msg_type := MPI_UNSIGNED; msg_data := [n mod UINT_MODULUS] |}]]> net,
   Returns tt).
Proof. reflexivity. Qed.

(** Receiving one [unsigned] into a zeroed [size_t]. *)
Lemma recv_header self source net msg rest :
  channel net source self 666 = msg :: rest ->
  exists words,
    MPI_Recv self (size_t_words 0) 1 MPI_UNSIGNED source 666 net =
      (<[(source, self, 666) :=
           match drop 1 (msg_data msg) with
           | [] => rest
           | _ => {| msg_type := msg_type msg; msg_data := drop 1 (msg_data msg) |} :: rest
           end]> net, Returns words) /\
    words = take 1 (msg_data msg) ++ drop (length (take 1 (msg_data msg))) (size_t_words 0).
Proof.
  intros H. unfold MPI_Recv. rewrite H. simpl Z.to_nat.
  eexists. split; [|reflexivity].
  change (1 <? 0) with false. cbv iota.
  destruct (msg_data msg) as [|w [|w' ws]]; reflexivity.
Qed.

(** C9 (amended): a call of [mpi_send] or [mpi_receive] that satisfies the
    assertions of the function and whose type is none of ['i'], ['c'],
    ['f'], ['d'] reports "invalid type" and exits with a failure status in
    a build with the substrate, [mpi_send] always and [mpi_receive] once the
    header it first waits for is there (with no header it blocks); in a
    build without the substrate both functions have no body and the same
    call returns normally.  With a type of that set neither function takes
    the fatal branch, in any build. *)
Theorem unsupported_type_is_fatal
    (cfg : build) (g : mpi_globals) (peer n : Z) (type : ascii)
    (data : list Z) (net : network) :
  0 < n -> peer < comm_size g ->
  (supported_type type = false ->
     (USE_MPI cfg = true ->
        (exists net', mpi_send cfg g peer n type data net =
                        (net', Halts (exit_failure (invalid_type type)))) /\
        (channel net peer (this_rank g) 666 <> [] ->
         exists net', mpi_receive cfg g peer n type data net =
                        (net', Halts (exit_failure (invalid_type type)))) /\
        (channel net peer (this_rank g) 666 = [] ->
         mpi_receive cfg g peer n type data net = (net, Blocks))) /\
     (USE_MPI cfg = false ->
        mpi_send cfg g peer n type data net = (net, Returns tt) /\
        mpi_receive cfg g peer n type data net = (net, Returns data))) /\
  (supported_type type = true ->
     (forall net' d, mpi_send cfg g peer n type data net <>
                       (net', Halts (exit_failure d))) /\
     (forall net' d, mpi_receive cfg g peer n type data net <>
                       (net', Halts (exit_failure d)))).
Proof.
  intros Hn Hpeer.
  assert (Hn' : (0 <? n) = true) by (apply Z.ltb_lt; exact Hn).
  assert (Hp' : (peer <? comm_size g) = true) by (apply Z.ltb_lt; exact Hpeer).
  assert (Hoff : USE_MPI cfg = false ->
            mpi_send cfg g peer n type data net = (net, Returns tt) /\
            mpi_receive cfg g peer n type data net = (net, Returns data)).
  { intros Hmpi. unfold mpi_send, mpi_receive, ASSERT_RANK.
    rewrite Hn', Hp', Hmpi. split; reflexivity. }
  split.
  - intros Hty. destruct (supported_type_false type Hty) as (Hi & Hc & Hf & Hd).
    split; [|exact Hoff].
    intros Hmpi. split; [|split].
    + unfold mpi_send, ASSERT_RANK. rewrite Hn', Hp', Hmpi, Hi, Hc, Hf, Hd.
      rewrite (bind_returns _ _ net net tt (assert_true net)).
      rewrite (bind_returns _ _ net net tt (assert_true net)).
      rewrite (bind_returns _ _ _ _ tt (send_header _ _ _ _)).
      eexists. reflexivity.
    + intros Hq. unfold mpi_receive, ASSERT_RANK. rewrite Hn', Hp', Hmpi, Hi, Hc, Hf, Hd.
      rewrite (bind_returns _ _ net net tt (assert_true net)).
      rewrite (bind_returns _ _ net net tt (assert_true net)).
      destruct (channel net peer (this_rank g) 666) as [|msg rest] eqn:Hch; [congruence|].
      destruct (recv_header _ _ _ _ _ Hch) as (words & Hrecv & _).
      rewrite (bind_returns _ _ _ _ words Hrecv).
      eexists. reflexivity.
    + intros Hq. unfold mpi_receive, ASSERT_RANK. rewrite Hn', Hp', Hmpi.
      rewrite (bind_returns _ _ net net tt (assert_true net)).
      rewrite (bind_returns _ _ net net tt (assert_true net)).
      unfold mbind, comm_bind, bind, MPI_Recv.
      change (1 <? 0) with false. cbv iota. rewrite Hq. reflexivity.
  - intros Hty.
    destruct (USE_MPI cfg) eqn:Hmpi;
      [|destruct (Hoff eq_refl) as [Es Er]; rewrite Es, Er;
        split; intros net' d E; discriminate E].
    split; intros net' d.
    + unfold mpi_send, ASSERT_RANK. rewrite Hn', Hp', Hmpi.
      rewrite (bind_returns _ _ net net tt (assert_true net)).
      rewrite (bind_returns _ _ net net tt (assert_true net)).
      rewrite (bind_returns _ _ _ _ tt (send_header _ _ _ _)).
      unfold supported_type in Hty.
      destruct (type =? "i")%char; [|destruct (type =? "c")%char;
        [|destruct (type =? "f")%char; [|destruct (type =? "d")%char; [|discriminate Hty]]]];
      unfold MPI_Send;
      destruct (c_int n <? 0); try (intros E; discriminate E);
      destruct (Z.of_nat (length data) <? c_int n); intros E; discriminate E.
    + unfold mpi_receive, ASSERT_RANK. rewrite Hn', Hp', Hmpi.
      rewrite (bind_returns _ _ net net tt (assert_true net)).
      rewrite (bind_returns _ _ net net tt (assert_true net)).
      unfold mbind, comm_bind, bind.
      destruct (MPI_Recv (this_rank g) (size_t_words 0) 1 MPI_UNSIGNED peer 666 net)
        as [net1 [words|h| | |]] eqn:Hrecv; try (intros E; discriminate E).
      * unfold supported_type in Hty.
        destruct (type =? "i")%char; [|destruct (type =? "c")%char;
          [|destruct (type =? "f")%char; [|destruct (type =? "d")%char; [|discriminate Hty]]]];
        unfold MPI_Recv;
        destruct (c_int _ <? 0); try (intros E; discriminate E);
        destruct (channel net1 peer (this_rank g) 667); try (intros E; discriminate E);
        destruct (_ <? _)%nat; intros E; discriminate E.
      * exfalso. unfold MPI_Recv in Hrecv.
        change (1 <? 0) with false in Hrecv. cbv iota in Hrecv.
        destruct (channel net peer (this_rank g) 666); [discriminate Hrecv|].
        destruct (_ <? _)%nat in Hrecv; discriminate Hrecv.
Qed.

Lemma unsupported_type_is_fatal_witness :
  let cfg := Build_build true false false false in
  let net : network :=
    <[(1, 0, 666) := [{| msg_type := MPI_UNSIGNED; msg_data := [1] |}]]> ∅ in
  (exists net', mpi_send cfg (process 2 0) 1 1 "x" [5] net =
                  (net', Halts (exit_failure (invalid_type "x")))) /\
  (exists net', mpi_receive cfg (process 2 0) 1 1 "x" [5] net =
                  (net', Halts (exit_failure (invalid_type "x")))) /\
  mpi_receive cfg (process 2 0) 1 1 "x" [5] ∅ = (∅, Blocks) /\
  (forall net' d, mpi_send cfg (process 2 0) 1 1 "d" [5] net <>
                    (net', Halts (exit_failure d))) /\
  (forall net' d, mpi_receive cfg (process 2 0) 1 1 "d" [5] net <>
                    (net', Halts (exit_failure d))).
Proof.
  intros cfg net.
  assert (Hn : 0 < 1) by lia.
  assert (Hpeer : 1 < comm_size (process 2 0)) by (simpl; lia).
  pose proof (unsupported_type_is_fatal cfg (process 2 0) 1 1 "x" [5] net Hn Hpeer)
    as [Hx _].
  pose proof (unsupported_type_is_fatal cfg (process 2 0) 1 1 "x" [5] ∅ Hn Hpeer)
    as [Hidle _].
  pose proof (unsupported_type_is_fatal cfg (process 2 0) 1 1 "d" [5] net Hn Hpeer)
    as [_ Hd].
  destruct (Hx eq_refl) as [Hon _]. destruct (Hon eq_refl) as (Hs & Hr & _).
  destruct (Hidle eq_refl) as [Hon' _]. destruct (Hon' eq_refl) as (_ & _ & Hb).
  destruct (Hd eq_refl) as [Hds Hdr].
  split; [exact Hs|]. split; [apply Hr; discriminate|].
  split; [apply Hb; reflexivity|]. split; [exact Hds | exact Hdr].
Defined.

(** C9 fails as stated: in a build without the substrate a call with the
    type ['x'] returns normally from both functions, and in a build with it
    [mpi_receive] blocks, and exits nowhere, for as long as no header has
    arrived. *)
Lemma unsupported_type_returns_normally :
  supported_type "x" = false /\
  mpi_send (Build_build false false false false) (process 2 0) 1 1 "x" [5] ∅ =
    (∅, Returns tt) /\
  mpi_receive (Build_build false false false false) (process 2 0) 1 1 "x" [5] ∅ =
    (∅, Returns [5]) /\
  mpi_receive (Build_build true false false false) (process 2 0) 1 1 "x" [5] ∅ =
    (∅, Blocks).
Proof. repeat split. Qed.

Lemma c_int_small x : 0 <= x <= INT_MAX -> c_int x = x.
Proof.
  intros H. unfold c_int.
  rewrite Z.mod_small by (unfold UINT_MODULUS, INT_MAX in *; lia).
  destruct (Z.leb_spec x INT_MAX); [reflexivity | lia].
Qed.

Lemma supported_type_switch {A : Type} type (k : MPI_Datatype -> A) (fatal : A) :
  supported_type type = true ->
  (if (type =? "i")%char then k MPI_INT
   else if (type =? "c")%char then k MPI_CHAR
   else if (type =? "f")%char then k MPI_FLOAT
   else if (type =? "d")%char then k MPI_DOUBLE
   else fatal) = k (datatype_of type).
Proof.
  unfold supported_type, datatype_of. intros H.
  destruct (type =? "i")%char; [reflexivity|].
  destruct (type =? "c")%char; [reflexivity|].
  destruct (type =? "f")%char; [reflexivity|].
  destruct (type =? "d")%char; [reflexivity | discriminate H].
Qed.

(** What a successful [mpi_send] does to the network: the header goes on
    the control channel, then the payload on the data channel. *)
Lemma mpi_send_returns cfg g to n type data net :
  USE_MPI cfg = true -> 0 < n <= INT_MAX -> to < comm_size g ->
  supported_type type = true -> n <= Z.of_nat (length data) ->
  let net1 :=
    <[(this_rank g, to, 666) :=
        channel net (this_rank g) to 666 ++
        [{| msg_type := MPI_UNSIGNED; msg_data := [n] |}]]> net in
  mpi_send cfg g to n type data net =
    (<[(this_rank g, to, 667) :=
         channel net1 (this_rank g) to 667 ++
         [{| msg_type := datatype_of type; msg_data := take (Z.to_nat n) data |}]]> net1,
     Returns tt).
Proof.
  intros Hmpi Hn Hto Hty Hlen net1.
  unfold mpi_send, ASSERT_RANK.
  rewrite (proj2 (Z.ltb_lt 0 n)) by lia.
  rewrite (proj2 (Z.ltb_lt to (comm_size g))) by lia.
  rewrite Hmpi.
  rewrite (bind_returns _ _ net net tt (assert_true net)).
  rewrite (bind_returns _ _ net net tt (assert_true net)).
  rewrite (bind_returns _ _ _ _ tt (send_header _ _ _ _)).
  rewrite (Z.mod_small n UINT_MODULUS) by (unfold UINT_MODULUS, INT_MAX in *; lia).
  fold net1.
  rewrite (supported_type_switch type
             (fun ty => MPI_Send (this_rank g) data (c_int n) ty to 667) _ Hty).
  unfold MPI_Send. rewrite c_int_small by lia.
  destruct (Z.ltb_spec n 0); [lia|].
  destruct (Z.ltb_spec (Z.of_nat (length data)) n); [lia|].
  reflexivity.
Qed.

(** What [mpi_receive] does with a pending header [h] and payload. *)
Lemma mpi_receive_pending cfg g from n type buffer net h hs ty payload ps :
  USE_MPI cfg = true -> 0 < n -> from < comm_size g ->
  supported_type type = true ->
  channel net from (this_rank g) 666 =
    {| msg_type := MPI_UNSIGNED; msg_data := [h] |} :: hs ->
  channel net from (this_rank g) 667 =
    {| msg_type := ty; msg_data := payload |} :: ps ->
  0 <= h <= INT_MAX ->
  let m := Z.to_nat (Z.min n h) in
  (length (take m payload) <= length buffer)%nat ->
  mpi_receive cfg g from n type buffer net =
    (<[(from, this_rank g, 667) :=
         match drop m payload with
         | [] => ps
         | _ => {| msg_type := ty; msg_data := drop m payload |} :: ps
         end]> (<[(from, this_rank g, 666) := hs]> net),
     Returns (take m payload ++ drop (length (take m payload)) buffer)).
Proof.
  intros Hmpi Hn Hfrom Hty Hctl Hdat Hh m Hroom.
  unfold mpi_receive, ASSERT_RANK.
  rewrite (proj2 (Z.ltb_lt 0 n)) by lia.
  rewrite (proj2 (Z.ltb_lt from (comm_size g))) by lia.
  rewrite Hmpi.
  rewrite (bind_returns _ _ net net tt (assert_true net)).
  rewrite (bind_returns _ _ net net tt (assert_true net)).
  destruct (recv_header _ _ _ _ _ Hctl) as (words & Hrecv & Hwords).
  rewrite (bind_returns _ _ _ _ words Hrecv).
  simpl in Hwords. subst words. simpl drop.
  assert (Hm : size_t_of_words [h; 0 / UINT_MODULUS] = h).
  { unfold size_t_of_words. rewrite Z.div_0_l by discriminate. lia. }
  rewrite Hm.
  rewrite (supported_type_switch type
             (fun ty' => MPI_Recv (this_rank g) buffer (c_int (Z.min n h)) ty' from 667)
             _ Hty).
  unfold MPI_Recv. rewrite c_int_small by lia.
  destruct (Z.ltb_spec (Z.min n h) 0); [lia|].
  rewrite channel_insert_ne by congruence. rewrite Hdat.
  simpl msg_data. simpl msg_type. fold m.
  destruct (Nat.ltb_spec (length buffer) (length (take m payload))); [lia|].
  reflexivity.
Qed.

(** C4: a call of [mpi_receive] for [n] elements that meets a message of
    [h] elements (header [h], payload of [h] elements, as a sender leaves
    them) returns normally whatever [n] and [h] are, with the first
    [min n h] elements of the payload in the first [min n h] positions of
    the buffer and every other position of the buffer as it was. *)
Theorem receive_truncates
    (cfg : build) (g : mpi_globals) (from n : Z) (type : ascii)
    (buffer : list Z) (net : network)
    (h : Z) (hs : list message) (ty : MPI_Datatype) (payload : list Z)
    (ps : list message) :
  USE_MPI cfg = true -> 0 < n -> from < comm_size g ->
  supported_type type = true ->
  channel net from (this_rank g) 666 =
    {| msg_type := MPI_UNSIGNED; msg_data := [h] |} :: hs ->
  channel net from (this_rank g) 667 =
    {| msg_type := ty; msg_data := payload |} :: ps ->
  Z.of_nat (length payload) = h -> h <= INT_MAX ->
  n <= Z.of_nat (length buffer) ->
  exists net' out,
    mpi_receive cfg g from n type buffer net = (net', Returns out) /\
    length out = length buffer /\
    (forall i : nat, Z.of_nat i < Z.min n h -> out !! i = payload !! i) /\
    (forall i : nat, Z.min n h <= Z.of_nat i -> out !! i = buffer !! i).
Proof.
  intros Hmpi Hn Hfrom Hty Hctl Hdat Hlen Hh Hroom.
  set (m := Z.to_nat (Z.min n h)).
  assert (Htake : length (take m payload) = m).
  { rewrite length_take. unfold m. lia. }
  eexists _, _. split.
  - apply (mpi_receive_pending cfg g from n type buffer net h hs ty payload ps);
      try assumption; [lia|]. fold m. rewrite Htake. unfold m. lia.
  - fold m. rewrite Htake. repeat split.
    + rewrite length_app, Htake, length_drop. unfold m. lia.
    + intros i Hi. rewrite lookup_app_l by (rewrite Htake; unfold m; lia).
      apply lookup_take_lt. unfold m. lia.
    + intros i Hi. rewrite lookup_app_r by (rewrite Htake; unfold m; lia).
      rewrite Htake, lookup_drop. f_equal. unfold m. lia.
Qed.

Lemma receive_truncates_witness :
  exists net' out,
    mpi_receive (Build_build true false false false) (process 2 0) 1 2 "d" [0; 0]
      (<[(1, 0, 667) := [{| msg_type := MPI_DOUBLE; msg_data := [10; 20; 30] |}]]>
         (<[(1, 0, 666) := [{| msg_type := MPI_UNSIGNED; msg_data := [3] |}]]> ∅))
      = (net', Returns out) /\
    length out = length [0; 0] /\
    (forall i : nat, Z.of_nat i < Z.min 2 3 -> out !! i = [10; 20; 30] !! i) /\
    (forall i : nat, Z.min 2 3 <= Z.of_nat i -> out !! i = [0; 0] !! i).
Proof.
  apply (receive_truncates (Build_build true false false false) (process 2 0)
           1 2 "d" [0; 0] _ 3 [] MPI_DOUBLE [10; 20; 30] []).
  - reflexivity.
  - lia.
  - simpl. lia.
  - reflexivity.
  - reflexivity.
  - reflexivity.
  - reflexivity.
  - unfold INT_MAX. lia.
  - simpl. lia.
Defined.

(** C5 (amended): in a build with the substrate, for [0 < n <= INT_MAX],
    every supported type and every buffer of [n] elements, [mpi_send]
    followed by the destination's [mpi_receive] of [n'] elements on an
    otherwise idle channel pair delivers the first [min n n'] elements; the
    send puts the header [n] on the control channel (tag 666) and then the
    payload on the data channel (tag 667), the payload being sent from the
    state of the network in which the header is out and the data channel
    idle, which is also where a call is left that has no payload to send;
    and the receive takes the minimum of its count and that header. *)
Theorem send_receive_round_trip
    (cfg : build) (gs gr : mpi_globals) (n n' : Z) (type : ascii)
    (buf outbuf : list Z) (net : network) :
  USE_MPI cfg = true ->
  this_rank gr < comm_size gs -> this_rank gs < comm_size gr ->
  supported_type type = true ->
  0 < n <= INT_MAX -> Z.of_nat (length buf) = n ->
  0 < n' -> Z.of_nat (length outbuf) = n' ->
  channel net (this_rank gs) (this_rank gr) 666 = [] ->
  channel net (this_rank gs) (this_rank gr) 667 = [] ->
  round_trip cfg gs gr n n' type buf outbuf net.
Proof.
  intros Hmpi Hto Hfrom Hty Hn Hbuf Hn' Hout Hctl Hdat.
  pose proof (mpi_send_returns cfg gs (this_rank gr) n type buf net
                Hmpi Hn Hto Hty ltac:(lia)) as Hsend.
  cbv zeta in Hsend.
  rewrite (channel_insert_ne net _ _ _ 667) in Hsend by congruence.
  rewrite Hctl, Hdat in Hsend. simpl app in Hsend.
  rewrite firstn_all2 in Hsend by lia.
  set (net1 := <[_ := _]> (<[_ := _]> net)) in Hsend.
  assert (H666 : channel net1 (this_rank gs) (this_rank gr) 666 =
                 [{| msg_type := MPI_UNSIGNED; msg_data := [n] |}]).
  { unfold net1. rewrite channel_insert_ne by congruence. apply channel_insert_eq. }
  assert (H667 : channel net1 (this_rank gs) (this_rank gr) 667 =
                 [{| msg_type := datatype_of type; msg_data := buf |}]).
  { unfold net1. apply channel_insert_eq. }
  set (m := Z.to_nat (Z.min n' n)).
  assert (Htake : length (take m buf) = m) by (rewrite length_take; unfold m; lia).
  pose proof (mpi_receive_pending cfg gr (this_rank gs) n' type outbuf net1
                n [] (datatype_of type) buf [] Hmpi Hn' Hfrom Hty H666 H667
                ltac:(lia)) as Hrecv.
  cbv zeta in Hrecv. fold m in Hrecv. rewrite Htake in Hrecv.
  specialize (Hrecv ltac:(unfold m; lia)).
  exists net1. eexists. exists (take m buf ++ drop m outbuf).
  split; [exact Hsend|]. split; [exact H666|]. split; [exact H667|].
  split; [exact Hrecv|]. split; [|split].
  - rewrite length_app, Htake, length_drop. unfold m. lia.
  - intros i Hi. rewrite lookup_app_l by (rewrite Htake; unfold m; lia).
    apply lookup_take_lt. unfold m. lia.
  - assert (Hword : n mod UINT_MODULUS = n)
      by (apply Z.mod_small; unfold UINT_MODULUS, INT_MAX in *; lia).
    assert (Hfirst : forall type' data,
      mpi_send cfg gs (this_rank gr) n type' data net =
        (if supported_type type'
         then MPI_Send (this_rank gs) data (c_int n) (datatype_of type')
                (this_rank gr) 667
         else stop (Halts (exit_failure (invalid_type type'))))
          (<[(this_rank gs, this_rank gr, 666) :=
               channel net (this_rank gs) (this_rank gr) 666 ++
               [{| msg_type := MPI_UNSIGNED; msg_data := [n] |}]]> net)).
    { intros type' data. unfold mpi_send, ASSERT_RANK.
      rewrite (proj2 (Z.ltb_lt 0 n)) by lia.
      rewrite (proj2 (Z.ltb_lt (this_rank gr) (comm_size gs))) by lia.
      rewrite Hmpi.
      rewrite (bind_returns _ _ net net tt (assert_true net)).
      rewrite (bind_returns _ _ net net tt (assert_true net)).
      unfold mbind at 1, comm_bind at 1, bind at 1, MPI_Send at 1.
      change (1 <? 0) with false. cbv iota.
      change (Z.of_nat (length (size_t_words n)) <? 1) with false. cbv iota.
      change (take (Z.to_nat 1) (size_t_words n)) with [n mod UINT_MODULUS].
      rewrite Hword.
      destruct (supported_type type') eqn:Hty'.
      - rewrite (supported_type_switch type'
                   (fun ty => MPI_Send (this_rank gs) data (c_int n) ty
                                (this_rank gr) 667) _ Hty').
        reflexivity.
      - destruct (supported_type_false type' Hty') as (Hi & Hc & Hf & Hd).
        rewrite Hi, Hc, Hf, Hd. reflexivity. }
    eexists. split; [rewrite send_header, Hword; reflexivity|].
    split; [apply channel_insert_eq|].
    split; [apply channel_insert_ne; congruence|].
    split; [|split].
    + rewrite Hfirst, Hty. reflexivity.
    + intros type' Hty'. rewrite Hfirst, Hty'. reflexivity.
    + intros type' short Hty' Hshort. rewrite Hfirst, Hty'.
      unfold MPI_Send. rewrite c_int_small by lia.
      destruct (Z.ltb_spec n 0); [lia|].
      destruct (Z.ltb_spec (Z.of_nat (length short)) n); [reflexivity | lia].
Qed.

Lemma send_receive_round_trip_witness :
  round_trip (Build_build true false false false) (process 2 1) (process 2 0)
    3 2 "i" [10; 20; 30] [0; 0] ∅.
Proof.
  apply send_receive_round_trip.
  - reflexivity.
  - simpl. lia.
  - simpl. lia.
  - reflexivity.
  - unfold INT_MAX. lia.
  - reflexivity.
  - lia.
  - reflexivity.
  - reflexivity.
  - reflexivity.
Defined.

(** The header that a returning [mpi_send] leaves on an idle control
    channel is the low [unsigned] word of [n]. *)
Lemma mpi_send_header_word cfg g to n type data net net1 :
  USE_MPI cfg = true ->
  channel net (this_rank g) to 666 = [] ->
  mpi_send cfg g to n type data net = (net1, Returns tt) ->
  channel net1 (this_rank g) to 666 =
    [{| msg_type := MPI_UNSIGNED; msg_data := [n mod UINT_MODULUS] |}].
Proof.
  intros Hmpi Hctl. unfold mpi_send, ASSERT_RANK, assert, ASSERT, stop. rewrite Hmpi.
  destruct (0 <? n); [|intros E; discriminate E].
  rewrite (bind_returns _ _ net net tt eq_refl).
  destruct (to <? comm_size g); [|intros E; discriminate E].
  rewrite (bind_returns _ _ net net tt eq_refl).
  rewrite (bind_returns _ _ _ _ tt (send_header _ _ _ _)).
  rewrite Hctl. simpl app.
  assert (Hdata : forall ty net0,
            MPI_Send (this_rank g) data (c_int n) ty to 667 net0 = (net1, Returns tt) ->
            channel net1 (this_rank g) to 666 = channel net0 (this_rank g) to 666).
  { intros ty net0. unfold MPI_Send.
    destruct (c_int n <? 0); [intros E; discriminate E|].
    destruct (Z.of_nat (length data) <? c_int n); [intros E; discriminate E|].
    intros E. injection E as <-. apply channel_insert_ne. congruence. }
  destruct (type =? "i")%char;
    [|destruct (type =? "c")%char;
      [|destruct (type =? "f")%char;
        [|destruct (type =? "d")%char; [|intros E; discriminate E]]]];
    intros E; rewrite (Hdata _ _ E); apply channel_insert_eq.
Qed.

(** C5 fails as stated: a send of [2^32 + 1] characters leaves the header 1
    on the control channel, not its count. *)
Lemma send_receive_beyond_unsigned :
  ~ round_trip (Build_build true false false false) (process 2 1) (process 2 0)
      (2 ^ 32 + 1) (2 ^ 32 + 1) "c"
      (replicate (Z.to_nat (2 ^ 32 + 1)) 7) (replicate (Z.to_nat (2 ^ 32 + 1)) 0) ∅.
Proof.
  intros (net1 & net2 & out & Hsend & H666 & _).
  apply mpi_send_header_word in Hsend; [|reflexivity|reflexivity].
  rewrite Hsend in H666. clear -H666.
  injection H666 as E. vm_compute in E. discriminate E.
Qed.

(** ** Matrix handles *)

Import Matrix Petsc Handles.

Lemma dense_offset (d : matrix) (p q : Z) :
  0 <= p < max_row d -> 0 <= q < max_col d ->
  max_row d * max_col d <= SIZE_MODULUS ->
  size_wrap p = p /\ size_wrap q = q /\
  DATA_OFFSET d p q = p * max_col d + q /\
  0 <= p * max_col d + q < max_row d * max_col d.
Proof.
  intros Hp Hq Hfit.
  assert (Hin : 0 <= p * max_col d + q < max_row d * max_col d) by nia.
  repeat split; try apply size_wrap_small; unfold is_size_t; try nia.
  unfold DATA_OFFSET. size_norm. apply size_wrap_small. unfold is_size_t. lia.
Qed.

Lemma dense_offset_inj (d : matrix) (p q p' q' : Z) :
  0 <= q < max_col d -> 0 <= q' < max_col d ->
  p * max_col d + q = p' * max_col d + q' -> p = p' /\ q = q'.
Proof. intros Hq Hq' E. assert (p = p') by nia. split; [assumption | nia]. Qed.

Lemma matrix_bounds_pass {A : Type} cfg (d : matrix) (p q : Z) (k : outcome A) :
  p < max_row d -> q < max_col d ->
  Matrix.ASSERT_ROW_INDEX cfg d p (Matrix.ASSERT_COL_INDEX cfg d q k) = k.
Proof.
  intros Hp Hq. unfold Matrix.ASSERT_ROW_INDEX, Matrix.ASSERT_COL_INDEX, ASSERT.
  destruct (MATRIX_BOUND_CHECK cfg); [|reflexivity].
  rewrite (proj2 (Z.ltb_lt p (max_row d)) Hp), (proj2 (Z.ltb_lt q (max_col d)) Hq).
  reflexivity.
Qed.

(** C6: with the sparse backend, a call of [mpi_matrix_set] for a row
    outside the caller's ownership range (and inside the matrix, as the
    function asserts) returns without a trace: the handle of every process
    is what it was.  Without the backend the call stores the entry whatever
    the row is. *)
Theorem matrix_set_outside_ownership :
  (forall cfg g (handles : list mpi_matrix) r m p q x,
     USE_PETSC cfg = true ->
     0 <= r -> handles !! Z.to_nat r = Some m ->
     p < mat_max_row m -> q < mat_max_col m ->
     ~ (mat_first m <= p < mat_last m) ->
     on_rank r (fun h => mpi_matrix_set cfg g h p q x) handles = Returns handles) /\
  (forall cfg g (m : mpi_matrix) p q x,
     USE_PETSC cfg = false ->
     0 <= p < max_row (dense_data m) -> 0 <= q < max_col (dense_data m) ->
     Z.of_nat (length (data (dense_data m))) =
       max_row (dense_data m) * max_col (dense_data m) ->
     max_row (dense_data m) * max_col (dense_data m) <= SIZE_MODULUS ->
     exists m',
       mpi_matrix_set cfg g m p q x = Returns m' /\
       matrix_get cfg (dense_data m') p q = Returns x /\
       (forall p' q', 0 <= p' < max_row (dense_data m) ->
          0 <= q' < max_col (dense_data m) -> (p', q') <> (p, q) ->
          matrix_get cfg (dense_data m') p' q' = matrix_get cfg (dense_data m) p' q')).
Proof.
  split.
  - intros cfg g handles r m p q x Hpetsc Hr Hm Hp Hq Hout.
    unfold on_rank. rewrite Hm.
    unfold mpi_matrix_set, ASSERT_ROW_INDEX, ASSERT_COL_INDEX, ASSERT.
    rewrite Hpetsc.
    rewrite (proj2 (Z.ltb_lt p (mat_max_row m)) Hp).
    rewrite (proj2 (Z.ltb_lt q (mat_max_col m)) Hq).
    assert (Hrange : (mat_first m <=? p) && (p <? mat_last m) = false).
    { apply andb_false_iff.
      destruct (Z.leb_spec (mat_first m) p); [|left; reflexivity].
      right. apply Z.ltb_ge. lia. }
    rewrite Hrange. simpl. rewrite list_insert_id by exact Hm. reflexivity.
  - intros cfg g m p q x Hpetsc Hp Hq Hlen Hfit.
    destruct (dense_offset (dense_data m) p q Hp Hq Hfit) as (Hwp & Hwq & Hoff & Hin).
    unfold mpi_matrix_set, ASSERT_ROW_INDEX, ASSERT_COL_INDEX. rewrite Hpetsc, Hwp, Hwq.
    unfold matrix_set.
    rewrite matrix_bounds_pass by lia. rewrite Hoff.
    destruct (Z.ltb_spec (p * max_col (dense_data m) + q)
                (Z.of_nat (length (data (dense_data m))))) as [_|]; [|lia].
    eexists. split; [reflexivity|]. simpl. split.
    + unfold matrix_get. rewrite matrix_bounds_pass by (simpl; lia).
      change (DATA_OFFSET _ p q) with (DATA_OFFSET (dense_data m) p q).
      rewrite Hoff. simpl data.
      rewrite list_lookup_insert_eq by lia. reflexivity.
    + intros p' q' Hp' Hq' Hne.
      destruct (dense_offset (dense_data m) p' q' Hp' Hq' Hfit) as (_ & _ & Hoff' & Hin').
      unfold matrix_get. rewrite !matrix_bounds_pass by (simpl; lia).
      change (DATA_OFFSET _ p' q') with (DATA_OFFSET (dense_data m) p' q').
      rewrite Hoff'. simpl data.
      rewrite list_lookup_insert_ne; [reflexivity|].
      intros E. apply Hne.
      assert (p * max_col (dense_data m) + q = p' * max_col (dense_data m) + q') by lia.
      destruct (dense_offset_inj (dense_data m) p q p' q' Hq Hq' H). congruence.
Qed.

Lemma matrix_set_outside_ownership_witness :
  on_rank 0 (fun h => mpi_matrix_set (Build_build true true true false)
                        (process 2 0) h 3 1 7)
    [fresh_matrix 4 4 0 2; fresh_matrix 4 4 2 4]
  = Returns [fresh_matrix 4 4 0 2; fresh_matrix 4 4 2 4] /\
  exists m',
    mpi_matrix_set (Build_build false false false false) (process 1 0)
      (fresh_matrix 4 4 0 2) 3 1 7 = Returns m' /\
    matrix_get (Build_build false false false false) (dense_data m') 3 1 = Returns 7 /\
    (forall p' q', 0 <= p' < 4 -> 0 <= q' < 4 -> (p', q') <> (3, 1) ->
       matrix_get (Build_build false false false false) (dense_data m') p' q' =
       matrix_get (Build_build false false false false)
         (dense_data (fresh_matrix 4 4 0 2)) p' q').
Proof.
  split.
  - apply (proj1 matrix_set_outside_ownership (Build_build true true true false)
             (process 2 0) _ 0 (fresh_matrix 4 4 0 2) 3 1 7).
    + reflexivity.
    + lia.
    + reflexivity.
    + simpl. lia.
    + simpl. lia.
    + simpl. lia.
  - apply (proj2 matrix_set_outside_ownership (Build_build false false false false)
             (process 1 0) (fresh_matrix 4 4 0 2) 3 1 7).
    + reflexivity.
    + simpl. lia.
    + simpl. lia.
    + reflexivity.
    + simpl. unfold SIZE_MODULUS. lia.
Defined.

(** ** Eigensolver dispatch *)

Lemma check_petsc_ok {A : Type} g name stop (k : outcome A) :
  CHECK_PETSC_ERROR g name 0 stop k = k.
Proof. reflexivity. Qed.

(** C7: with the sparse backend and the solver library,
    [mpi_matrix_sparse_eigen] asks for [n] eigenpairs with a subspace of
    dimension [2*n + 10], at the largest-real end of the spectrum when [up]
    and at the smallest-real end otherwise, with tolerance [tol] and at most
    [max_step] iterations, and returns the number of converged eigenpairs
    that the solver reports.  Without the backend it runs the dense
    symmetric eigensolver on the whole matrix and returns the number of
    rows, whatever [n], [max_step], [tol] and [up] are. *)
Theorem sparse_eigen_dispatch :
  (forall (cfg : build) (K : kernels) (g : mpi_globals) (m : mpi_matrix)
       (n max_step tol : Z) (up : bool),
     USE_PETSC cfg = true -> USE_SLEPC cfg = true ->
     0 < n -> 0 < max_step -> is_nan tol = false -> 2 * n + 10 <= INT_MAX ->
     exists solver,
       eps_operator solver = Some (mat_data m) /\
       eps_nev solver = n /\
       eps_ncv solver = 2 * n + 10 /\
       eps_which solver =
         Some (if up then EPS_LARGEST_REAL else EPS_SMALLEST_REAL) /\
       eps_problem_type solver = Some EPS_HEP /\
       eps_type solver = Some EPSKRYLOVSCHUR /\
       eps_tol solver = tol /\ eps_max_it solver = max_step /\
       forall nconv,
         krylov_schur K solver = (0, nconv) ->
         exists m', mpi_matrix_sparse_eigen cfg K g m n max_step tol up =
                      Returns (m', nconv) /\
                    (forall s', mat_solver m' = Some s' -> eps_nconv s' = nconv)) /\
  (forall (cfg : build) (K : kernels) (g : mpi_globals) (m : mpi_matrix)
       (n max_step tol : Z) (up : bool) (a eigenval : list Z),
     USE_PETSC cfg = false ->
     0 < n -> 0 < max_step -> is_nan tol = false ->
     0 <= max_row (dense_data m) <= INT_MAX ->
     call_dsyev K "v" "l" (max_row (dense_data m)) (data (dense_data m))
       (max_row (dense_data m)) = Returns (a, eigenval) ->
     exists m', mpi_matrix_sparse_eigen cfg K g m n max_step tol up =
                  Returns (m', max_row (dense_data m)) /\
                data (dense_data m') = a /\
                mat_eigenval m' = Some eigenval).
Proof.
  split.
  - intros cfg K g m n max_step tol up Hpetsc Hslepc Hn Hstep Htol Hfit.
    exists {| eps_operator := Some (mat_data m); eps_nev := n;
              eps_ncv := 2 * n + 10; eps_mpd := PETSC_DECIDE;
              eps_problem_type := Some EPS_HEP;
              eps_which := Some (if up then EPS_LARGEST_REAL else EPS_SMALLEST_REAL);
              eps_type := Some EPSKRYLOVSCHUR;
              eps_tol := tol; eps_max_it := max_step; eps_nconv := 0 |}.
    do 8 (split; [reflexivity|]).
    intros nconv Hsolve.
    unfold mpi_matrix_sparse_eigen, ASSERT.
    rewrite (proj2 (Z.ltb_lt 0 n) Hn), (proj2 (Z.ltb_lt 0 max_step) Hstep).
    rewrite eqb_reflx, Htol, Hpetsc, Hslepc. simpl andb. cbv iota.
    assert (Hrange : int_range (2 * n + 10) = true).
    { unfold int_range. apply andb_true_iff. split; apply Z.leb_le; lia. }
    rewrite Hrange. simpl negb. cbv iota.
    cbv beta iota zeta delta
      [EPSCreate EPSSetOperators EPSSetDimensions EPSSetProblemType
       EPSSetWhichEigenpairs EPSSetType EPSSetTolerances EPSSolve EPSGetConverged
       eps_operator eps_nev eps_ncv eps_mpd eps_problem_type eps_which eps_type
       eps_tol eps_max_it eps_nconv].
    rewrite !check_petsc_ok.
    rewrite Hsolve.
    cbv beta iota zeta delta [eps_nconv].
    rewrite !check_petsc_ok.
    eexists. split; [reflexivity|].
    unfold with_solver, mat_solver. intros s' E. injection E as <-. reflexivity.
  - intros cfg K g m n max_step tol up a eigenval Hpetsc Hn Hstep Htol Hrows Hk.
    unfold mpi_matrix_sparse_eigen, ASSERT.
    rewrite (proj2 (Z.ltb_lt 0 n) Hn), (proj2 (Z.ltb_lt 0 max_step) Hstep).
    rewrite eqb_reflx, Htol, Hpetsc. simpl andb. cbv iota.
    unfold matrix_symm_eigen. rewrite Hk.
    cbn [outcome_bind matrix_rows max_row].
    rewrite c_int_small by lia.
    eexists. split; [reflexivity|]. split; reflexivity.
Qed.

Lemma sparse_eigen_dispatch_witness :
  (exists solver,
     eps_operator solver = Some (mat_data (fresh_matrix 3 3 0 3)) /\
     eps_nev solver = 2 /\
     eps_ncv solver = 2 * 2 + 10 /\
     eps_which solver = Some (if true then EPS_LARGEST_REAL else EPS_SMALLEST_REAL) /\
     eps_problem_type solver = Some EPS_HEP /\
     eps_type solver = Some EPSKRYLOVSCHUR /\
     eps_tol solver = 0 /\ eps_max_it solver = 100 /\
     forall nconv,
       krylov_schur (constant_kernels 2 [1; 2; 3]) solver = (0, nconv) ->
       exists m', mpi_matrix_sparse_eigen (Build_build true true true false)
                    (constant_kernels 2 [1; 2; 3]) (process 1 0)
                    (fresh_matrix 3 3 0 3) 2 100 0 true = Returns (m', nconv) /\
                  (forall s', mat_solver m' = Some s' -> eps_nconv s' = nconv)) /\
  (exists m', mpi_matrix_sparse_eigen (Build_build false false false false)
                (constant_kernels 2 [1; 2; 3]) (process 1 0)
                (fresh_matrix 3 3 0 3) 2 100 0 true =
                Returns (m', max_row (dense_data (fresh_matrix 3 3 0 3))) /\
              data (dense_data m') = data (dense_data (fresh_matrix 3 3 0 3)) /\
              mat_eigenval m' = Some [1; 2; 3]).
Proof.
  split.
  - apply (proj1 sparse_eigen_dispatch (Build_build true true true false)
             (constant_kernels 2 [1; 2; 3]) (process 1 0) (fresh_matrix 3 3 0 3)
             2 100 0 true).
    + reflexivity.
    + reflexivity.
    + lia.
    + lia.
    + reflexivity.
    + unfold INT_MAX. lia.
  - apply (proj2 sparse_eigen_dispatch (Build_build false false false false)
             (constant_kernels 2 [1; 2; 3]) (process 1 0) (fresh_matrix 3 3 0 3)
             2 100 0 true).
    + reflexivity.
    + lia.
    + lia.
    + reflexivity.
    + simpl. unfold INT_MAX. lia.
    + reflexivity.
Defined.

(** ** Gather-output *)

Import Gather.

Lemma mpi_inbox_probe cfg g from net :
  USE_MPI cfg = true -> from < comm_size g ->
  mpi_inbox cfg g from net =
    (net, Returns (match channel net from (this_rank g) 666 with
                   | [] => false
                   | _ => true
                   end)).
Proof.
  intros Hmpi Hfrom. unfold mpi_inbox, ASSERT_RANK.
  rewrite (proj2 (Z.ltb_lt from (comm_size g)) Hfrom), Hmpi.
  rewrite (bind_returns _ _ net net tt (assert_true net)). reflexivity.
Qed.

Lemma supported_double : supported_type "d" = true.
Proof. reflexivity. Qed.

(** [mpi_receive(from, 1, 'd', &value)] with a one-value message pending. *)
Lemma mpi_receive_unit cfg g from value x net hs ps :
  USE_MPI cfg = true -> from < comm_size g ->
  channel net from (this_rank g) 666 = unit_header :: hs ->
  channel net from (this_rank g) 667 = unit_payload x :: ps ->
  mpi_receive cfg g from 1 "d" [value] net =
    (<[(from, this_rank g, 667) := ps]> (<[(from, this_rank g, 666) := hs]> net),
     Returns [x]).
Proof.
  intros Hmpi Hfrom Hctl Hdat.
  apply (mpi_receive_pending cfg g from 1 "d" [value] net 1 hs MPI_DOUBLE [x] ps
           Hmpi ltac:(lia) Hfrom supported_double Hctl Hdat).
  - unfold INT_MAX. lia.
  - simpl. lia.
Qed.

(** [mpi_send(0, 1, 'd', &value)]. *)
Lemma mpi_send_unit cfg g x net :
  USE_MPI cfg = true -> 0 < comm_size g ->
  mpi_send cfg g 0 1 "d" [x] net =
    (<[(this_rank g, 0, 667) := channel net (this_rank g) 0 667 ++ [unit_payload x]]>
       (<[(this_rank g, 0, 666) := channel net (this_rank g) 0 666 ++ [unit_header]]> net),
     Returns tt).
Proof.
  intros Hmpi Hsize.
  pose proof (mpi_send_returns cfg g 0 1 "d" [x] net Hmpi
                ltac:(unfold INT_MAX; lia) Hsize supported_double
                ltac:(simpl; lia)) as H.
  cbv zeta in H. rewrite (channel_insert_ne net _ _ _ 667) in H by congruence.
  exact H.
Qed.

(** The backend gives the value of every owned index. *)
Lemma VecGetValues_owned (v : mpi_vector) (n : Z) :
  wf_vector v -> vec_first v <= n < vec_last v ->
  (VecGetValues (vec_data v) n).1 = 0.
Proof.
  intros (Hf & Hl & Hlen) Hn. unfold VecGetValues. rewrite <- Hf, <- Hl.
  destruct (Z.leb_spec (vec_first v) n); [|lia].
  destruct (Z.ltb_spec n (vec_last v)); [|lia]. simpl.
  destruct (own_values (vec_data v) !! Z.to_nat (n - vec_first v)) eqn:E;
    [reflexivity|].
  apply lookup_ge_None in E. lia.
Qed.

Lemma owned_indices_owned (v : mpi_vector) (n_min n_max n : Z) :
  n ∈ owned_indices v n_min n_max -> vec_first v <= n < vec_last v.
Proof. unfold owned_indices. rewrite elem_of_seqZ. lia. Qed.

Lemma write_owned_values g v ns value stream :
  wf_vector v -> (forall n, n ∈ ns -> vec_first v <= n < vec_last v) ->
  exists value',
    write_owned g v ns value stream =
    Returns (value', stream ++ ((fun n => (VecGetValues (vec_data v) n).2) <$> ns)).
Proof.
  intros Hwf. revert value stream.
  induction ns as [|n ns IH]; intros value stream Hns.
  - exists value. simpl. rewrite app_nil_r. reflexivity.
  - simpl. pose proof (VecGetValues_owned v n Hwf (Hns n ltac:(left))) as Hinfo.
    destruct (VecGetValues (vec_data v) n) as [info x]. simpl in Hinfo. subst info.
    rewrite check_petsc_ok.
    destruct (IH x (fwrite_value x stream)) as (value' & E).
    { intros n' Hn'. apply Hns. right. exact Hn'. }
    exists value'. rewrite E. unfold fwrite_value. rewrite <- app_assoc. reflexivity.
Qed.

Lemma send_owned_values cfg g v ns net :
  USE_MPI cfg = true -> 0 < comm_size g ->
  wf_vector v -> (forall n, n ∈ ns -> vec_first v <= n < vec_last v) ->
  exists net',
    send_owned cfg g v ns net = (net', Returns tt) /\
    channel net' (this_rank g) 0 666 =
      channel net (this_rank g) 0 666 ++
      ((fun n => unit_header) <$> ns) /\
    channel net' (this_rank g) 0 667 =
      channel net (this_rank g) 0 667 ++
      ((fun n => unit_payload (VecGetValues (vec_data v) n).2) <$> ns) /\
    (forall s d t, (s, d) <> (this_rank g, 0) ->
       channel net' s d t = channel net s d t).
Proof.
  intros Hmpi Hsize Hwf. revert net.
  induction ns as [|n ns IH]; intros net Hns.
  - exists net. simpl. rewrite !app_nil_r. repeat split; reflexivity.
  - simpl. pose proof (VecGetValues_owned v n Hwf (Hns n ltac:(left))) as Hinfo.
    destruct (VecGetValues (vec_data v) n) as [info x] eqn:Hget.
    simpl in Hinfo. subst info. simpl.
    rewrite (bind_returns _ _ _ _ tt (mpi_send_unit cfg g x net Hmpi Hsize)).
    destruct (IH (<[(this_rank g, 0, 667) :=
                      channel net (this_rank g) 0 667 ++ [unit_payload x]]>
                    (<[(this_rank g, 0, 666) :=
                         channel net (this_rank g) 0 666 ++ [unit_header]]> net)))
      as (net' & E & H666 & H667 & Hother).
    { intros n' Hn'. apply Hns. right. exact Hn'. }
    exists net'. split; [exact E|]. split; [|split].
    + rewrite H666, channel_insert_ne by congruence.
      rewrite channel_insert_eq, <- app_assoc. reflexivity.
    + rewrite H667, channel_insert_eq, <- app_assoc. reflexivity.
    + intros s d t Hne. rewrite (Hother s d t Hne).
      rewrite !channel_insert_ne by congruence. reflexivity.
Qed.

(** The root empties the inbox of one rank: every pending value is written,
    in the order of arrival. *)
Lemma drain_inbox_pending cfg g from :
  USE_MPI cfg = true -> from < comm_size g ->
  forall (xs : list Z) (fuel : nat) (value : Z) (stream : list Z)
         (net : network) (rest : list message),
    channel net from (this_rank g) 666 = ((fun x => unit_header) <$> xs) ->
    channel net from (this_rank g) 667 = (unit_payload <$> xs) ++ rest ->
    (length xs < fuel)%nat ->
    exists net' value',
      drain_inbox fuel cfg g from value stream net =
        (net', Returns (value', stream ++ xs)) /\
      channel net' from (this_rank g) 666 = [] /\
      channel net' from (this_rank g) 667 = rest /\
      (forall s d t, (s, d) <> (from, this_rank g) ->
         channel net' s d t = channel net s d t).
Proof.
  intros Hmpi Hfrom.
  induction xs as [|x xs IH]; intros fuel value stream net rest H666 H667 Hfuel.
  - destruct fuel as [|fuel]; [simpl in Hfuel; lia|].
    exists net, value. simpl drain_inbox.
    rewrite (bind_returns _ _ _ _ _ (mpi_inbox_probe cfg g from net Hmpi Hfrom)).
    split; [|split; [exact H666|split; [exact H667|reflexivity]]].
    rewrite H666. simpl. rewrite app_nil_r. reflexivity.
  - destruct fuel as [|fuel]; [simpl in Hfuel; lia|].
    simpl drain_inbox.
    rewrite fmap_cons in H666, H667. rewrite <- app_comm_cons in H667.
    rewrite (bind_returns _ _ _ _ _ (mpi_inbox_probe cfg g from net Hmpi Hfrom)).
    rewrite H666. cbv iota.
    rewrite (bind_returns _ _ _ _ _
               (mpi_receive_unit cfg g from value x net _ _ Hmpi Hfrom H666 H667)).
    simpl head. simpl default.
    destruct (IH fuel x (fwrite_value x stream)
                (<[(from, this_rank g, 667) := (unit_payload <$> xs) ++ rest]>
                   (<[(from, this_rank g, 666) := (fun _ => unit_header) <$> xs]> net))
                rest)
      as (net' & value' & E & H666' & H667' & Hother).
    { rewrite channel_insert_ne by congruence. apply channel_insert_eq. }
    { apply channel_insert_eq. }
    { simpl in Hfuel. lia. }
    exists net', value'. split; [|split; [exact H666'|split; [exact H667'|]]].
    + rewrite E. unfold fwrite_value. rewrite <- app_assoc. reflexivity.
    + intros s d t Hne. rewrite (Hother s d t Hne).
      rewrite !channel_insert_ne by congruence. reflexivity.
Qed.

(** The root empties the inboxes of the ranks [froms] one after the other. *)
Lemma drain_ranks_pending cfg g (pending : Z -> list Z) :
  USE_MPI cfg = true ->
  forall froms : list Z,
    NoDup froms -> (forall r, r ∈ froms -> r < comm_size g) ->
    forall (fuel : nat) (value : Z) (stream : list Z) (net : network),
      (forall r, r ∈ froms ->
         channel net r (this_rank g) 666 = ((fun x => unit_header) <$> pending r) /\
         channel net r (this_rank g) 667 = (unit_payload <$> pending r) /\
         (length (pending r) < fuel)%nat) ->
      exists net' value',
        drain_ranks fuel cfg g froms value stream net =
          (net', Returns (value', stream ++ concat (pending <$> froms))).
Proof.
  intros Hmpi froms.
  induction froms as [|from froms IH]; intros Hnodup Hranks fuel value stream net Hpend.
  - exists net, value. simpl. rewrite app_nil_r. reflexivity.
  - apply NoDup_cons in Hnodup as [Hnotin Hnodup].
    destruct (Hpend from ltac:(left)) as (H666 & H667 & Hfuel).
    destruct (drain_inbox_pending cfg g from Hmpi (Hranks from ltac:(left))
                (pending from) fuel value stream net [] H666
                ltac:(rewrite app_nil_r; exact H667) Hfuel)
      as (net1 & value1 & E & _ & _ & Hother).
    destruct (IH Hnodup (fun r Hr => Hranks r ltac:(right; exact Hr))
                fuel value1 (stream ++ pending from) net1)
      as (net' & value' & E').
    { intros r Hr. destruct (Hpend r ltac:(right; exact Hr)) as (A & B & C).
      assert (Hne : (r, this_rank g) <> (from, this_rank g)).
      { intros Heq. injection Heq as ->. exact (Hnotin Hr). }
      rewrite !(Hother _ _ _ Hne). auto. }
    exists net', value'. simpl drain_ranks.
    rewrite (bind_returns _ _ _ _ _ E). cbv beta iota.
    rewrite E', fmap_cons. simpl concat. rewrite app_assoc. reflexivity.
Qed.

Lemma vector_write_asserts cfg g v n_min n_max fuel stream net :
  -1 < n_min -> n_min < n_max -> n_max < vec_length v ->
  (this_rank g = 0 -> is_Some stream) ->
  mpi_vector_write fuel cfg g v n_min n_max stream net =
  (if USE_PETSC cfg then
    mpi_barrier cfg ;;
    if mpi_rank g =? 0 then
      match stream with
      | None => stop Undefined
      | Some out =>
          let drain value out :=
            '(_, out') ← drain_ranks fuel cfg g
                           (seqZ 1 (mpi_comm_size g - 1)) value out;
            ret (Some out') in
          if n_min <? vec_last v then
            '(value, out') ← stop (write_owned g v (owned_indices v n_min n_max) 0 out);
            if mpi_comm_size g =? 1 then ret (Some out')
            else drain value out'
          else
            sleep ;; drain 0 out
      end
    else
      if vec_last v <=? n_min then ret stream
      else
        send_owned cfg g v (owned_indices v n_min n_max) ;;
        ret stream
  else
    match stream with
    | None => stop Undefined
    | Some out =>
        if n_min + n_max <=? Z.of_nat (length (raw_data v)) then
          ret (Some (out ++ take (Z.to_nat n_max) (drop (Z.to_nat n_min) (raw_data v))))
        else stop Undefined
    end) net.
Proof.
  intros H1 H2 H3 Hs. unfold mpi_vector_write.
  rewrite (proj2 (Z.ltb_lt (-1) n_min) H1), (proj2 (Z.ltb_lt n_min n_max) H2),
    (proj2 (Z.ltb_lt n_max (vec_length v)) H3).
  rewrite (bind_returns _ _ net net tt (assert_true net)).
  rewrite (bind_returns _ _ net net tt (assert_true net)).
  rewrite (bind_returns _ _ net net tt (assert_true net)).
  rewrite (bind_returns _ _ net net tt); [reflexivity|].
  unfold mpi_rank.
  destruct (Z.eqb_spec (this_rank g) 0) as [E|E]; [|reflexivity].
  rewrite (bool_decide_eq_true_2 _ (Hs E)). reflexivity.
Qed.

Lemma vector_write_sender
    (cfg : build) (g : mpi_globals) (v : mpi_vector) (n_min n_max : Z) :
  USE_MPI cfg = true -> USE_PETSC cfg = true ->
  wf_vector v -> -1 < n_min -> n_min < n_max -> n_max < vec_length v ->
  0 < comm_size g -> this_rank g <> 0 ->
  forall (fuel : nat) (stream : option (list Z)) (net : network),
  exists net',
    mpi_vector_write fuel cfg g v n_min n_max stream net = (net', Returns stream) /\
    channel net' (this_rank g) 0 666 =
      channel net (this_rank g) 0 666 ++
      ((fun x => unit_header) <$> owned_values v n_min n_max) /\
    channel net' (this_rank g) 0 667 =
      channel net (this_rank g) 0 667 ++
      (unit_payload <$> owned_values v n_min n_max) /\
    (forall s d t, (s, d) <> (this_rank g, 0) ->
       channel net' s d t = channel net s d t).
Proof.
  intros Hmpi Hpetsc Hwf H1 H2 H3 Hsize.
  intros Hrank fuel stream net.
  rewrite vector_write_asserts by (try assumption; intros E; contradiction).
  rewrite Hpetsc. unfold mpi_barrier.
  rewrite (bind_returns _ _ net net tt eq_refl).
  unfold mpi_rank. destruct (Z.eqb_spec (this_rank g) 0) as [E|_]; [contradiction|].
  destruct (Z.leb_spec (vec_last v) n_min) as [Hlast|Hlast].
  + exists net. split; [reflexivity|].
    assert (Hnil : owned_values v n_min n_max = []).
    { unfold owned_values, owned_indices. rewrite seqZ_nil by lia. reflexivity. }
    rewrite Hnil. simpl. rewrite !app_nil_r. repeat split; reflexivity.
  + destruct (send_owned_values cfg g v (owned_indices v n_min n_max) net
                Hmpi Hsize Hwf (owned_indices_owned v n_min n_max))
      as (net' & E & H666 & H667 & Hother).
    exists net'. rewrite (bind_returns _ _ _ _ _ E).
    unfold owned_values. rewrite <- !list_fmap_compose.
    split; [reflexivity|]. split; [exact H666|]. split; [exact H667|exact Hother].
Qed.

Lemma vector_write_root
    (cfg : build) (g : mpi_globals) (v : mpi_vector) (n_min n_max : Z) :
  USE_MPI cfg = true -> USE_PETSC cfg = true ->
  wf_vector v -> -1 < n_min -> n_min < n_max -> n_max < vec_length v ->
  0 < comm_size g -> this_rank g = 0 ->
  forall (fuel : nat) (out : list Z) (net : network) (pending : Z -> list Z),
    (forall r, 1 <= r < comm_size g ->
       channel net r 0 666 = ((fun x => unit_header) <$> pending r) /\
       channel net r 0 667 = (unit_payload <$> pending r) /\
       (length (pending r) < fuel)%nat) ->
    exists net',
      mpi_vector_write fuel cfg g v n_min n_max (Some out) net =
        (net', Returns (Some (out ++ owned_values v n_min n_max ++
                              concat (pending <$> seqZ 1 (comm_size g - 1))))).
Proof.
  intros Hmpi Hpetsc Hwf H1 H2 H3 Hsize.
  intros Hrank fuel out net pending Hpend.
  rewrite vector_write_asserts by (try assumption; intros _; eexists; reflexivity).
  rewrite Hpetsc. unfold mpi_barrier.
  rewrite (bind_returns _ _ net net tt eq_refl).
  unfold mpi_rank, mpi_comm_size. rewrite Hrank. change (0 =? 0) with true. cbv iota zeta.
  assert (Hdrain : forall value stream,
            exists net' value',
              drain_ranks fuel cfg g (seqZ 1 (comm_size g - 1)) value stream net =
              (net', Returns (value', stream ++
                              concat (pending <$> seqZ 1 (comm_size g - 1))))).
  { intros value stream.
    apply (drain_ranks_pending cfg g pending Hmpi).
    - apply NoDup_seqZ.
    - intros r Hr. apply elem_of_seqZ in Hr. lia.
    - intros r Hr. apply elem_of_seqZ in Hr. rewrite Hrank.
      apply Hpend. lia. }
  destruct (Z.ltb_spec n_min (vec_last v)) as [Hlast|Hlast].
  + destruct (write_owned_values g v (owned_indices v n_min n_max) 0 out Hwf
                (owned_indices_owned v n_min n_max)) as (value & E).
    fold (owned_values v n_min n_max) in E.
    rewrite (bind_returns _ _ net net (value, out ++ owned_values v n_min n_max))
      by (unfold stop; rewrite E; reflexivity).
    cbv beta iota.
    destruct (Z.eqb_spec (comm_size g) 1) as [Hone|Hmany].
    * exists net. rewrite Hone. change (seqZ 1 (1 - 1)) with (@nil Z).
      simpl. rewrite !app_nil_r. reflexivity.
    * destruct (Hdrain value (out ++ owned_values v n_min n_max))
        as (net' & value' & E').
      exists net'. rewrite (bind_returns _ _ _ _ _ E'). cbv beta iota.
      rewrite <- app_assoc. reflexivity.
  + assert (Hnil : owned_values v n_min n_max = []).
    { unfold owned_values, owned_indices. rewrite seqZ_nil by lia. reflexivity. }
    rewrite Hnil. unfold sleep.
    rewrite (bind_returns _ _ net net tt eq_refl).
    destruct (Hdrain 0 out) as (net' & value' & E').
    exists net'. rewrite (bind_returns _ _ _ _ _ E'). cbv beta iota.
    reflexivity.
Qed.

(** C2, the code at three inputs.  Without the sparse backend a request
    for [[2, 5)] of a vector of 10 elements writes the 5 elements 2, ..., 6
    ([fwrite] is given the count [n_max]), not the 3 elements of the range.
    A request for [[0, 10)] of a vector of 10 elements fails the assertion
    [n_max < v->length] in either build, on the root and on the other
    process alike.  With the backend, ownership 5/5 over two processes and
    the range [[0, 9)], the second process sends 15, ..., 18 and the root
    then writes 10, ..., 18. *)
Theorem vector_write_at_inputs :
  mpi_vector_write 0 (Build_build false false false false) (process 1 0)
    (vector_handle [10; 11; 12; 13; 14; 15; 16; 17; 18; 19] 0 10) 2 5 (Some []) ∅
    = (∅, Returns (Some [12; 13; 14; 15; 16])) /\
  requested_range [10; 11; 12; 13; 14; 15; 16; 17; 18; 19] 2 5 = [12; 13; 14] /\
  mpi_vector_write 0 (Build_build false false false false) (process 1 0)
    (vector_handle [10; 11; 12; 13; 14; 15; 16; 17; 18; 19] 0 10) 0 10 (Some []) ∅
    = (∅, Halts assertion_failed) /\
  mpi_vector_write 9 (Build_build true true true false) (process 2 0)
    (vector_handle [10; 11; 12; 13; 14; 15; 16; 17; 18; 19] 0 5) 0 10 (Some []) ∅
    = (∅, Halts assertion_failed) /\
  mpi_vector_write 9 (Build_build true true true false) (process 2 1)
    (vector_handle [10; 11; 12; 13; 14; 15; 16; 17; 18; 19] 5 10) 0 10 None ∅
    = (∅, Halts assertion_failed) /\
  exists net1 net2,
    mpi_vector_write 9 (Build_build true true true false) (process 2 1)
      (vector_handle [10; 11; 12; 13; 14; 15; 16; 17; 18; 19] 5 10) 0 9 None ∅
      = (net1, Returns None) /\
    mpi_vector_write 9 (Build_build true true true false) (process 2 0)
      (vector_handle [10; 11; 12; 13; 14; 15; 16; 17; 18; 19] 0 5) 0 9 (Some []) net1
      = (net2, Returns (Some [10; 11; 12; 13; 14; 15; 16; 17; 18])).
Proof.
  split; [reflexivity|]. split; [reflexivity|].
  split; [reflexivity|]. split; [reflexivity|]. split; [reflexivity|].
  eexists. eexists. split.
  - vm_compute. reflexivity.
  - vm_compute. reflexivity.
Qed.

(** After the processes [ranks] have run, each of them has left its
    messages on its pair of channels to the root. *)
Lemma run_senders_channels
    (cfg : build) (size : Z) (handles : Z -> mpi_vector) (n_min n_max : Z) :
  USE_MPI cfg = true -> USE_PETSC cfg = true ->
  -1 < n_min -> n_min < n_max ->
  (forall r, 0 <= r < size ->
     wf_vector (handles r) /\ n_max < vec_length (handles r)) ->
  forall (fuel : nat) (ranks : list Z),
    NoDup ranks -> (forall r, r ∈ ranks -> 1 <= r < size) ->
    forall net : network,
    exists net',
      run_senders fuel cfg size handles ranks n_min n_max net = (net', Returns tt) /\
      forall r,
        channel net' r 0 666 =
          channel net r 0 666 ++
          (if bool_decide (r ∈ ranks)
           then (fun x => unit_header) <$> owned_values (handles r) n_min n_max
           else []) /\
        channel net' r 0 667 =
          channel net r 0 667 ++
          (if bool_decide (r ∈ ranks)
           then unit_payload <$> owned_values (handles r) n_min n_max
           else []).
Proof.
  intros Hmpi Hpetsc H1 H2 Hh fuel ranks.
  induction ranks as [|r ranks IH]; intros Hnodup Hranks net.
  - exists net. split; [reflexivity|]. intros r.
    rewrite bool_decide_eq_false_2 by apply not_elem_of_nil.
    rewrite !app_nil_r. split; reflexivity.
  - apply NoDup_cons in Hnodup as [Hnotin Hnodup].
    pose proof (Hranks r ltac:(left)) as Hr.
    destruct (Hh r ltac:(lia)) as [Hwf H3].
    destruct (vector_write_sender cfg (process size r) (handles r) n_min n_max
                Hmpi Hpetsc Hwf H1 H2 H3 ltac:(simpl; lia) ltac:(simpl; lia)
                fuel None net) as (net1 & E & H666 & H667 & Hother).
    simpl this_rank in H666, H667, Hother.
    destruct (IH Hnodup (fun r' Hr' => Hranks r' ltac:(right; exact Hr')) net1)
      as (net' & E' & Hch).
    exists net'. split.
    + simpl run_senders. rewrite (bind_returns _ _ _ _ _ E). exact E'.
    + intros r'. destruct (Hch r') as [A B]. rewrite A, B.
      destruct (decide (r' = r)) as [->|Hne].
      * rewrite (bool_decide_eq_false_2 _ Hnotin).
        rewrite (bool_decide_eq_true_2 (r ∈ r :: ranks)) by left.
        rewrite H666, H667, !app_nil_r. split; reflexivity.
      * rewrite !(Hother r' 0 _) by congruence.
        destruct (decide (r' ∈ ranks)) as [Hin|Hnin].
        -- rewrite (bool_decide_eq_true_2 _ Hin).
           rewrite (bool_decide_eq_true_2 (r' ∈ r :: ranks)) by (right; exact Hin).
           split; reflexivity.
        -- rewrite (bool_decide_eq_false_2 _ Hnin).
           rewrite (bool_decide_eq_false_2 (r' ∈ r :: ranks)).
           ++ split; reflexivity.
           ++ intros Hin. apply elem_of_cons in Hin as [?|?]; contradiction.
Qed.

(** Without the sparse backend [mpi_vector_write] hands [n_max] to [fwrite]
    as the number of elements: it writes the [n_max] elements from [n_min]
    on, whatever the size [n_max - n_min] of the range is. *)
Lemma vector_write_local
    (fuel : nat) (cfg : build) (g : mpi_globals) (v : mpi_vector)
    (n_min n_max : Z) (out : list Z) (net : network) :
  USE_PETSC cfg = false ->
  -1 < n_min -> n_min < n_max -> n_max < vec_length v ->
  n_min + n_max <= Z.of_nat (length (raw_data v)) ->
  mpi_vector_write fuel cfg g v n_min n_max (Some out) net =
    (net, Returns (Some (out ++ take (Z.to_nat n_max)
                                  (drop (Z.to_nat n_min) (raw_data v))))) /\
  Z.of_nat (length (take (Z.to_nat n_max) (drop (Z.to_nat n_min) (raw_data v))))
    = n_max.
Proof.
  intros Hpetsc H1 H2 H3 Hlen. split.
  - rewrite vector_write_asserts by (try assumption; intros _; eexists; reflexivity).
    rewrite Hpetsc.
    destruct (Z.leb_spec (n_min + n_max) (Z.of_nat (length (raw_data v)))); [|lia].
    reflexivity.
  - rewrite length_take, length_drop. lia.
Qed.

(** ** The collective call under any schedule *)

Import Schedule.

Lemma concat_fmap_nil (f : Z -> list Z) (l : list Z) :
  (forall r, r ∈ l -> f r = []) -> concat (f <$> l) = [].
Proof.
  induction l as [|r l IH]; intros H; [reflexivity|].
  rewrite fmap_cons. simpl. rewrite (H r) by left.
  apply IH. intros r' Hr'. apply H. right. exact Hr'.
Qed.

Lemma fmap_with_todo_notin (f : Z -> list Z) (r : Z) (x : list Z) (l : list Z) :
  r ∉ l -> with_todo f r x <$> l = f <$> l.
Proof.
  intros H. apply list_fmap_ext. intros i r' Hr'. unfold with_todo.
  destruct (decide (r' = r)) as [->|]; [|reflexivity].
  exfalso. apply H. eapply list_elem_of_lookup_2. exact Hr'.
Qed.

Lemma consistent_initial size handles n_min n_max out s :
  initial size handles n_min n_max out s ->
  consistent size handles n_min n_max out (fun _ => []) s.
Proof.
  intros [Hch Hroot]. split.
  - intros r Hr. destruct (Hch r Hr) as (H666 & H667 & Htodo).
    exists []. rewrite H666, H667, Htodo.
    split; [reflexivity|]. split; [reflexivity|]. split; [reflexivity|].
    apply owned_indices_owned.
  - rewrite Hroot. split; reflexivity.
Qed.

Section ScheduleFacts.

Variables (cfg : build) (size : Z) (handles : Z -> mpi_vector) (n_min n_max : Z).
Variable out : list Z.
Hypothesis Hmpi : USE_MPI cfg = true.
Hypothesis Hsize : 1 <= size.
Hypothesis Hwf : forall r, 0 <= r < size -> wf_vector (handles r).

Lemma consistent_send drained s r n ns net' :
  consistent size handles n_min n_max out drained s ->
  1 <= r < size ->
  sys_todo s r = n :: ns ->
  send_owned cfg (process size r) (handles r) [n] (sys_net s) = (net', Returns tt) ->
  consistent size handles n_min n_max out drained
    {| sys_net := net'; sys_todo := with_todo (sys_todo s) r ns;
       sys_root := sys_root s |}.
Proof.
  intros [HA HB] Hr Htodo Hsend. split; [|exact HB].
  destruct (HA r Hr) as (inflight & Hval & H666 & H667 & Hown).
  destruct (send_owned_values cfg (process size r) (handles r) [n] (sys_net s)
              Hmpi ltac:(simpl; lia) (Hwf r ltac:(lia)))
    as (net2 & E & S666 & S667 & Sother).
  { intros n' Hn'. apply Hown. rewrite Htodo.
    apply list_elem_of_singleton in Hn' as ->. left. }
  rewrite E in Hsend. injection Hsend as ->.
  simpl this_rank in S666, S667, Sother.
  intros r' Hr'. simpl. unfold with_todo.
  destruct (decide (r' = r)) as [->|Hne].
  - exists (inflight ++ [(VecGetValues (vec_data (handles r)) n).2]).
    rewrite S666, S667, H666, H667, Hval, Htodo, !fmap_app, !fmap_cons.
    rewrite <- !app_assoc. simpl.
    split; [reflexivity|]. split; [reflexivity|]. split; [reflexivity|].
    intros n' Hn'. apply Hown. rewrite Htodo. right. exact Hn'.
  - destruct (HA r' Hr') as (inflight' & Hval' & H666' & H667' & Hown').
    exists inflight'. rewrite !(Sother r' 0) by congruence. auto.
Qed.

Lemma consistent_own drained s value out0 out' :
  consistent size handles n_min n_max out drained s ->
  sys_root s = root_start out0 ->
  write_owned (process size 0) (handles 0)
    (owned_indices (handles 0) n_min n_max) 0 out0 = Returns (value, out') ->
  consistent size handles n_min n_max out drained
    {| sys_net := sys_net s; sys_todo := sys_todo s;
       sys_root := if size =? 1 then root_done out'
                   else root_draining (seqZ 1 (size - 1)) value out' |}.
Proof.
  intros [HA HB] Hroot Hwrite. split; [exact HA|].
  rewrite Hroot in HB. destruct HB as [-> Hnil].
  destruct (write_owned_values (process size 0) (handles 0)
              (owned_indices (handles 0) n_min n_max) 0 out
              (Hwf 0 ltac:(lia)) (owned_indices_owned _ _ _)) as (value' & E).
  rewrite E in Hwrite. injection Hwrite as -> <-.
  fold (owned_values (handles 0) n_min n_max).
  assert (Hc : concat (drained <$> seqZ 1 (size - 1)) = [])
    by (apply concat_fmap_nil; intros r _; apply Hnil).
  simpl. destruct (size =? 1).
  - rewrite Hc, app_nil_r. reflexivity.
  - split; [exists []; reflexivity|]. split; [intros r _; apply Hnil|].
    rewrite Hc, app_nil_r. reflexivity.
Qed.

Lemma consistent_sleep drained s out0 :
  consistent size handles n_min n_max out drained s ->
  sys_root s = root_start out0 ->
  vec_last (handles 0) <= n_min ->
  consistent size handles n_min n_max out drained
    {| sys_net := sys_net s; sys_todo := sys_todo s;
       sys_root := root_draining (seqZ 1 (size - 1)) 0 out0 |}.
Proof.
  intros [HA HB] Hroot Hlast. split; [exact HA|].
  rewrite Hroot in HB. destruct HB as [-> Hnil]. simpl.
  split; [exists []; reflexivity|]. split; [intros r _; apply Hnil|].
  assert (Hown : owned_values (handles 0) n_min n_max = []).
  { unfold owned_values, owned_indices. rewrite seqZ_nil by lia. reflexivity. }
  rewrite Hown, concat_fmap_nil by (intros r _; apply Hnil).
  rewrite !app_nil_r. reflexivity.
Qed.

Lemma elem_of_tail (l : list Z) (r : Z) : r ∈ tail l -> r ∈ l.
Proof. destruct l; [intros H; exact H|]. simpl. intros H. right. exact H. Qed.

Lemma consistent_receive drained s from froms value stream net1 net' buffer :
  consistent size handles n_min n_max out drained s ->
  sys_root s = root_draining (from :: froms) value stream ->
  mpi_inbox cfg (process size 0) from (sys_net s) = (net1, Returns true) ->
  mpi_receive cfg (process size 0) from 1 "d" [value] net1 = (net', Returns buffer) ->
  exists drained',
    (forall r, drained r `prefix_of` drained' r) /\
    consistent size handles n_min n_max out drained'
      {| sys_net := net'; sys_todo := sys_todo s;
         sys_root := root_draining (from :: froms)
                       (default value (head buffer))
                       (fwrite_value (default value (head buffer)) stream) |}.
Proof.
  intros [HA HB] Hroot Hprobe Hrecv.
  rewrite Hroot in HB. destruct HB as ([done Hall] & Htail & Hstream).
  assert (Hfrom : 1 <= from < size).
  { assert (Hin : from ∈ seqZ 1 (size - 1)).
    { rewrite Hall. apply elem_of_app. right. left. }
    apply elem_of_seqZ in Hin. lia. }
  pose proof (NoDup_seqZ 1 (size - 1)) as Hnodup. rewrite Hall in Hnodup.
  apply NoDup_app in Hnodup as (_ & Hdone & Hnodup).
  apply NoDup_cons in Hnodup as [Hfroms _].
  rewrite (mpi_inbox_probe cfg (process size 0) from (sys_net s) Hmpi
             ltac:(simpl; lia)) in Hprobe.
  simpl this_rank in Hprobe. injection Hprobe as <- Hpending.
  destruct (HA from Hfrom) as (inflight & Hval & H666 & H667 & Hown).
  destruct inflight as [|x rest];
    [rewrite H666 in Hpending; discriminate Hpending|].
  rewrite fmap_cons in H666, H667.
  rewrite (mpi_receive_unit cfg (process size 0) from value x (sys_net s) _ _
             Hmpi ltac:(simpl; lia) H666 H667) in Hrecv.
  simpl this_rank in Hrecv. injection Hrecv as <- <-.
  exists (with_todo drained from (drained from ++ [x])). split.
  { intros r. unfold with_todo. destruct (decide (r = from)) as [->|]; [|reflexivity].
    exists [x]. reflexivity. }
  split.
  - intros r Hr. simpl. unfold with_todo at 1.
    destruct (decide (r = from)) as [->|Hne].
    + exists rest. rewrite Hval, <- !app_assoc. simpl.
      split; [reflexivity|].
      rewrite channel_insert_ne by congruence.
      rewrite !channel_insert_eq. auto.
    + destruct (HA r Hr) as (inflight' & Hval' & H666' & H667' & Hown').
      exists inflight'. rewrite !channel_insert_ne by congruence. auto.
  - simpl. split; [exists done; exact Hall|]. split.
    + intros r Hr. unfold with_todo.
      destruct (decide (r = from)) as [->|]; [contradiction|].
      apply Htail. exact Hr.
    + rewrite Hstream, Hall. unfold fwrite_value.
      rewrite !fmap_app, !fmap_cons, !concat_app. simpl.
      rewrite !fmap_with_todo_notin by (try exact Hfroms; intros Hin; exact (Hdone _ Hin ltac:(left))).
      unfold with_todo at 1. rewrite decide_True by reflexivity.
      rewrite (concat_fmap_nil drained froms) by exact Htail.
      rewrite !app_nil_r, <- !app_assoc. reflexivity.
Qed.

Lemma consistent_next drained s from froms value stream net1 :
  consistent size handles n_min n_max out drained s ->
  sys_root s = root_draining (from :: froms) value stream ->
  mpi_inbox cfg (process size 0) from (sys_net s) = (net1, Returns false) ->
  consistent size handles n_min n_max out drained
    {| sys_net := net1; sys_todo := sys_todo s;
       sys_root := root_draining froms value stream |}.
Proof.
  intros [HA HB] Hroot Hprobe.
  rewrite Hroot in HB. destruct HB as ([done Hall] & Htail & Hstream).
  assert (Hfrom : from < size).
  { assert (Hin : from ∈ seqZ 1 (size - 1)).
    { rewrite Hall. apply elem_of_app. right. left. }
    apply elem_of_seqZ in Hin. lia. }
  rewrite (mpi_inbox_probe cfg (process size 0) from (sys_net s) Hmpi
             ltac:(simpl; lia)) in Hprobe.
  injection Hprobe as <- _.
  split; [exact HA|]. simpl.
  split; [exists (done ++ [from]); rewrite <- app_assoc; exact Hall|].
  split; [|exact Hstream].
  intros r Hr. apply Htail. simpl. apply elem_of_tail. exact Hr.
Qed.

Lemma consistent_return drained s value stream :
  consistent size handles n_min n_max out drained s ->
  sys_root s = root_draining [] value stream ->
  consistent size handles n_min n_max out drained
    {| sys_net := sys_net s; sys_todo := sys_todo s; sys_root := root_done stream |}.
Proof.
  intros [HA HB] Hroot. rewrite Hroot in HB. destruct HB as (_ & _ & Hstream).
  split; [exact HA | exact Hstream].
Qed.

Lemma consistent_reachable s0 s :
  initial size handles n_min n_max out s0 ->
  rtc (step cfg size handles n_min n_max) s0 s ->
  exists drained, consistent size handles n_min n_max out drained s.
Proof.
  intros Hinit Hreach.
  apply (rtc_ind_r (R := step cfg size handles n_min n_max)
           (fun s => exists drained, consistent size handles n_min n_max out drained s)
           s0); [| |exact Hreach].
  - exists (fun _ => []). apply consistent_initial. exact Hinit.
  - intros s1 s2 _ Hstep [drained Hc].
    destruct Hstep as [s1 r n ns net' Hr Htodo Hsend
                      |s1 out0 value out' Hroot Hlast Hwrite
                      |s1 out0 Hroot Hlast
                      |s1 from froms value stream net1 net' buffer Hroot Hprobe Hrecv
                      |s1 from froms value stream net1 Hroot Hprobe
                      |s1 value stream Hroot].
    + exists drained. exact (consistent_send drained s1 r n ns net' Hc Hr Htodo Hsend).
    + exists drained. exact (consistent_own drained s1 value out0 out' Hc Hroot Hwrite).
    + exists drained. exact (consistent_sleep drained s1 out0 Hc Hroot Hlast).
    + destruct (consistent_receive drained s1 from froms value stream net1 net' buffer
                  Hc Hroot Hprobe Hrecv) as (drained' & _ & Hc').
      exists drained'. exact Hc'.
    + exists drained.
      exact (consistent_next drained s1 from froms value stream net1 Hc Hroot Hprobe).
    + exists drained. exact (consistent_return drained s1 value stream Hc Hroot).
Qed.

End ScheduleFacts.

Lemma gather_any_schedule
    (cfg : build) (size : Z) (handles : Z -> mpi_vector) (n_min n_max : Z)
    (out : list Z) (s0 s : system) :
  USE_MPI cfg = true -> 1 <= size ->
  (forall r, 0 <= r < size -> wf_vector (handles r)) ->
  initial size handles n_min n_max out s0 ->
  rtc (step cfg size handles n_min n_max) s0 s ->
  exists drained : Z -> list Z,
    (forall r, 1 <= r < size ->
       drained r `prefix_of` owned_values (handles r) n_min n_max) /\
    (root_stream (sys_root s) = out \/
     root_stream (sys_root s) =
       out ++ owned_values (handles 0) n_min n_max ++
       concat (drained <$> seqZ 1 (size - 1))).
Proof.
  intros Hmpi Hsize Hwf Hinit Hreach.
  destruct (consistent_reachable cfg size handles n_min n_max out Hmpi Hsize Hwf
              s0 s Hinit Hreach) as (drained & HA & HB).
  exists drained. split.
  - intros r Hr. destruct (HA r Hr) as (inflight & Hval & _).
    rewrite Hval. eexists. reflexivity.
  - destruct (sys_root s) as [stream|froms value stream|stream]; simpl.
    + left. apply HB.
    + right. apply HB.
    + right. exact HB.
Qed.

(** Three schedules of the call for [[0, 3)] on four elements split 1/3.
    When the second process sends its two values before the root looks, the
    root returns with the three values on the stream; when it has sent one,
    with two; when the root runs first, it finds the inbox empty and returns
    with its own value only. *)
Example three_schedules :
  let cfg := Build_build true true true false in
  let handles := split_in_two [7; 8; 9; 10] 1 in
  let s0 := {| sys_net := ∅;
               sys_todo := fun r => owned_indices (handles r) 0 3;
               sys_root := root_start [] |} in
  (exists s, rtc (step cfg 2 handles 0 3) s0 s /\ sys_root s = root_done [7; 8; 9]) /\
  (exists s, rtc (step cfg 2 handles 0 3) s0 s /\ sys_root s = root_done [7; 8]) /\
  (exists s, rtc (step cfg 2 handles 0 3) s0 s /\ sys_root s = root_done [7]).
Proof.
  intros cfg handles s0.
  assert (Hsend : forall s n ns net',
    sys_todo s 1 = n :: ns ->
    send_owned cfg (process 2 1) (handles 1) [n] (sys_net s) = (net', Returns tt) ->
    step cfg 2 handles 0 3 s
      {| sys_net := net'; sys_todo := with_todo (sys_todo s) 1 ns;
         sys_root := sys_root s |}).
  { intros s n ns net'. apply step_send. lia. }
  split; [|split].
  - eexists. split.
    + do 2 (eapply rtc_l; [eapply Hsend; vm_compute; reflexivity|]).
      eapply rtc_l;
        [eapply (step_own cfg 2 _ 0 3);
           [reflexivity | simpl; lia | vm_compute; reflexivity]|].
      do 2 (eapply rtc_l;
              [eapply (step_receive cfg 2 _ 0 3);
                 [reflexivity | vm_compute; reflexivity | vm_compute; reflexivity]|]).
      eapply rtc_l;
        [eapply (step_next cfg 2 _ 0 3); [reflexivity | vm_compute; reflexivity]|].
      eapply rtc_l; [eapply (step_return cfg 2 _ 0 3); reflexivity|].
      apply rtc_refl.
    + reflexivity.
  - eexists. split.
    + eapply rtc_l; [eapply Hsend; vm_compute; reflexivity|].
      eapply rtc_l;
        [eapply (step_own cfg 2 _ 0 3);
           [reflexivity | simpl; lia | vm_compute; reflexivity]|].
      eapply rtc_l;
        [eapply (step_receive cfg 2 _ 0 3);
           [reflexivity | vm_compute; reflexivity | vm_compute; reflexivity]|].
      eapply rtc_l;
        [eapply (step_next cfg 2 _ 0 3); [reflexivity | vm_compute; reflexivity]|].
      eapply rtc_l; [eapply (step_return cfg 2 _ 0 3); reflexivity|].
      apply rtc_refl.
    + reflexivity.
  - eexists. split.
    + eapply rtc_l;
        [eapply (step_own cfg 2 _ 0 3);
           [reflexivity | simpl; lia | vm_compute; reflexivity]|].
      eapply rtc_l;
        [eapply (step_next cfg 2 _ 0 3); [reflexivity | vm_compute; reflexivity]|].
      eapply rtc_l; [eapply (step_return cfg 2 _ 0 3); reflexivity|].
      apply rtc_refl.
    + reflexivity.
Qed.

(** A list of integers that is strictly ascending and has the elements of
    an interval is that interval. *)
Lemma ascending_interval (ns : list Z) :
  StronglySorted Z.lt ns ->
  forall a len, (forall n, n ∈ ns <-> a <= n < a + len) -> ns = seqZ a len.
Proof.
  induction 1 as [|x ns Hsorted IH Hall]; intros a len Hmem.
  - rewrite seqZ_nil; [reflexivity|].
    destruct (Z.leb_spec len 0) as [Hle|Hlt]; [exact Hle|].
    exfalso. apply (not_elem_of_nil a). apply Hmem. lia.
  - rewrite Forall_forall in Hall.
    assert (Hx : a <= x < a + len) by (apply Hmem; left).
    assert (Ha : a ∈ x :: ns) by (apply Hmem; lia).
    assert (x = a) as ->.
    { apply elem_of_cons in Ha as [->|Ha]; [reflexivity|].
      specialize (Hall a Ha). lia. }
    rewrite (seqZ_cons a len) by lia. f_equal.
    apply IH. intros n. split.
    + intros Hn. pose proof (Hall n Hn).
      assert (a <= n < a + len) by (apply Hmem; right; exact Hn). lia.
    + intros Hn. assert (Hin : n ∈ a :: ns) by (apply Hmem; lia).
      apply elem_of_cons in Hin as [->|Hin]; [lia | exact Hin].
Qed.

Lemma seqZ_ascending (len : nat) :
  forall a, StronglySorted Z.lt (seqZ a (Z.of_nat len)).
Proof.
  induction len as [|len IH]; intros a.
  - rewrite seqZ_nil by lia. constructor.
  - rewrite seqZ_cons by lia. constructor.
    + replace (Z.pred (Z.of_nat (S len))) with (Z.of_nat len) by lia. apply IH.
    + apply Forall_forall. intros n Hn. apply elem_of_seqZ in Hn. lia.
Qed.

(** The backend's answer for an owned index is the element of that index. *)
Lemma VecGetValues_element (v : mpi_vector) (n : Z) :
  wf_vector v -> vec_first v <= n < vec_last v ->
  (VecGetValues (vec_data v) n).2 = owned_element v n.
Proof.
  intros (Hf & Hl & Hlen) Hn. unfold VecGetValues, owned_element.
  rewrite <- Hf, <- Hl.
  destruct (Z.leb_spec (vec_first v) n); [|lia].
  destruct (Z.ltb_spec n (vec_last v)); [|lia]. simpl.
  destruct (own_values (vec_data v) !! Z.to_nat (n - vec_first v)) eqn:E;
    [reflexivity|].
  apply lookup_ge_None in E. lia.
Qed.

(** C8: with the substrate and the sparse backend, and for every list [ns]
    of the indices that a process owns in [[n_min, n_max)], each once and by
    ascending index (there is one such list, and one only): a process other
    than the root sends the elements of the indices [ns] to the root, one
    value per message (header 1 on tag 666, one double on tag 667), in the
    order of [ns]; the root writes the elements of its own [ns], in that
    order, and after them what is pending from rank 1, then from rank 2,
    ..., then from rank [comm_size - 1], each in the order of arrival; so,
    when every process has sent before the root looks, the output is by
    ascending rank and, for each rank, by ascending index; and however the
    steps of the processes interleave, the stream holds at any time the
    root's own elements followed, rank after rank, by an initial part of
    the elements of each rank in ascending index order. *)
Theorem gather_order :
  (forall (v : mpi_vector) (n_min n_max : Z),
     (exists ns, ascending_owned v n_min n_max ns) /\
     (forall ns ns', ascending_owned v n_min n_max ns ->
        ascending_owned v n_min n_max ns' -> ns = ns')) /\
  (forall (cfg : build) (g : mpi_globals) (v : mpi_vector) (n_min n_max : Z)
          (ns : list Z),
     USE_MPI cfg = true -> USE_PETSC cfg = true ->
     wf_vector v -> -1 < n_min -> n_min < n_max -> n_max < vec_length v ->
     0 < comm_size g -> this_rank g <> 0 ->
     ascending_owned v n_min n_max ns ->
     forall (fuel : nat) (stream : option (list Z)) (net : network),
     exists net',
       mpi_vector_write fuel cfg g v n_min n_max stream net = (net', Returns stream) /\
       channel net' (this_rank g) 0 666 =
         channel net (this_rank g) 0 666 ++ ((fun n => unit_header) <$> ns) /\
       channel net' (this_rank g) 0 667 =
         channel net (this_rank g) 0 667 ++
         ((fun n => unit_payload (owned_element v n)) <$> ns) /\
       (forall s d t, (s, d) <> (this_rank g, 0) ->
          channel net' s d t = channel net s d t)) /\
  (forall (cfg : build) (g : mpi_globals) (v : mpi_vector) (n_min n_max : Z)
          (ns : list Z),
     USE_MPI cfg = true -> USE_PETSC cfg = true ->
     wf_vector v -> -1 < n_min -> n_min < n_max -> n_max < vec_length v ->
     0 < comm_size g -> this_rank g = 0 ->
     ascending_owned v n_min n_max ns ->
     forall (fuel : nat) (out : list Z) (net : network) (pending : Z -> list Z),
       (forall r, 1 <= r < comm_size g ->
          channel net r 0 666 = ((fun x => unit_header) <$> pending r) /\
          channel net r 0 667 = (unit_payload <$> pending r) /\
          (length (pending r) < fuel)%nat) ->
       exists net',
         mpi_vector_write fuel cfg g v n_min n_max (Some out) net =
           (net', Returns (Some (out ++ (owned_element v <$> ns) ++
                                 concat (pending <$> seqZ 1 (comm_size g - 1)))))) /\
  (forall (cfg : build) (size : Z) (handles : Z -> mpi_vector) (n_min n_max : Z)
          (ns : Z -> list Z),
     USE_MPI cfg = true -> USE_PETSC cfg = true ->
     1 <= size -> -1 < n_min -> n_min < n_max ->
     (forall r, 0 <= r < size ->
        wf_vector (handles r) /\ n_max < vec_length (handles r)) ->
     (forall r, 0 <= r < size -> ascending_owned (handles r) n_min n_max (ns r)) ->
     forall (fuel : nat) (out : list Z) (net : network),
       (forall r, 1 <= r < size ->
          channel net r 0 666 = [] /\ channel net r 0 667 = [] /\
          (length (ns r) < fuel)%nat) ->
       exists net',
         gather fuel cfg size handles n_min n_max out net =
           (net', Returns (Some (out ++
              concat ((fun r => owned_element (handles r) <$> ns r)
                        <$> seqZ 0 size))))) /\
  (forall (cfg : build) (size : Z) (handles : Z -> mpi_vector) (n_min n_max : Z)
          (ns : Z -> list Z) (out : list Z) (s0 s : system),
     USE_MPI cfg = true -> 1 <= size ->
     (forall r, 0 <= r < size -> wf_vector (handles r)) ->
     (forall r, 0 <= r < size -> ascending_owned (handles r) n_min n_max (ns r)) ->
     initial size handles n_min n_max out s0 ->
     rtc (step cfg size handles n_min n_max) s0 s ->
     exists drained : Z -> list Z,
       (forall r, 1 <= r < size ->
          drained r `prefix_of` (owned_element (handles r) <$> ns r)) /\
       (root_stream (sys_root s) = out \/
        root_stream (sys_root s) =
          out ++ (owned_element (handles 0) <$> ns 0) ++
          concat (drained <$> seqZ 1 (size - 1)))).
Proof.
  assert (owned_indices_ascending : forall v n_min n_max,
            ascending_owned v n_min n_max (owned_indices v n_min n_max)).
  { intros v n_min n_max. unfold ascending_owned, owned_indices. split.
    - set (a := Z.max n_min (vec_first v)).
      set (len := Z.min n_max (vec_last v) - a).
      destruct (Z.leb_spec len 0) as [Hle|Hlt].
      + rewrite seqZ_nil by exact Hle. constructor.
      + rewrite <- (Z2Nat.id len) by lia. apply seqZ_ascending.
    - intros n. rewrite elem_of_seqZ. lia. }
  assert (ascending_owned_unique : forall v n_min n_max ns,
            ascending_owned v n_min n_max ns -> ns = owned_indices v n_min n_max).
  { intros v n_min n_max ns [Hsorted Hmem]. unfold owned_indices.
    apply ascending_interval; [exact Hsorted|].
    intros n. rewrite Hmem. lia. }
  assert (owned_values_elements : forall v n_min n_max ns,
            wf_vector v -> ascending_owned v n_min n_max ns ->
            owned_values v n_min n_max = (owned_element v <$> ns)).
  { intros v n_min n_max ns Hwf Hns.
    rewrite (ascending_owned_unique v n_min n_max ns Hns).
    unfold owned_values, owned_indices. apply list_fmap_ext. intros i n Hi.
    apply VecGetValues_element; [exact Hwf|].
    apply list_elem_of_lookup_2, elem_of_seqZ in Hi. lia. }
  split; [|split; [|split; [|split]]].
  - intros v n_min n_max. split.
    + exists (owned_indices v n_min n_max). apply owned_indices_ascending.
    + intros ns ns' H H'.
      rewrite (ascending_owned_unique v n_min n_max ns H).
      rewrite (ascending_owned_unique v n_min n_max ns' H'). reflexivity.
  - intros cfg g v n_min n_max ns Hmpi Hpetsc Hwf H1 H2 H3 Hsize Hrank Hns
           fuel stream net.
    destruct (vector_write_sender cfg g v n_min n_max Hmpi Hpetsc Hwf H1 H2 H3
                Hsize Hrank fuel stream net) as (net' & E & H666 & H667 & Hother).
    exists net'. split; [exact E|].
    rewrite (owned_values_elements v n_min n_max ns Hwf Hns) in H666, H667.
    rewrite <- !list_fmap_compose in H666, H667.
    split; [exact H666|]. split; [exact H667 | exact Hother].
  - intros cfg g v n_min n_max ns Hmpi Hpetsc Hwf H1 H2 H3 Hsize Hrank Hns
           fuel out net pending Hpending.
    rewrite <- (owned_values_elements v n_min n_max ns Hwf Hns).
    exact (vector_write_root cfg g v n_min n_max Hmpi Hpetsc Hwf H1 H2 H3
             Hsize Hrank fuel out net pending Hpending).
  - intros cfg size handles n_min n_max ns.
    intros Hmpi Hpetsc Hsize H1 H2 Hh Hns fuel out net Hidle.
    assert (Hval : forall r, 0 <= r < size ->
              owned_values (handles r) n_min n_max = (owned_element (handles r) <$> ns r)).
    { intros r Hr. apply owned_values_elements; [apply (Hh r Hr) | apply (Hns r Hr)]. }
    destruct (run_senders_channels cfg size handles n_min n_max Hmpi Hpetsc H1 H2 Hh
                fuel (seqZ 1 (size - 1)) (NoDup_seqZ _ _)
                ltac:(intros r Hr; apply elem_of_seqZ in Hr; lia) net)
      as (net1 & E & Hch).
    destruct (Hh 0 ltac:(lia)) as [Hwf H3].
    destruct (vector_write_root cfg (process size 0) (handles 0) n_min n_max
                Hmpi Hpetsc Hwf H1 H2 H3 ltac:(simpl; lia) eq_refl
                fuel out net1 (fun r => owned_element (handles r) <$> ns r))
      as (net' & E').
    { simpl comm_size. intros r Hr.
      destruct (Hch r) as [A B]. destruct (Hidle r Hr) as (I666 & I667 & Hfuel).
      rewrite A, B, I666, I667.
      rewrite (bool_decide_eq_true_2 (r ∈ seqZ 1 (size - 1)))
        by (apply elem_of_seqZ; lia).
      rewrite (Hval r) by lia. rewrite length_fmap.
      split; [reflexivity|]. split; [reflexivity | exact Hfuel]. }
    exists net'. unfold gather. rewrite (bind_returns _ _ _ _ _ E), E'.
    simpl comm_size. rewrite (seqZ_cons 0 size) by lia.
    rewrite fmap_cons. simpl concat.
    replace (Z.succ 0) with 1 by reflexivity.
    replace (Z.pred size) with (size - 1) by lia.
    rewrite (Hval 0) by lia. reflexivity.
  - intros cfg size handles n_min n_max ns out s0 s Hmpi Hsize Hwf Hns Hinit Hreach.
    destruct (gather_any_schedule cfg size handles n_min n_max out s0 s
                Hmpi Hsize Hwf Hinit Hreach) as (drained & Hprefix & Hstream).
    exists drained. split.
    + intros r Hr.
      rewrite <- (owned_values_elements (handles r) n_min n_max (ns r))
        by (first [apply Hwf | apply Hns]; lia).
      apply Hprefix. exact Hr.
    + rewrite <- (owned_values_elements (handles 0) n_min n_max (ns 0))
        by (first [apply Hwf | apply Hns]; lia).
      exact Hstream.
Qed.

Lemma gather_order_witness :
  let cfg := Build_build true true true false in
  let handles := split_in_two [10; 11; 12; 13; 14; 15; 16; 17; 18; 19] 5 in
  (forall (fuel : nat) (stream : option (list Z)) (net : network),
   exists net',
     mpi_vector_write fuel cfg (process 2 1) (handles 1) 0 9 stream net
       = (net', Returns stream) /\
     channel net' 1 0 666 =
       channel net 1 0 666 ++ [unit_header; unit_header; unit_header; unit_header] /\
     channel net' 1 0 667 =
       channel net 1 0 667 ++
       [unit_payload 15; unit_payload 16; unit_payload 17; unit_payload 18] /\
     (forall s d t, (s, d) <> (1, 0) -> channel net' s d t = channel net s d t)) /\
  (forall (fuel : nat) (out : list Z) (net : network) (pending : Z -> list Z),
     (forall r, 1 <= r < 2 ->
        channel net r 0 666 = ((fun x => unit_header) <$> pending r) /\
        channel net r 0 667 = (unit_payload <$> pending r) /\
        (length (pending r) < fuel)%nat) ->
     exists net',
       mpi_vector_write fuel cfg (process 2 0) (handles 0) 0 9 (Some out) net
       = (net', Returns (Some (out ++ [10; 11; 12; 13; 14] ++
                                concat (pending <$> seqZ 1 (2 - 1)))))) /\
  (exists net',
     gather 9 cfg 2 handles 0 9 [] ∅
     = (net', Returns (Some [10; 11; 12; 13; 14; 15; 16; 17; 18]))) /\
  (forall s : system,
     rtc (step cfg 2 handles 0 9)
       {| sys_net := ∅;
          sys_todo := fun r => owned_indices (handles r) 0 9;
          sys_root := root_start [] |} s ->
     exists drained : Z -> list Z,
       (forall r, 1 <= r < 2 -> drained r `prefix_of` [15; 16; 17; 18]) /\
       (root_stream (sys_root s) = [] \/
        root_stream (sys_root s) =
          [] ++ [10; 11; 12; 13; 14] ++ concat (drained <$> seqZ 1 (2 - 1)))).
Proof.
  intros cfg handles.
  set (ns := fun r : Z => if r =? 0 then [0; 1; 2; 3; 4] else [5; 6; 7; 8]).
  assert (Hns : forall r, 0 <= r < 2 -> ascending_owned (handles r) 0 9 (ns r)).
  { intros r Hr. assert (r = 0 \/ r = 1) as [-> | ->] by lia; split.
    - repeat constructor.
    - intros n. unfold ns. simpl. rewrite !elem_of_cons, elem_of_nil. lia.
    - repeat constructor.
    - intros n. unfold ns. simpl. rewrite !elem_of_cons, elem_of_nil. lia. }
  assert (Hwf : forall r, 0 <= r < 2 -> wf_vector (handles r)).
  { intros r Hr. assert (r = 0 \/ r = 1) as [-> | ->] by lia; repeat split. }
  split; [|split; [|split]].
  - intros fuel stream net.
    apply (proj1 (proj2 gather_order) cfg (process 2 1) (handles 1) 0 9 (ns 1)).
    + reflexivity.
    + reflexivity.
    + apply Hwf. lia.
    + lia.
    + lia.
    + simpl. lia.
    + simpl. lia.
    + simpl. lia.
    + apply Hns. lia.
  - intros fuel out net pending Hpending.
    apply (proj1 (proj2 (proj2 gather_order)) cfg (process 2 0) (handles 0) 0 9 (ns 0)).
    + reflexivity.
    + reflexivity.
    + apply Hwf. lia.
    + lia.
    + lia.
    + simpl. lia.
    + simpl. lia.
    + reflexivity.
    + apply Hns. lia.
    + exact Hpending.
  - apply (proj1 (proj2 (proj2 (proj2 gather_order))) cfg 2 handles 0 9 ns).
    + reflexivity.
    + reflexivity.
    + lia.
    + lia.
    + lia.
    + intros r Hr. split; [apply Hwf; exact Hr|].
      assert (r = 0 \/ r = 1) as [-> | ->] by lia; simpl; lia.
    + exact Hns.
    + intros r Hr. assert (r = 1) as -> by lia.
      split; [reflexivity|]. split; [reflexivity|]. simpl. lia.
  - intros s Hreach.
    destruct (proj2 (proj2 (proj2 (proj2 gather_order))) cfg 2 handles 0 9 ns []
                {| sys_net := ∅;
                   sys_todo := fun r => owned_indices (handles r) 0 9;
                   sys_root := root_start [] |} s)
      as (drained & Hprefix & Hstream).
    + reflexivity.
    + lia.
    + exact Hwf.
    + exact Hns.
    + split; [|reflexivity]. intros r Hr.
      split; [reflexivity|]. split; reflexivity.
    + exact Hreach.
    + exists drained. split; [|exact Hstream].
      intros r Hr. assert (r = 1) as -> by lia. exact (Hprefix 1 Hr).
Defined.

(** * Further properties *)

(** ** Task partitioner *)

(** X1: for every communicator size and every number of tasks,
    [mpi_set_tasks] leaves the quotient [max_task / size] in [chunk_size]
    and the remainder [max_task mod size] in [extra_tasks], also when the
    intermediate [last_rank_index] wraps around: the leftover pool is
    smaller than the number of processes, and chunks and pool add up to
    [max_task]. *)
Theorem set_tasks_remainder (size max_task r : Z) :
  1 <= size < SIZE_MODULUS -> 0 < max_task < SIZE_MODULUS ->
  exists g, mpi_set_tasks (process size r) max_task = Returns g /\
    chunk_size g = max_task / size /\
    extra_tasks g = max_task mod size /\
    0 <= extra_tasks g < size /\
    size * chunk_size g + extra_tasks g = max_task.
Proof.
  intros Hsize Htask.
  destruct (mpi_set_tasks_process size max_task Hsize Htask r)
    as (g & Hg & _ & _ & Hc & _ & He & _).
  exists g. split; [exact Hg|]. split; [exact Hc|]. split; [exact He|].
  rewrite He, Hc. split.
  - apply Z.mod_pos_bound. lia.
  - pose proof (Z.div_mod max_task size ltac:(lia)). lia.
Qed.

Lemma set_tasks_remainder_witness :
  exists g, mpi_set_tasks (process 4 1) 10 = Returns g /\
    chunk_size g = 10 / 4 /\
    extra_tasks g = 10 mod 4 /\
    0 <= extra_tasks g < 4 /\
    4 * chunk_size g + extra_tasks g = 10.
Proof. apply (set_tasks_remainder 4 10 1); vm_compute; split; congruence. Defined.

(** X2: the value 0 that [mpi_extra_task] returns for "no extra task" is
    also the index of a task.  As long as [last_rank_index + rank + 1] does
    not wrap around, the two meet in one case only: the process of rank 0
    when there are fewer tasks than processes, whose extra task is task
    0. *)
Theorem extra_task_sentinel (size max_task r : Z) (g : mpi_globals) :
  1 <= size < SIZE_MODULUS -> 0 < max_task < SIZE_MODULUS ->
  extra_index_fits size max_task -> 0 <= r < size ->
  mpi_set_tasks (process size r) max_task = Returns g ->
  (has_extra_task g = true /\ mpi_extra_task g = 0) <->
  (r = 0 /\ max_task < size).
Proof.
  intros Hsize Htask Hfits Hr Hg.
  pose proof (has_extra_task_fits size max_task Hsize Htask r g Hfits Hr Hg) as Hhas.
  pose proof (mpi_extra_task_fits size max_task Hsize Htask r g Hfits Hr Hg) as Hextra.
  pose proof (chunk_bounds size max_task Hsize Htask) as [Hc0 Hb].
  pose proof (remainder_eq size max_task Hsize) as Hrem.
  split.
  - intros [Htrue Hzero]. rewrite Htrue in Hextra. rewrite Hextra in Hzero.
    assert (max_task / size = 0) by nia.
    split; [nia|]. nia.
  - intros [-> Hlt].
    assert (Hq : max_task / size = 0) by (apply Z.div_small; lia).
    assert (Htrue : has_extra_task g = true).
    { apply Hhas. rewrite Z.mod_small by lia. lia. }
    split; [exact Htrue|]. rewrite Hextra, Htrue, Hq. lia.
Qed.

Lemma extra_task_sentinel_witness :
  exists g, mpi_set_tasks (process 4 0) 2 = Returns g /\
    ((has_extra_task g = true /\ mpi_extra_task g = 0) <-> (0 = 0 /\ 2 < 4)).
Proof.
  eexists. split; [reflexivity|].
  apply (extra_task_sentinel 4 2 0).
  - vm_compute. split; congruence.
  - vm_compute. split; congruence.
  - right. vm_compute. congruence.
  - lia.
  - reflexivity.
Defined.

(** ** Start-up and teardown *)

Import Topology.

(** X3: in a build with the substrate, [mpi_init] on the statics as the
    program starts with them leaves the rank and the size that the
    substrate reports, with the rank below the size, and nothing else
    changed but the thread level, which is resolved only in a build without
    the sparse backend: the four statics of the task partitioner are what
    they were, in every build and whatever the thread level is. *)
Theorem init_resolves_topology
    (cfg : build) (env : environment) (argc : Z) (argv : list string) :
  USE_MPI cfg = true -> 0 < argc ->
  (USE_PETSC cfg = true -> PetscInitialize env = 0) ->
  (USE_PETSC cfg = true -> USE_SLEPC cfg = true -> SlepcInitialize env = 0) ->
  0 <= MPI_Comm_rank env < MPI_Comm_size env -> MPI_Comm_size env < UINT_MODULUS ->
  0 <= MPI_Init_thread env < UINT_MODULUS ->
  (mpi_init cfg env argc (Some argv) initial_globals =
     Returns {| this_rank := MPI_Comm_rank env;
                comm_size := MPI_Comm_size env;
                thread_level := if USE_PETSC cfg then thread_level initial_globals
                                else MPI_Init_thread env;
                chunk_size := chunk_size initial_globals;
                tasks := tasks initial_globals;
                extra_tasks := extra_tasks initial_globals;
                last_rank_index := last_rank_index initial_globals |}) /\
  (exists g, mpi_init cfg env argc (Some argv) initial_globals = Returns g /\
     mpi_rank g = MPI_Comm_rank env /\
     mpi_comm_size g = MPI_Comm_size env /\
     mpi_rank g < mpi_comm_size g /\
     mpi_thread_level g = (if USE_PETSC cfg then 0 else MPI_Init_thread env) /\
     chunk_size g = chunk_size initial_globals /\
     tasks g = tasks initial_globals /\
     extra_tasks g = extra_tasks initial_globals /\
     last_rank_index g = last_rank_index initial_globals /\
     (mpi_thread_level g = 0 ->
      g = process (MPI_Comm_size env) (MPI_Comm_rank env))).
Proof.
  intros Hmpi Hargc Hpetsc Hslepc Hrank Hsize Hlevel.
  assert (Hstore : forall old v, 0 <= old < UINT_MODULUS -> 0 <= v < UINT_MODULUS ->
            store_int old v = v).
  { intros old v Hold Hv. unfold store_int.
    rewrite Z.div_small by exact Hold. rewrite Z.mod_small by exact Hv. reflexivity. }
  assert (Hword : 0 <= 0 < UINT_MODULUS /\ 0 <= 1 < UINT_MODULUS)
    by (vm_compute; repeat split; congruence).
  destruct Hword as [Hword0 Hword1].
  assert (Hinit : mpi_init cfg env argc (Some argv) initial_globals =
    Returns {| this_rank := MPI_Comm_rank env;
               comm_size := MPI_Comm_size env;
               thread_level := if USE_PETSC cfg then thread_level initial_globals
                               else MPI_Init_thread env;
               chunk_size := chunk_size initial_globals;
               tasks := tasks initial_globals;
               extra_tasks := extra_tasks initial_globals;
               last_rank_index := last_rank_index initial_globals |}).
  { unfold mpi_init. rewrite Hmpi.
    assert ((0 <? argc) = true) as -> by lia.
    rewrite bool_decide_eq_true_2 by eauto. cbn [ASSERT].
    cbn [this_rank comm_size thread_level chunk_size tasks extra_tasks
         last_rank_index initial_globals].
    rewrite !Hstore by (first [exact Hword0 | exact Hword1 | lia]).
    destruct (USE_PETSC cfg) eqn:Ep.
    + rewrite (Hpetsc eq_refl), check_petsc_ok.
      destruct (USE_SLEPC cfg) eqn:Es; cbn [andb].
      * rewrite (Hslepc eq_refl eq_refl), check_petsc_ok. reflexivity.
      * reflexivity.
    + reflexivity. }
  split; [exact Hinit|].
  eexists. split; [exact Hinit|].
  cbn [mpi_rank mpi_comm_size mpi_thread_level this_rank comm_size thread_level
       chunk_size tasks extra_tasks last_rank_index initial_globals].
  split; [reflexivity|]. split; [reflexivity|]. split; [lia|].
  split; [reflexivity|].
  split; [reflexivity|]. split; [reflexivity|].
  split; [reflexivity|]. split; [reflexivity|].
  intros Hzero. unfold process. cbn [thread_level initial_globals].
  cbn [chunk_size tasks extra_tasks last_rank_index].
  rewrite Hzero. reflexivity.
Qed.

Lemma init_resolves_topology_witness :
  (mpi_init (Build_build true false false false)
     {| PetscInitialize := 0; SlepcInitialize := 0; MPI_Init_thread := 2;
        MPI_Comm_rank := 1; MPI_Comm_size := 4; SlepcFinalize := 0;
        PetscFinalize := 0 |} 1 (Some []) initial_globals =
   Returns {| this_rank := 1; comm_size := 4; thread_level := 2;
              chunk_size := 1; tasks := 1; extra_tasks := 0;
              last_rank_index := 0 |}) /\
  (mpi_init (Build_build true true true false)
     {| PetscInitialize := 0; SlepcInitialize := 0; MPI_Init_thread := 2;
        MPI_Comm_rank := 1; MPI_Comm_size := 4; SlepcFinalize := 0;
        PetscFinalize := 0 |} 1 (Some []) initial_globals =
   Returns {| this_rank := 1; comm_size := 4; thread_level := 0;
              chunk_size := 1; tasks := 1; extra_tasks := 0;
              last_rank_index := 0 |}).
Proof.
  split.
  - apply (init_resolves_topology (Build_build true false false false)
             {| PetscInitialize := 0; SlepcInitialize := 0; MPI_Init_thread := 2;
                MPI_Comm_rank := 1; MPI_Comm_size := 4; SlepcFinalize := 0;
                PetscFinalize := 0 |} 1 []).
    + reflexivity.
    + lia.
    + intros H. discriminate H.
    + intros H. discriminate H.
    + simpl. lia.
    + reflexivity.
    + simpl. split; [lia | reflexivity].
  - apply (init_resolves_topology (Build_build true true true false)
             {| PetscInitialize := 0; SlepcInitialize := 0; MPI_Init_thread := 2;
                MPI_Comm_rank := 1; MPI_Comm_size := 4; SlepcFinalize := 0;
                PetscFinalize := 0 |} 1 []).
    + reflexivity.
    + lia.
    + reflexivity.
    + reflexivity.
    + simpl. lia.
    + reflexivity.
    + simpl. split; [lia | reflexivity].
Defined.

(** X4: a failure of an initialiser of the sparse backend is fatal, and it
    is reported before the rank has been resolved: the diagnostic of
    [mpi_init] names rank 0 on every process.  A failure of a finaliser is
    never fatal: [mpi_end] returns whatever the codes are, with one
    diagnostic per failure on the error stream, that of [SlepcFinalize]
    first. *)
Theorem init_halts_end_returns
    (cfg : build) (env : environment) (argc : Z) (argv : list string)
    (g : mpi_globals) (stderr : list diagnostic) :
  USE_PETSC cfg = true -> 0 < argc ->
  (PetscInitialize env <> 0 ->
   mpi_init cfg env argc (Some argv) initial_globals =
     Halts (exit_failure (petsc_failure 0 "PetscInitialize()" (PetscInitialize env)))) /\
  (PetscInitialize env = 0 -> USE_SLEPC cfg = true -> SlepcInitialize env <> 0 ->
   mpi_init cfg env argc (Some argv) initial_globals =
     Halts (exit_failure (petsc_failure 0 "SlepcInitialize()" (SlepcInitialize env)))) /\
  mpi_end cfg env g stderr =
    Returns (stderr ++
      (if USE_SLEPC cfg && negb (SlepcFinalize env =? 0)
       then [petsc_failure (this_rank g) "SlepcFinalize()" (SlepcFinalize env)]
       else []) ++
      (if negb (PetscFinalize env =? 0)
       then [petsc_failure (this_rank g) "PetscFinalize()" (PetscFinalize env)]
       else [])).
Proof.
  intros Hpetsc Hargc.
  assert (Hbool : bool_decide (is_Some (Some argv)) = true)
    by (apply bool_decide_eq_true_2; eauto).
  split; [|split].
  - intros Hcode. unfold mpi_init. rewrite Hpetsc, Hbool.
    assert ((0 <? argc) = true) as -> by lia.
    cbn [ASSERT]. unfold CHECK_PETSC_ERROR.
    assert ((PetscInitialize env =? 0) = false) as -> by lia. reflexivity.
  - intros Hzero Hslepc Hcode. unfold mpi_init. rewrite Hpetsc, Hslepc, Hbool.
    assert ((0 <? argc) = true) as -> by lia.
    cbn [ASSERT andb]. rewrite Hzero, check_petsc_ok. unfold CHECK_PETSC_ERROR.
    assert ((SlepcInitialize env =? 0) = false) as -> by lia. reflexivity.
  - unfold mpi_end, CHECK_PETSC_ERROR_on. rewrite Hpetsc. cbn [andb].
    destruct (USE_SLEPC cfg); cbn [andb];
      destruct (SlepcFinalize env =? 0); destruct (PetscFinalize env =? 0);
      cbn [negb]; rewrite ?app_nil_r, <- ?app_assoc; reflexivity.
Qed.

Lemma init_halts_end_returns_witness :
  let env := {| PetscInitialize := 76; SlepcInitialize := 0; MPI_Init_thread := 0;
                MPI_Comm_rank := 3; MPI_Comm_size := 4; SlepcFinalize := 0;
                PetscFinalize := 56 |} in
  mpi_init (Build_build true true true false) env 1 (Some []) initial_globals =
    Halts (exit_failure (petsc_failure 0 "PetscInitialize()" 76)) /\
  mpi_end (Build_build true true true false) env (process 4 3) [] =
    Returns [petsc_failure 3 "PetscFinalize()" 56].
Proof.
  intros env.
  destruct (init_halts_end_returns (Build_build true true true false) env 1 []
              (process 4 3) [] eq_refl ltac:(lia)) as (Hinit & _ & Hend).
  split.
  - apply Hinit. discriminate.
  - exact Hend.
Defined.

(** X5: in a build without the substrate, [mpi_init] leaves every process
    alone in its communicator, however many processes have been started:
    after [mpi_set_tasks(max_task)] each of them has the whole range
    [[0, max_task - 1]] as its main chunk and no extra task. *)
Theorem tasks_without_substrate
    (cfg : build) (env : environment) (argc : Z) (argv : list string)
    (max_task : Z) :
  USE_MPI cfg = false -> 0 < argc ->
  (USE_PETSC cfg = true -> PetscInitialize env = 0) ->
  (USE_PETSC cfg = true -> USE_SLEPC cfg = true -> SlepcInitialize env = 0) ->
  0 < max_task < SIZE_MODULUS ->
  exists g,
    outcome_bind (mpi_init cfg env argc (Some argv) initial_globals)
      (fun g0 => mpi_set_tasks g0 max_task) = Returns g /\
    mpi_rank g = 0 /\ mpi_comm_size g = 1 /\
    mpi_first_task g = 0 /\ mpi_last_task g = max_task - 1 /\
    has_extra_task g = false /\ mpi_extra_task g = 0.
Proof.
  intros Hmpi Hargc Hpetsc Hslepc Htask.
  assert (Hinit : mpi_init cfg env argc (Some argv) initial_globals =
                  Returns (process 1 0)).
  { unfold mpi_init. rewrite Hmpi.
    assert ((0 <? argc) = true) as -> by lia.
    rewrite bool_decide_eq_true_2 by eauto. cbn [ASSERT].
    destruct (USE_PETSC cfg) eqn:Ep.
    - rewrite (Hpetsc eq_refl), check_petsc_ok.
      destruct (USE_SLEPC cfg) eqn:Es; cbn [andb].
      + rewrite (Hslepc eq_refl eq_refl), check_petsc_ok. reflexivity.
      + reflexivity.
    - reflexivity. }
  rewrite Hinit. cbn [outcome_bind].
  assert (Hone : 1 <= 1 < SIZE_MODULUS) by (vm_compute; split; congruence).
  destruct (mpi_set_tasks_process 1 max_task Hone Htask 0)
    as (g & Hg & Hr & Hs & Hc & Ht & He & Hl).
  exists g. split; [exact Hg|].
  rewrite Z.div_1_r in Hc. rewrite Z.mod_1_r in He.
  unfold mpi_rank, mpi_comm_size, mpi_first_task, mpi_last_task, has_extra_task,
    mpi_extra_task, extra_task_index.
  rewrite Hr, Hs, Hc, He, Ht.
  split; [reflexivity|]. split; [reflexivity|]. split; [reflexivity|]. split.
  - size_norm. rewrite Z.mul_0_l, Z.add_0_l. apply size_wrap_small.
    unfold is_size_t. lia.
  - split; [reflexivity|]. cbn [Z.ltb Z.compare].
    assert ((0 <? max_task) = true) as -> by lia. reflexivity.
Qed.

Lemma tasks_without_substrate_witness :
  exists g,
    outcome_bind
      (mpi_init (Build_build false false false false)
         {| PetscInitialize := 0; SlepcInitialize := 0; MPI_Init_thread := 0;
            MPI_Comm_rank := 2; MPI_Comm_size := 4; SlepcFinalize := 0;
            PetscFinalize := 0 |} 1 (Some []) initial_globals)
      (fun g0 => mpi_set_tasks g0 10) = Returns g /\
    mpi_rank g = 0 /\ mpi_comm_size g = 1 /\
    mpi_first_task g = 0 /\ mpi_last_task g = 10 - 1 /\
    has_extra_task g = false /\ mpi_extra_task g = 0.
Proof.
  apply (tasks_without_substrate (Build_build false false false false)
           {| PetscInitialize := 0; SlepcInitialize := 0; MPI_Init_thread := 0;
              MPI_Comm_rank := 2; MPI_Comm_size := 4; SlepcFinalize := 0;
              PetscFinalize := 0 |} 1 [] 10).
  - reflexivity.
  - lia.
  - discriminate.
  - discriminate.
  - vm_compute. split; congruence.
Defined.

(** X6: the build report and the query disagree about the eigensolver:
    [mpi_about] writes [using SLEPc = yes] whenever [USE_SLEPC] is defined,
    [mpi_using_slepc] answers [true] only if [USE_PETSC] is defined as
    well.  They agree exactly in the builds with [USE_PETSC] or without
    [USE_SLEPC]. *)
Theorem about_reports_slepc (cfg : build) (date file : string) (lines : list string) :
  exists report,
    mpi_about cfg date file (Some lines) = Returns (lines ++ report) /\
    length report = 5%nat /\
    (last report = Some "# using SLEPc = yes"%string <-> USE_SLEPC cfg = true) /\
    ((last report = Some "# using SLEPc = yes"%string <-> mpi_using_slepc cfg = true)
     <-> (USE_PETSC cfg = true \/ USE_SLEPC cfg = false)) /\
    mpi_about cfg date file None = Halts assertion_failed.
Proof.
  eexists. split; [|split; [|split; [|split]]].
  - unfold mpi_about. rewrite bool_decide_eq_true_2 by eauto. reflexivity.
  - reflexivity.
  - cbn [last]. destruct (USE_SLEPC cfg); split; intros H;
      first [reflexivity | discriminate H | congruence].
  - cbn [last]. unfold mpi_using_slepc.
    destruct (USE_PETSC cfg), (USE_SLEPC cfg); cbn [andb];
      (split; [intros Hiff | intros Hor; split; intros H]);
      first [ left; reflexivity | right; reflexivity | reflexivity
            | discriminate H | congruence
            | destruct Hor as [Hor | Hor]; discriminate Hor
            | destruct Hiff as [Hiff _]; discriminate (Hiff eq_refl) ].
  - reflexivity.
Qed.

(** ** Typed messaging protocol *)

(** What a returning [mpi_send] leaves on the channels: the header and the
    payload behind what was there, and every other channel pair as it
    was. *)
Lemma mpi_send_channels cfg g to n type data net :
  USE_MPI cfg = true -> 0 < n <= INT_MAX -> to < comm_size g ->
  supported_type type = true -> Z.of_nat (length data) = n ->
  exists net',
    mpi_send cfg g to n type data net = (net', Returns tt) /\
    channel net' (this_rank g) to 666 =
      channel net (this_rank g) to 666 ++
      [{| msg_type := MPI_UNSIGNED; msg_data := [n] |}] /\
    channel net' (this_rank g) to 667 =
      channel net (this_rank g) to 667 ++
      [{| msg_type := datatype_of type; msg_data := data |}] /\
    (forall s d t, (s, d) <> (this_rank g, to) ->
       channel net' s d t = channel net s d t).
Proof.
  intros Hmpi Hn Hto Hty Hlen.
  pose proof (mpi_send_returns cfg g to n type data net Hmpi Hn Hto Hty ltac:(lia))
    as Hsend.
  cbv zeta in Hsend.
  rewrite (channel_insert_ne net _ _ _ 667) in Hsend by congruence.
  rewrite firstn_all2 in Hsend by lia.
  eexists. split; [exact Hsend|]. split; [|split].
  - rewrite channel_insert_ne by congruence. apply channel_insert_eq.
  - apply channel_insert_eq.
  - intros s d t Hsd. rewrite !channel_insert_ne by congruence. reflexivity.
Qed.

(** What [mpi_receive] does with a whole message at the head of the
    channels when the buffer has room for it. *)
Lemma mpi_receive_whole cfg g from n type buffer net hs ty payload ps :
  USE_MPI cfg = true -> from < comm_size g -> supported_type type = true ->
  0 < n <= INT_MAX -> Z.of_nat (length payload) = n ->
  Z.of_nat (length buffer) = n ->
  channel net from (this_rank g) 666 =
    {| msg_type := MPI_UNSIGNED; msg_data := [n] |} :: hs ->
  channel net from (this_rank g) 667 =
    {| msg_type := ty; msg_data := payload |} :: ps ->
  exists net',
    mpi_receive cfg g from n type buffer net = (net', Returns payload) /\
    channel net' from (this_rank g) 666 = hs /\
    channel net' from (this_rank g) 667 = ps /\
    (forall s d t, (s, d) <> (from, this_rank g) ->
       channel net' s d t = channel net s d t).
Proof.
  intros Hmpi Hfrom Hty Hn Hpay Hbuf Hctl Hdat.
  pose proof (mpi_receive_pending cfg g from n type buffer net n hs ty payload ps
                Hmpi ltac:(lia) Hfrom Hty Hctl Hdat ltac:(lia)) as Hrecv.
  cbv zeta in Hrecv. rewrite Z.min_id in Hrecv.
  rewrite firstn_all2 in Hrecv by lia.
  rewrite (drop_ge payload) in Hrecv by lia.
  rewrite (drop_ge buffer) in Hrecv by lia.
  rewrite app_nil_r in Hrecv.
  eexists. split; [apply Hrecv; lia|]. split; [|split].
  - rewrite channel_insert_ne by congruence. apply channel_insert_eq.
  - apply channel_insert_eq.
  - intros s d t Hsd. rewrite !channel_insert_ne by congruence. reflexivity.
Qed.

(** X7: [mpi_inbox] only looks: whatever it answers, the network is as it
    was, so that asking again gives the same answer and a message that it
    has seen is still there for [mpi_receive].  It answers [true] exactly
    when the build has the substrate and a header from [from] waits on the
    control channel; a rank that is not in the communicator fails the
    assertion. *)
Theorem inbox_leaves_messages
    (cfg : build) (g : mpi_globals) (from : Z) (net : network) :
  exists o,
    mpi_inbox cfg g from net = (net, o) /\
    (mpi_inbox cfg g from ;; mpi_inbox cfg g from) net = (net, o) /\
    (o = Returns true <->
       USE_MPI cfg = true /\ from < comm_size g /\
       channel net from (this_rank g) 666 <> []) /\
    (o = Halts assertion_failed <-> comm_size g <= from) /\
    (from < comm_size g -> o = Returns true \/ o = Returns false).
Proof.
  unfold mpi_inbox, ASSERT_RANK, assert, ASSERT, stop, MPI_Iprobe.
  unfold mbind, comm_bind, bind, mret, comm_ret, ret.
  destruct (Z.ltb_spec from (comm_size g)) as [Hlt | Hge].
  - destruct (USE_MPI cfg).
    + destruct (channel net from (this_rank g) 666) as [|msg rest] eqn:Hch.
      * exists (Returns false). rewrite ?Hch.
        split; [reflexivity|]. split; [reflexivity|].
        split; [split; [discriminate | intros (_ & _ & H); congruence]|].
        split; [split; [discriminate | lia]|]. intros _. right. reflexivity.
      * exists (Returns true). rewrite ?Hch.
        split; [reflexivity|]. split; [reflexivity|].
        split; [split; [intros _; repeat split; [exact Hlt | discriminate]
                       | reflexivity]|].
        split; [split; [discriminate | lia]|]. intros _. left. reflexivity.
    + exists (Returns false).
      split; [reflexivity|]. split; [reflexivity|].
      split; [split; [discriminate | intros (H & _); discriminate H]|].
      split; [split; [discriminate | lia]|]. intros _. right. reflexivity.
  - exists (Halts assertion_failed).
    split; [reflexivity|]. split; [reflexivity|].
    split; [split; [discriminate | intros (_ & H & _); lia]|].
    split; [split; [intros _; exact Hge | reflexivity]|]. lia.
Qed.

(** X8: in a build without the substrate the three calls are inert: within
    their assertions, [mpi_send] and [mpi_receive] return with the network
    and the buffer as they were, for every type character, also one that a
    build with the substrate takes for a fatal error, and [mpi_inbox]
    answers [false]. *)
Theorem messaging_without_substrate
    (cfg : build) (g : mpi_globals) (peer n : Z) (type : ascii)
    (data : list Z) (net : network) :
  USE_MPI cfg = false -> 0 < n -> peer < comm_size g ->
  mpi_send cfg g peer n type data net = (net, Returns tt) /\
  mpi_receive cfg g peer n type data net = (net, Returns data) /\
  mpi_inbox cfg g peer net = (net, Returns false).
Proof.
  intros Hmpi Hn Hpeer.
  unfold mpi_send, mpi_receive, mpi_inbox, ASSERT_RANK. rewrite Hmpi.
  rewrite (proj2 (Z.ltb_lt 0 n)) by lia.
  rewrite (proj2 (Z.ltb_lt peer (comm_size g))) by lia.
  repeat split.
Qed.

Lemma messaging_without_substrate_witness :
  mpi_send (Build_build false false false false) (process 1 0) 0 3 "x" [1; 2; 3] ∅
    = (∅, Returns tt) /\
  mpi_receive (Build_build false false false false) (process 1 0) 0 3 "x" [1; 2; 3] ∅
    = (∅, Returns [1; 2; 3]) /\
  mpi_inbox (Build_build false false false false) (process 1 0) 0 ∅
    = (∅, Returns false).
Proof.
  apply (messaging_without_substrate (Build_build false false false false)
           (process 1 0) 0 3 "x" [1; 2; 3] ∅).
  - reflexivity.
  - lia.
  - simpl. lia.
Defined.

(** X9: a count of zero and a peer that is not a rank of the communicator
    are contract violations in every build: [mpi_send] and [mpi_receive]
    halt on the assertion before anything is sent or taken from the
    network. *)
Theorem messaging_contract
    (cfg : build) (g : mpi_globals) (peer n : Z) (type : ascii)
    (data : list Z) (net : network) :
  n <= 0 \/ comm_size g <= peer ->
  mpi_send cfg g peer n type data net = (net, Halts assertion_failed) /\
  mpi_receive cfg g peer n type data net = (net, Halts assertion_failed).
Proof.
  intros Hbad.
  unfold mpi_send, mpi_receive, ASSERT_RANK, assert, ASSERT, stop.
  unfold mbind, comm_bind, bind.
  destruct (Z.ltb_spec 0 n) as [Hn | Hn]; [|split; reflexivity].
  destruct (Z.ltb_spec peer (comm_size g)) as [Hp | Hp]; [lia|].
  split; reflexivity.
Qed.

Lemma messaging_contract_witness :
  mpi_send (Build_build true false false false) (process 2 0) 1 0 "d" [] ∅
    = (∅, Halts assertion_failed) /\
  mpi_receive (Build_build true false false false) (process 2 0) 1 0 "d" [] ∅
    = (∅, Halts assertion_failed).
Proof.
  apply (messaging_contract (Build_build true false false false) (process 2 0)
           1 0 "d" [] ∅).
  left. lia.
Defined.

(** X10: messages between two processes arrive in the order sent: after
    two sends by one process to another on idle channels, the first
    receive there returns the first buffer and the second receive the
    second, whatever their types and lengths, and the channels are idle
    again. *)
Theorem messages_arrive_in_order
    (cfg : build) (gs gr : mpi_globals) (n1 n2 : Z) (type1 type2 : ascii)
    (buf1 buf2 out1 out2 : list Z) (net : network) :
  USE_MPI cfg = true ->
  this_rank gr < comm_size gs -> this_rank gs < comm_size gr ->
  supported_type type1 = true -> supported_type type2 = true ->
  0 < n1 <= INT_MAX -> 0 < n2 <= INT_MAX ->
  Z.of_nat (length buf1) = n1 -> Z.of_nat (length buf2) = n2 ->
  Z.of_nat (length out1) = n1 -> Z.of_nat (length out2) = n2 ->
  channel net (this_rank gs) (this_rank gr) 666 = [] ->
  channel net (this_rank gs) (this_rank gr) 667 = [] ->
  exists net',
    (mpi_send cfg gs (this_rank gr) n1 type1 buf1 ;;
     mpi_send cfg gs (this_rank gr) n2 type2 buf2 ;;
     first ← mpi_receive cfg gr (this_rank gs) n1 type1 out1;
     second ← mpi_receive cfg gr (this_rank gs) n2 type2 out2;
     mret (first, second)) net = (net', Returns (buf1, buf2)) /\
    channel net' (this_rank gs) (this_rank gr) 666 = [] /\
    channel net' (this_rank gs) (this_rank gr) 667 = [].
Proof.
  intros Hmpi Hto Hfrom Hty1 Hty2 Hn1 Hn2 Hb1 Hb2 Ho1 Ho2 Hctl Hdat.
  destruct (mpi_send_channels cfg gs (this_rank gr) n1 type1 buf1 net
              Hmpi Hn1 Hto Hty1 Hb1) as (net1 & Hs1 & H1c & H1d & _).
  destruct (mpi_send_channels cfg gs (this_rank gr) n2 type2 buf2 net1
              Hmpi Hn2 Hto Hty2 Hb2) as (net2 & Hs2 & H2c & H2d & _).
  rewrite H1c, Hctl in H2c. rewrite H1d, Hdat in H2d. simpl in H2c, H2d.
  destruct (mpi_receive_whole cfg gr (this_rank gs) n1 type1 out1 net2 _ _ buf1 _
              Hmpi Hfrom Hty1 Hn1 Hb1 Ho1 H2c H2d) as (net3 & Hr1 & H3c & H3d & _).
  destruct (mpi_receive_whole cfg gr (this_rank gs) n2 type2 out2 net3 _ _ buf2 _
              Hmpi Hfrom Hty2 Hn2 Hb2 Ho2 H3c H3d) as (net4 & Hr2 & H4c & H4d & _).
  exists net4. split; [|split; assumption].
  rewrite (bind_returns _ _ _ _ tt Hs1).
  rewrite (bind_returns _ _ _ _ tt Hs2).
  rewrite (bind_returns _ _ _ _ buf1 Hr1).
  rewrite (bind_returns _ _ _ _ buf2 Hr2).
  reflexivity.
Qed.

Lemma messages_arrive_in_order_witness :
  exists net',
    (mpi_send (Build_build true false false false) (process 2 1) 0 2 "i" [10; 20] ;;
     mpi_send (Build_build true false false false) (process 2 1) 0 1 "d" [30] ;;
     first ← mpi_receive (Build_build true false false false) (process 2 0)
               1 2 "i" [0; 0];
     second ← mpi_receive (Build_build true false false false) (process 2 0)
                1 1 "d" [0];
     mret (first, second)) ∅ = (net', Returns ([10; 20], [30])) /\
    channel net' 1 0 666 = [] /\ channel net' 1 0 667 = [].
Proof.
  apply (messages_arrive_in_order (Build_build true false false false)
           (process 2 1) (process 2 0) 2 1 "i" "d" [10; 20] [30] [0; 0] [0] ∅);
    first [reflexivity | simpl; lia | unfold INT_MAX; lia].
Defined.

(** ** Gather-output, further *)

Import Layout.

(** After the other processes have run the call to its end, the root
    writes what each process owns of the range, by rank. *)
Lemma gather_all_sent
    (cfg : build) (size : Z) (handles : Z -> mpi_vector) (n_min n_max : Z) :
  USE_MPI cfg = true -> USE_PETSC cfg = true ->
  1 <= size -> -1 < n_min -> n_min < n_max ->
  (forall r, 0 <= r < size ->
     wf_vector (handles r) /\ n_max < vec_length (handles r)) ->
  forall (fuel : nat) (out : list Z) (net : network),
    (forall r, 1 <= r < size ->
       channel net r 0 666 = [] /\ channel net r 0 667 = [] /\
       (length (owned_values (handles r) n_min n_max) < fuel)%nat) ->
    exists net',
      gather fuel cfg size handles n_min n_max out net =
        (net', Returns (Some (out ++
           concat ((fun r => owned_values (handles r) n_min n_max)
                     <$> seqZ 0 size)))).
Proof.
  intros Hmpi Hpetsc Hsize H1 H2 Hh fuel out net Hidle.
  destruct (run_senders_channels cfg size handles n_min n_max Hmpi Hpetsc H1 H2 Hh
              fuel (seqZ 1 (size - 1)) (NoDup_seqZ _ _)
              ltac:(intros r Hr; apply elem_of_seqZ in Hr; lia) net)
    as (net1 & E & Hch).
  destruct (Hh 0 ltac:(lia)) as [Hwf H3].
  destruct (vector_write_root cfg (process size 0) (handles 0) n_min n_max
              Hmpi Hpetsc Hwf H1 H2 H3 ltac:(simpl; lia) eq_refl
              fuel out net1 (fun r => owned_values (handles r) n_min n_max))
    as (net' & E').
  { simpl comm_size. intros r Hr.
    destruct (Hch r) as [A B]. destruct (Hidle r Hr) as (I666 & I667 & Hfuel).
    rewrite A, B, I666, I667.
    rewrite (bool_decide_eq_true_2 (r ∈ seqZ 1 (size - 1)))
      by (apply elem_of_seqZ; lia).
    auto. }
  exists net'. unfold gather. rewrite (bind_returns _ _ _ _ _ E), E'.
  simpl comm_size. rewrite (seqZ_cons 0 size) by lia.
  rewrite fmap_cons. simpl concat.
  replace (Z.succ 0) with 1 by reflexivity.
  replace (Z.pred size) with (size - 1) by lia. reflexivity.
Qed.

Lemma vector_handle_wf (elements : list Z) (a b : Z) :
  0 <= a <= b -> b <= Z.of_nat (length elements) ->
  wf_vector (vector_handle elements a b).
Proof.
  intros Hab Hb. unfold wf_vector, vector_handle. simpl.
  split; [reflexivity|]. split; [reflexivity|].
  rewrite length_take, length_drop. lia.
Qed.

(** What a process that owns [[a, b)] holds of the range: the elements
    from [max n_min a] up to [min n_max b]. *)
Lemma owned_values_slice (elements : list Z) (a b n_min n_max : Z) :
  0 <= a <= b -> b <= Z.of_nat (length elements) -> 0 <= n_min ->
  owned_values (vector_handle elements a b) n_min n_max =
  take (Z.to_nat (Z.min n_max b - Z.max n_min a))
       (drop (Z.to_nat (Z.max n_min a)) elements).
Proof.
  intros Hab Hb Hmin. unfold owned_values, owned_indices.
  cbn [vector_handle vec_first vec_last vec_data].
  set (lo := Z.max n_min a). set (hi := Z.min n_max b).
  apply list_eq. intros i. rewrite list_lookup_fmap.
  destruct (Z.lt_ge_cases (Z.of_nat i) (hi - lo)) as [Hi | Hi].
  - rewrite lookup_seqZ_lt by exact Hi. rewrite lookup_take_lt by lia.
    rewrite lookup_drop. cbn [fmap option_fmap option_map].
    unfold VecGetValues. cbn [own_first own_last own_values].
    assert (((a <=? lo + Z.of_nat i) && (lo + Z.of_nat i <? b)) = true) as ->
      by (unfold lo, hi in *; lia).
    rewrite lookup_take_lt by (unfold lo, hi in *; lia).
    rewrite lookup_drop.
    replace (Z.to_nat a + Z.to_nat (lo + Z.of_nat i - a))%nat
      with (Z.to_nat lo + i)%nat by (unfold lo, hi in *; lia).
    destruct (lookup_lt_is_Some_2 elements (Z.to_nat lo + i)
                ltac:(unfold lo, hi in *; lia)) as [x Hx].
    rewrite Hx. reflexivity.
  - rewrite lookup_seqZ_ge by exact Hi. rewrite lookup_take_ge by lia.
    reflexivity.
Qed.

Lemma consecutive_le (size : Z) (bound : Z -> Z) (len : Z) :
  consecutive size bound len ->
  forall i j, 0 <= i <= j -> j <= size -> bound i <= bound j.
Proof.
  intros (H0 & Hlen & Hmono) i j Hij Hj.
  replace j with (i + Z.of_nat (Z.to_nat (j - i))) by lia.
  assert (Hd : i + Z.of_nat (Z.to_nat (j - i)) <= size) by lia.
  revert Hd. generalize (Z.to_nat (j - i)). intros d.
  induction d as [|d IH]; intros Hd.
  - rewrite Z.add_0_r. lia.
  - specialize (IH ltac:(lia)).
    pose proof (Hmono (i + Z.of_nat d) ltac:(lia)) as Hstep.
    replace (i + Z.of_nat (S d)) with (i + Z.of_nat d + 1) by lia. lia.
Qed.

Lemma consecutive_range (size : Z) (bound : Z -> Z) (len : Z) :
  consecutive size bound len ->
  forall r, 0 <= r <= size -> 0 <= bound r <= len.
Proof.
  intros Hcons r Hr.
  pose proof (consecutive_le size bound len Hcons 0 r ltac:(lia) ltac:(lia)) as Hlo.
  pose proof (consecutive_le size bound len Hcons r size ltac:(lia) ltac:(lia)) as Hhi.
  destruct Hcons as (H0 & Hlen & _). lia.
Qed.

(** The slices of the processes [0, ..., k - 1], one after the other, are
    the range up to where process [k] begins. *)
Lemma owned_values_concat (elements : list Z) (size : Z) (bound : Z -> Z)
    (n_min n_max : Z) :
  consecutive size bound (Z.of_nat (length elements)) -> 0 <= n_min ->
  forall k : nat, Z.of_nat k <= size ->
    concat ((fun r => owned_values (split_at elements bound r) n_min n_max)
              <$> seqZ 0 (Z.of_nat k)) =
    take (Z.to_nat (Z.min n_max (bound (Z.of_nat k)) - n_min))
         (drop (Z.to_nat n_min) elements).
Proof.
  intros Hcons Hmin k. induction k as [|k IH]; intros Hk.
  - destruct Hcons as (H0 & _). change (Z.of_nat 0) with 0. rewrite H0.
    replace (Z.to_nat (Z.min n_max 0 - n_min)) with 0%nat by lia. reflexivity.
  - rewrite seqZ_S, fmap_app, concat_app, IH by lia. simpl concat.
    rewrite app_nil_r, Z.add_0_l. unfold split_at.
    pose proof (consecutive_range _ _ _ Hcons (Z.of_nat k) ltac:(lia)) as Hk0.
    pose proof (consecutive_range _ _ _ Hcons (Z.of_nat k + 1) ltac:(lia)) as Hk1.
    pose proof (consecutive_le _ _ _ Hcons (Z.of_nat k) (Z.of_nat k + 1)
                  ltac:(lia) ltac:(lia)) as Hstep.
    rewrite owned_values_slice by lia.
    replace (Z.of_nat (S k)) with (Z.of_nat k + 1) by lia.
    set (a := bound (Z.of_nat k)) in *. set (b := bound (Z.of_nat k + 1)) in *.
    destruct (Z.le_gt_cases b n_min) as [Hb | Hb].
    { replace (Z.to_nat (Z.min n_max a - n_min)) with 0%nat by lia.
      replace (Z.to_nat (Z.min n_max b - Z.max n_min a)) with 0%nat by lia.
      replace (Z.to_nat (Z.min n_max b - n_min)) with 0%nat by lia.
      reflexivity. }
    destruct (Z.le_gt_cases a n_min) as [Ha | Ha].
    { replace (Z.to_nat (Z.min n_max a - n_min)) with 0%nat by lia.
      replace (Z.max n_min a) with n_min by lia. reflexivity. }
    replace (Z.max n_min a) with a by lia.
    destruct (Z.le_gt_cases n_max a) as [Hn | Hn].
    { replace (Z.to_nat (Z.min n_max b - a)) with 0%nat by lia.
      replace (Z.min n_max b) with n_max by lia.
      replace (Z.min n_max a) with n_max by lia.
      simpl. apply app_nil_r. }
    replace (Z.min n_max a) with a by lia.
    replace (drop (Z.to_nat a) elements)
      with (drop (Z.to_nat (a - n_min)) (drop (Z.to_nat n_min) elements))
      by (rewrite drop_drop; f_equal; lia).
    rewrite take_take_drop. f_equal. lia.
Qed.

(** X11: a call of [mpi_vector_write] with [n_max] at or beyond the length
    of the vector, with [n_min] negative, or with an empty range, halts on
    an assertion in every build and on every process before anything is
    written or sent; a call that returns has [0 <= n_min < n_max < length],
    so that the last element of a vector is in no range that the function
    accepts. *)
Theorem vector_write_rejects_last_element
    (fuel : nat) (cfg : build) (g : mpi_globals) (v : mpi_vector)
    (n_min n_max : Z) (stream : option (list Z)) (net : network) :
  (n_min < 0 \/ n_max <= n_min \/ vec_length v <= n_max ->
   mpi_vector_write fuel cfg g v n_min n_max stream net =
     (net, Halts assertion_failed)) /\
  (forall net' result,
     mpi_vector_write fuel cfg g v n_min n_max stream net = (net', Returns result) ->
     0 <= n_min < n_max /\ n_max <= vec_length v - 1).
Proof.
  assert (Hbad : n_min < 0 \/ n_max <= n_min \/ vec_length v <= n_max ->
            mpi_vector_write fuel cfg g v n_min n_max stream net =
              (net, Halts assertion_failed)).
  { intros Hbad. unfold mpi_vector_write, assert, ASSERT, stop.
    unfold mbind, comm_bind, bind.
    destruct (Z.ltb_spec (-1) n_min); [|reflexivity].
    destruct (Z.ltb_spec n_min n_max); [|reflexivity].
    destruct (Z.ltb_spec n_max (vec_length v)); [lia | reflexivity]. }
  split; [exact Hbad|].
  intros net' result Hret.
  destruct (Z.lt_ge_cases n_min 0) as [H1 | H1];
    [rewrite Hbad in Hret by lia; discriminate Hret|].
  destruct (Z.le_gt_cases n_max n_min) as [H2 | H2];
    [rewrite Hbad in Hret by lia; discriminate Hret|].
  destruct (Z.le_gt_cases (vec_length v) n_max) as [H3 | H3];
    [rewrite Hbad in Hret by lia; discriminate Hret|].
  lia.
Qed.

(** X12: without the sparse backend [mpi_vector_write] gives [fwrite] the
    count [n_max], not the size of the range: within its assertions, on a
    vector of [length] elements, it writes the [n_max] elements from index
    [n_min] on when [n_min + n_max <= length], and reads beyond the array
    otherwise.  What it writes is the requested range only if
    [n_min = 0]. *)
Theorem vector_write_local_count
    (fuel : nat) (cfg : build) (g : mpi_globals) (v : mpi_vector)
    (n_min n_max : Z) (out : list Z) (net : network) :
  USE_PETSC cfg = false ->
  Z.of_nat (length (raw_data v)) = vec_length v ->
  0 <= n_min -> n_min < n_max -> n_max < vec_length v ->
  let written := take (Z.to_nat n_max) (drop (Z.to_nat n_min) (raw_data v)) in
  (n_min + n_max <= vec_length v ->
   mpi_vector_write fuel cfg g v n_min n_max (Some out) net =
     (net, Returns (Some (out ++ written))) /\
   Z.of_nat (length written) = n_max /\
   (written = requested_range (raw_data v) n_min n_max <-> n_min = 0)) /\
  (vec_length v < n_min + n_max ->
   mpi_vector_write fuel cfg g v n_min n_max (Some out) net = (net, Undefined)).
Proof.
  intros Hpetsc Hlen H1 H2 H3 written. split.
  - intros Hfit.
    destruct (vector_write_local fuel cfg g v n_min n_max out net Hpetsc
                ltac:(lia) H2 H3 ltac:(lia)) as [Hw Hn].
    split; [exact Hw|]. split; [exact Hn|].
    unfold requested_range. split.
    + intros Heq. apply (f_equal length) in Heq. fold written in Hn.
      rewrite length_take, length_drop in Heq. lia.
    + intros ->. unfold written. rewrite Z.sub_0_r. reflexivity.
  - intros Hover.
    rewrite vector_write_asserts by (try lia; intros _; eexists; reflexivity).
    rewrite Hpetsc.
    destruct (Z.leb_spec (n_min + n_max) (Z.of_nat (length (raw_data v)))); [lia|].
    reflexivity.
Qed.

Lemma vector_write_local_count_witness :
  let v := vector_handle [10; 11; 12; 13; 14; 15; 16; 17; 18; 19] 0 10 in
  let written := take (Z.to_nat 5) (drop (Z.to_nat 2) (raw_data v)) in
  (2 + 5 <= vec_length v ->
   mpi_vector_write 0 (Build_build false false false false) (process 1 0) v 2 5
     (Some []) ∅ = (∅, Returns (Some ([] ++ written))) /\
   Z.of_nat (length written) = 5 /\
   (written = requested_range (raw_data v) 2 5 <-> 2 = 0)) /\
  (vec_length v < 2 + 5 ->
   mpi_vector_write 0 (Build_build false false false false) (process 1 0) v 2 5
     (Some []) ∅ = (∅, Undefined)).
Proof.
  intros v.
  apply (vector_write_local_count 0 (Build_build false false false false)
           (process 1 0) v 2 5 [] ∅); first [reflexivity | simpl; lia].
Defined.

(** X13: with the sparse backend, when the vector is split into
    consecutive ranges by ascending rank, as the backend splits it, and
    every other process has run the call to its end before the root looks
    into its inbox, the root writes exactly the elements
    [n_min, ..., n_max - 1], by ascending index, on any number of
    processes. *)
Theorem gather_writes_requested_range
    (cfg : build) (size : Z) (elements : list Z) (bound : Z -> Z)
    (n_min n_max : Z) (fuel : nat) (out : list Z) (net : network) :
  USE_MPI cfg = true -> USE_PETSC cfg = true -> 1 <= size ->
  consecutive size bound (Z.of_nat (length elements)) ->
  0 <= n_min -> n_min < n_max -> n_max < Z.of_nat (length elements) ->
  (forall r, 1 <= r < size -> channel net r 0 666 = [] /\ channel net r 0 667 = []) ->
  (length elements < fuel)%nat ->
  exists net',
    gather fuel cfg size (split_at elements bound) n_min n_max out net =
      (net', Returns (Some (out ++ requested_range elements n_min n_max))).
Proof.
  intros Hmpi Hpetsc Hsize Hcons H1 H2 H3 Hidle Hfuel.
  assert (Hslice : forall r, 0 <= r < size ->
            0 <= bound r <= bound (r + 1) /\
            bound (r + 1) <= Z.of_nat (length elements)).
  { intros r Hr.
    pose proof (consecutive_range _ _ _ Hcons r ltac:(lia)).
    pose proof (consecutive_range _ _ _ Hcons (r + 1) ltac:(lia)).
    pose proof (consecutive_le _ _ _ Hcons r (r + 1) ltac:(lia) ltac:(lia)).
    lia. }
  destruct (gather_all_sent cfg size (split_at elements bound) n_min n_max
              Hmpi Hpetsc Hsize ltac:(lia) H2) with (fuel := fuel) (out := out)
              (net := net) as (net' & E).
  - intros r Hr. destruct (Hslice r Hr) as [Hab Hb]. split.
    + apply vector_handle_wf; assumption.
    + exact H3.
  - intros r Hr. destruct (Hidle r Hr) as [I1 I2].
    split; [exact I1|]. split; [exact I2|].
    destruct (Hslice r ltac:(lia)) as [Hab Hb].
    unfold split_at. rewrite owned_values_slice by lia.
    rewrite length_take, length_drop. lia.
  - exists net'. rewrite E. do 3 f_equal.
    replace size with (Z.of_nat (Z.to_nat size)) at 1 by lia.
    rewrite (owned_values_concat elements size bound n_min n_max Hcons H1) by lia.
    replace (Z.of_nat (Z.to_nat size)) with size by lia.
    destruct Hcons as (_ & Hlen & _). rewrite Hlen.
    unfold requested_range.
    replace (Z.min n_max (Z.of_nat (length elements))) with n_max by lia.
    reflexivity.
Qed.

Lemma gather_writes_requested_range_witness :
  exists net',
    gather 11 (Build_build true true true false) 3
      (split_at [10; 11; 12; 13; 14; 15; 16; 17; 18; 19]
         (fun r => if r <=? 0 then 0 else if r =? 1 then 4 else if r =? 2 then 7 else 10))
      2 9 [] ∅ =
      (net', Returns (Some ([] ++
         requested_range [10; 11; 12; 13; 14; 15; 16; 17; 18; 19] 2 9))).
Proof.
  apply (gather_writes_requested_range (Build_build true true true false) 3
           [10; 11; 12; 13; 14; 15; 16; 17; 18; 19]
           (fun r => if r <=? 0 then 0 else if r =? 1 then 4 else if r =? 2 then 7 else 10)
           2 9 11 [] ∅).
  - reflexivity.
  - reflexivity.
  - lia.
  - split; [reflexivity|]. split; [reflexivity|].
    intros r Hr. assert (r = 0 \/ r = 1 \/ r = 2) as [-> | [-> | ->]] by lia;
      simpl; lia.
  - lia.
  - lia.
  - simpl. lia.
  - intros r Hr. split; reflexivity.
  - simpl. lia.
Defined.

Lemma vector_write_rejects_last_element_witness :
  mpi_vector_write 9 (Build_build true true true false) (process 2 1)
    (vector_handle [10; 11; 12; 13; 14; 15; 16; 17; 18; 19] 5 10) 7 10 None ∅
  = (∅, Halts assertion_failed).
Proof.
  apply (vector_write_rejects_last_element 9 (Build_build true true true false)
           (process 2 1) (vector_handle [10; 11; 12; 13; 14; 15; 16; 17; 18; 19] 5 10)
           7 10 None ∅).
  right. right. simpl. lia.
Defined.

(** ** Loops over arrays *)

Import Dense Lifecycle.

(** A loop whose body keeps an invariant returns, with the invariant. *)
Lemma for_loop_invariant {State : Type} (P : nat -> State -> Prop)
    (body : Z -> State -> outcome State) (ns : list Z) :
  forall (done : nat) (s : State),
    P done s ->
    (forall (i : nat) (n : Z) (s : State),
       ns !! i = Some n -> P (done + i)%nat s ->
       exists s', body n s = Returns s' /\ P (done + S i)%nat s') ->
    exists s', for_loop ns body s = Returns s' /\ P (done + length ns)%nat s'.
Proof.
  induction ns as [|n ns IH]; intros done s HP Hbody.
  - exists s. split; [reflexivity|]. rewrite Nat.add_0_r. exact HP.
  - destruct (Hbody 0%nat n s eq_refl) as (s1 & E1 & HP1).
    { rewrite Nat.add_0_r. exact HP. }
    destruct (IH (S done) s1) as (s' & E & HP').
    + rewrite Nat.add_1_r in HP1. exact HP1.
    + intros i n' s2 Hi HP2.
      destruct (Hbody (S i) n' s2 Hi) as (s3 & E3 & HP3).
      * rewrite Nat.add_succ_r. exact HP2.
      * exists s3. split; [exact E3|].
        rewrite Nat.add_succ_r in HP3. exact HP3.
    + exists s'. cbn [for_loop]. rewrite E1. cbn [outcome_bind].
      split; [exact E|]. cbn [length]. rewrite Nat.add_succ_r. exact HP'.
Qed.

(** A loop that stores [value n] at every index [n] of an array leaves the
    array of these values. *)
Lemma fill_array (source : Z -> outcome Z) (value : Z -> Z) (count : Z)
    (array : list Z) :
  Z.of_nat (length array) = count ->
  (forall n, 0 <= n < count -> source n = Returns (value n)) ->
  for_loop (seqZ 0 count)
    (fun n array => outcome_bind (source n) (fun x => array_store array n x)) array
  = Returns (value <$> seqZ 0 count).
Proof.
  intros Hlen Hsource.
  destruct (for_loop_invariant
              (fun done a =>
                 length a = length array /\
                 forall i : nat, (i < done)%nat -> a !! i = Some (value (Z.of_nat i)))
              (fun n array => outcome_bind (source n) (fun x => array_store array n x))
              (seqZ 0 count) 0%nat array) as (a & E & Hlen' & Ha).
  - split; [reflexivity|]. intros i Hi. lia.
  - intros i n a Hn [Hla Ha]. apply lookup_seqZ in Hn as [-> Hi].
    rewrite Z.add_0_l, Hsource by lia. cbn [outcome_bind]. unfold array_store.
    destruct (Z.ltb_spec (Z.of_nat i) (Z.of_nat (length a))) as [_ | Hge]; [|lia].
    eexists. split; [reflexivity|]. rewrite length_insert. split; [exact Hla|].
    rewrite Nat2Z.id. intros j Hj. simpl in Hj.
    destruct (Nat.eq_dec j i) as [-> | Hne].
    + apply list_lookup_insert_eq. lia.
    + rewrite list_lookup_insert_ne by congruence. apply Ha. simpl. lia.
  - rewrite E. f_equal. apply list_eq. intros i. rewrite list_lookup_fmap.
    simpl in Ha. rewrite length_seqZ in Ha.
    destruct (Z.lt_ge_cases (Z.of_nat i) count) as [Hi | Hi].
    + rewrite Ha by lia. rewrite lookup_seqZ_lt by exact Hi. reflexivity.
    + rewrite lookup_seqZ_ge by exact Hi. apply lookup_ge_None. lia.
Qed.

(** ** Allocation, assembly and eigenpairs of the handles *)

Lemma c_int_exact (x : Z) : 0 <= x -> (c_int x = x <-> x <= INT_MAX).
Proof.
  intros Hx. split.
  - unfold c_int.
    pose proof (Z.mod_pos_bound x UINT_MODULUS ltac:(reflexivity)) as Hr.
    destruct (Z.leb_spec (x mod UINT_MODULUS) INT_MAX); intros E.
    + lia.
    + unfold UINT_MODULUS in *. lia.
  - intros Hle. apply c_int_small. lia.
Qed.

(** X14: without the sparse backend [mpi_matrix_alloc] does not zero the
    matrix: the handle that it returns has the shape asked for, no
    eigenvalues, and the elements that the allocator left, which is what
    [matrix_get] returns for every entry that has not been set. *)
Theorem matrix_alloc_without_backend
    (cfg : build) (magma : bool) (B : backend) (g : mpi_globals) (fresh : list Z)
    (max_row max_col d_nz o_nz : Z) (hints : list Z) :
  USE_PETSC cfg = false ->
  0 < max_row -> 0 < max_col -> max_row * max_col < SIZE_MODULUS ->
  0 <= d_nz -> 0 <= o_nz ->
  Z.of_nat (length fresh) = max_row * max_col ->
  exists m,
    mpi_matrix_alloc cfg magma B g fresh max_row max_col (d_nz :: o_nz :: hints)
      = Returns m /\
    matrix_rows (dense_data m) = max_row /\
    matrix_cols (dense_data m) = max_col /\
    data (dense_data m) = fresh /\
    mat_eigenval m = None /\
    forall p q, 0 <= p < max_row -> 0 <= q < max_col ->
      matrix_get cfg (dense_data m) p q = array_load fresh (p * max_col + q).
Proof.
  intros Hpetsc Hrow Hcol Hfit Hd Ho Hfresh.
  assert (Hdata : allocate fresh (size_mul max_row max_col) false = fresh).
  { unfold allocate, size_mul. rewrite size_wrap_small by (unfold is_size_t; nia).
    apply resize_all_alt. lia. }
  eexists. split.
  - unfold mpi_matrix_alloc. rewrite Hpetsc.
    rewrite (proj2 (Z.ltb_lt 0 max_row)) by lia.
    rewrite (proj2 (Z.ltb_lt 0 max_col)) by lia.
    rewrite (proj2 (Z.leb_le 0 d_nz)) by lia.
    rewrite (proj2 (Z.leb_le 0 o_nz)) by lia.
    cbn [ASSERT]. unfold matrix_alloc. rewrite Hdata.
    destruct magma; reflexivity.
  - cbn [dense_data mat_eigenval matrix_rows matrix_cols Matrix.max_row
         Matrix.max_col data].
    split; [reflexivity|]. split; [reflexivity|]. split; [reflexivity|].
    split; [reflexivity|].
    intros p q Hp Hq. unfold matrix_get.
    rewrite matrix_bounds_pass by (simpl; lia).
    destruct (dense_offset
                {| data := fresh; Matrix.max_row := max_row;
                   Matrix.max_col := max_col; use_omp := 0 |} p q)
      as (_ & _ & Hoff & _); [simpl; lia | simpl; lia | simpl; lia |].
    rewrite Hoff. reflexivity.
Qed.

Lemma matrix_alloc_without_backend_witness :
  exists m,
    mpi_matrix_alloc (Build_build false false false false) false
      idle_backend
      (process 1 0) [7; 8; 9; 10; 11; 12] 2 3 [1; 0] = Returns m /\
    matrix_rows (dense_data m) = 2 /\
    matrix_cols (dense_data m) = 3 /\
    data (dense_data m) = [7; 8; 9; 10; 11; 12] /\
    mat_eigenval m = None /\
    forall p q, 0 <= p < 2 -> 0 <= q < 3 ->
      matrix_get (Build_build false false false false) (dense_data m) p q =
      array_load [7; 8; 9; 10; 11; 12] (p * 3 + q).
Proof.
  apply matrix_alloc_without_backend; first [reflexivity | lia].
Defined.

(** X15: with the sparse backend [mpi_matrix_alloc] keeps the shape in
    [int] fields and asserts only that it is positive: when the backend
    calls succeed the handle has the row range that the backend reports
    and nothing staged beyond what the backend created, and its bounds are
    those asked for exactly when they fit an [int]. *)
Theorem matrix_alloc_with_backend
    (cfg : build) (magma : bool) (B : backend) (g : mpi_globals) (fresh : list Z)
    (max_row max_col d_nz o_nz : Z) (hints : list Z) (A A' : Mat) (first last : Z) :
  USE_PETSC cfg = true ->
  0 < max_row -> 0 < max_col -> 0 <= d_nz -> 0 <= o_nz ->
  (if 1 <? mpi_comm_size g
   then MatCreateAIJ B (c_int max_row) (c_int max_col) d_nz o_nz
   else MatCreateSeqAIJ B (c_int max_row) (c_int max_col) d_nz) = (0, A) ->
  MatSetOption B A = (0, A') ->
  MatGetOwnershipRange B A' = (0, (first, last)) ->
  exists m,
    mpi_matrix_alloc cfg magma B g fresh max_row max_col (d_nz :: o_nz :: hints)
      = Returns m /\
    mat_data m = A' /\ mat_first m = first /\ mat_last m = last /\
    mat_solver m = None /\
    (mat_max_row m = max_row <-> max_row <= INT_MAX) /\
    (mat_max_col m = max_col <-> max_col <= INT_MAX).
Proof.
  intros Hpetsc Hrow Hcol Hd Ho Hcreate Hoption Hrange.
  eexists. split.
  - unfold mpi_matrix_alloc. rewrite Hpetsc.
    rewrite (proj2 (Z.ltb_lt 0 max_row)) by lia.
    rewrite (proj2 (Z.ltb_lt 0 max_col)) by lia.
    rewrite (proj2 (Z.leb_le 0 d_nz)) by lia.
    rewrite (proj2 (Z.leb_le 0 o_nz)) by lia.
    cbn [ASSERT].
    destruct (1 <? mpi_comm_size g); rewrite Hcreate, check_petsc_ok, Hoption,
      check_petsc_ok, Hrange, check_petsc_ok; reflexivity.
  - cbn [mat_data mat_first mat_last mat_solver mat_max_row mat_max_col].
    split; [reflexivity|]. split; [reflexivity|]. split; [reflexivity|].
    split; [reflexivity|].
    split; apply c_int_exact; lia.
Qed.

Lemma matrix_alloc_with_backend_witness :
  let B := idle_backend in
  exists m,
    mpi_matrix_alloc (Build_build true true true false) false B (process 2 0) []
      (2 ^ 32) 4 [1; 1] = Returns m /\
    mat_data m = ∅ /\ mat_first m = 0 /\ mat_last m = 0 /\
    mat_solver m = None /\
    (mat_max_row m = 2 ^ 32 <-> 2 ^ 32 <= INT_MAX) /\
    (mat_max_col m = 4 <-> 4 <= INT_MAX).
Proof.
  intros B.
  apply (matrix_alloc_with_backend (Build_build true true true false) false B
           (process 2 0) [] (2 ^ 32) 4 1 1 [] ∅ ∅ 0 0);
    first [reflexivity | lia].
Defined.

(** X16: [mpi_matrix_build] and [mpi_vector_build] look at the code of the
    second assembly call only: when [MatAssemblyEnd] (or [VecAssemblyEnd])
    reports success the call returns, also when [MatAssemblyBegin] (or
    [VecAssemblyBegin]) has failed, and the failure is not reported;
    without the backend both calls leave the handle as it is. *)
Theorem build_ignores_assembly_begin
    (cfg : build) (B : backend) (g : mpi_globals) (m : mpi_matrix) (v : mpi_vector)
    (code_m code_v : Z) (A1 A2 : Mat) (x1 x2 : Vec) :
  (USE_PETSC cfg = true ->
   MatAssemblyBegin B (mat_data m) = (code_m, A1) ->
   MatAssemblyEnd B A1 = (0, A2) ->
   mpi_matrix_build cfg B g m = Returns (with_mat_data m A2)) /\
  (USE_PETSC cfg = true ->
   VecAssemblyBegin B (vec_data v) = (code_v, x1) ->
   VecAssemblyEnd B x1 = (0, x2) ->
   mpi_vector_build cfg B g v = Returns (with_vec_data v x2)) /\
  (USE_PETSC cfg = false ->
   mpi_matrix_build cfg B g m = Returns m /\ mpi_vector_build cfg B g v = Returns v).
Proof.
  split; [|split].
  - intros Hpetsc Hbegin Hend. unfold mpi_matrix_build.
    rewrite Hpetsc, Hbegin, Hend. reflexivity.
  - intros Hpetsc Hbegin Hend. unfold mpi_vector_build.
    rewrite Hpetsc, Hbegin, Hend. reflexivity.
  - intros Hpetsc. unfold mpi_matrix_build, mpi_vector_build.
    rewrite Hpetsc. split; reflexivity.
Qed.

Lemma build_ignores_assembly_begin_witness :
  let B := {| MatCreateAIJ := fun _ _ _ _ => (0, ∅);
              MatCreateSeqAIJ := fun _ _ _ => (0, ∅);
              MatSetOption := fun A => (0, A);
              MatGetOwnershipRange := fun _ => (0, (0, 0));
              MatAssemblyBegin := fun A => (73, A);
              MatAssemblyEnd := fun A => (0, A);
              VecCreate := (0, no_vec);
              VecSetSizes := fun x _ _ => (0, x);
              VecGetOwnershipRange := fun _ => (0, (0, 0));
              VecAssemblyBegin := fun x => (73, x);
              VecAssemblyEnd := fun x => (0, x);
              MatCreateVecs := fun _ => (0, no_vec);
              VecGetSize := fun _ => (0, 0);
              EPSGetEigenpair := fun _ _ x => (0, (0, x)) |} in
  mpi_matrix_build (Build_build true true true false) B (process 2 0)
    (fresh_matrix 4 4 0 2) = Returns (with_mat_data (fresh_matrix 4 4 0 2) ∅) /\
  mpi_vector_build (Build_build true true true false) B (process 2 0)
    (vector_handle [1; 2; 3] 0 2) =
    Returns (with_vec_data (vector_handle [1; 2; 3] 0 2)
               (vec_data (vector_handle [1; 2; 3] 0 2))).
Proof.
  intros B.
  destruct (build_ignores_assembly_begin (Build_build true true true false) B
              (process 2 0) (fresh_matrix 4 4 0 2) (vector_handle [1; 2; 3] 0 2)
              73 73 ∅ ∅ (vec_data (vector_handle [1; 2; 3] 0 2))
              (vec_data (vector_handle [1; 2; 3] 0 2))) as (Hm & Hv & _).
  split.
  - apply Hm; reflexivity.
  - apply Hv; reflexivity.
Defined.

(** Where the rows of a matrix are split into consecutive ranges, every
    row has an owner, and only one. *)
Lemma consecutive_owner (size : Z) (bound : Z -> Z) (rows p : Z) :
  0 <= size -> consecutive size bound rows -> 0 <= p < rows ->
  exists owner, 0 <= owner < size /\ bound owner <= p < bound (owner + 1).
Proof.
  intros Hsize Hcons Hp.
  assert (Hfind : forall k : nat, Z.of_nat k <= size ->
            p < bound (Z.of_nat k) ->
            exists owner, 0 <= owner < size /\ bound owner <= p < bound (owner + 1)).
  { induction k as [|k IH]; intros Hk Hlt.
    - destruct Hcons as (H0 & _). change (Z.of_nat 0) with 0 in Hlt. lia.
    - destruct (Z.lt_ge_cases p (bound (Z.of_nat k))) as [Hbelow | Habove].
      + apply IH; [lia | exact Hbelow].
      + exists (Z.of_nat k). split; [lia|].
        replace (Z.of_nat k + 1) with (Z.of_nat (S k)) by lia. lia. }
  destruct (Hcons) as (_ & Hlen & _).
  apply (Hfind (Z.to_nat size)); [lia|].
  replace (Z.of_nat (Z.to_nat size)) with size by lia. lia.
Qed.

Lemma consecutive_owner_unique (size : Z) (bound : Z -> Z) (rows p r1 r2 : Z) :
  consecutive size bound rows -> 0 <= r1 < size -> 0 <= r2 < size ->
  bound r1 <= p < bound (r1 + 1) -> bound r2 <= p < bound (r2 + 1) -> r1 = r2.
Proof.
  intros Hcons Hr1 Hr2 H1 H2.
  destruct (Z.lt_total r1 r2) as [Hlt | [Heq | Hgt]]; [|exact Heq|].
  - pose proof (consecutive_le _ _ _ Hcons (r1 + 1) r2 ltac:(lia) ltac:(lia)). lia.
  - pose proof (consecutive_le _ _ _ Hcons (r2 + 1) r1 ltac:(lia) ltac:(lia)). lia.
Qed.

Section SetByAll.

Variables (cfg : build) (size rows cols : Z) (bound : Z -> Z) (p q x : Z).
Hypothesis petsc : USE_PETSC cfg = true.
Hypothesis split : consecutive size bound rows.
Hypothesis row_ok : 0 <= p < rows.
Hypothesis col_ok : q < cols.


Lemma set_not_owner (handles : list mpi_matrix) (r : Z) :
  shared_matrix size rows cols bound handles -> 0 <= r < size ->
  ~ (bound r <= p < bound (r + 1)) ->
  on_rank r (set_on_rank cfg size p q x r) handles = Returns handles.
Proof.
  intros Hshared Hr Hnot.
  destruct (Hshared r Hr) as (m & Hm & Hrow & Hcol & Hfirst & Hlast).
  unfold on_rank. rewrite Hm. unfold set_on_rank, mpi_matrix_set.
  unfold Handles.ASSERT_ROW_INDEX, Handles.ASSERT_COL_INDEX. rewrite petsc.
  rewrite Hrow, Hcol, Hfirst, Hlast.
  rewrite (proj2 (Z.ltb_lt p rows)) by lia.
  rewrite (proj2 (Z.ltb_lt q cols)) by lia.
  cbn [ASSERT].
  assert (((bound r <=? p) && (p <? bound (r + 1))) = false) as -> by lia.
  cbn [outcome_bind]. rewrite list_insert_id by exact Hm. reflexivity.
Qed.

Lemma set_owner (handles : list mpi_matrix) (r : Z) (m : mpi_matrix) :
  shared_matrix size rows cols bound handles -> 0 <= r < size ->
  handles !! Z.to_nat r = Some m ->
  bound r <= p < bound (r + 1) ->
  on_rank r (set_on_rank cfg size p q x r) handles =
    Returns (<[Z.to_nat r := with_mat_data m (<[(p, q) := x]> (mat_data m))]> handles).
Proof.
  intros Hshared Hr Hm Hown.
  destruct (Hshared r Hr) as (m' & Hm' & Hrow & Hcol & Hfirst & Hlast).
  rewrite Hm in Hm'. injection Hm' as <-.
  unfold on_rank. rewrite Hm. unfold set_on_rank, mpi_matrix_set.
  unfold Handles.ASSERT_ROW_INDEX, Handles.ASSERT_COL_INDEX. rewrite petsc.
  rewrite Hrow, Hcol, Hfirst, Hlast.
  rewrite (proj2 (Z.ltb_lt p rows)) by lia.
  rewrite (proj2 (Z.ltb_lt q cols)) by lia.
  cbn [ASSERT].
  assert (((bound r <=? p) && (p <? bound (r + 1))) = true) as -> by lia.
  unfold MatSetValue. rewrite check_petsc_ok. reflexivity.
Qed.

Lemma shared_matrix_staged (handles : list mpi_matrix) (r : Z) (m : mpi_matrix) (A : Mat) :
  shared_matrix size rows cols bound handles ->
  handles !! Z.to_nat r = Some m ->
  shared_matrix size rows cols bound (<[Z.to_nat r := with_mat_data m A]> handles).
Proof.
  intros Hshared Hm r' Hr'.
  destruct (Hshared r' Hr') as (m' & Hm' & Hfields).
  destruct (Nat.eq_dec (Z.to_nat r) (Z.to_nat r')) as [E | NE].
  - exists (with_mat_data m A). rewrite <- E.
    rewrite list_lookup_insert_eq by (apply lookup_lt_is_Some; eauto).
    split; [reflexivity|]. rewrite <- E in Hm'. rewrite Hm in Hm'.
    injection Hm' as <-. exact Hfields.
  - exists m'. rewrite list_lookup_insert_ne by exact NE.
    split; [exact Hm' | exact Hfields].
Qed.

Lemma set_by_others (owner : Z) (ranks : list Z) :
  0 <= owner < size -> bound owner <= p < bound (owner + 1) ->
  (forall r, r ∈ ranks -> 0 <= r < size /\ r <> owner) ->
  forall handles, shared_matrix size rows cols bound handles ->
    on_ranks ranks (set_on_rank cfg size p q x) handles = Returns handles.
Proof.
  intros Howner Hown. induction ranks as [|r ranks IH]; intros Hranks handles Hshared.
  - reflexivity.
  - destruct (Hranks r ltac:(left)) as [Hr Hne].
    cbn [on_ranks]. rewrite set_not_owner; [|exact Hshared|exact Hr|].
    + cbn [outcome_bind]. apply IH; [|exact Hshared].
      intros r' Hr'. apply Hranks. right. exact Hr'.
    + intros Hown'. apply Hne.
      exact (consecutive_owner_unique size bound rows p r owner split Hr Howner
               Hown' Hown).
Qed.

Lemma set_by_all (owner : Z) (ranks : list Z) :
  0 <= owner < size -> bound owner <= p < bound (owner + 1) ->
  NoDup ranks -> owner ∈ ranks -> (forall r, r ∈ ranks -> 0 <= r < size) ->
  forall handles m, shared_matrix size rows cols bound handles ->
    handles !! Z.to_nat owner = Some m ->
    on_ranks ranks (set_on_rank cfg size p q x) handles =
      Returns (<[Z.to_nat owner :=
                   with_mat_data m (<[(p, q) := x]> (mat_data m))]> handles).
Proof.
  intros Howner Hown. induction ranks as [|r ranks IH];
    intros Hnodup Hin Hranks handles m Hshared Hm.
  - inversion Hin.
  - apply NoDup_cons in Hnodup as [Hnotin Hnodup].
    cbn [on_ranks].
    destruct (Z.eq_dec r owner) as [-> | Hne].
    + rewrite (set_owner handles owner m Hshared Howner Hm Hown).
      cbn [outcome_bind]. apply set_by_others with (owner := owner);
        [exact Howner | exact Hown | |].
      * intros r' Hr'. split; [apply Hranks; right; exact Hr'|].
        intros ->. exact (Hnotin Hr').
      * apply shared_matrix_staged; assumption.
    + rewrite set_not_owner; [|exact Hshared|apply Hranks; left|].
      * cbn [outcome_bind]. apply IH; try assumption.
        -- apply elem_of_cons in Hin as [Heq | Hin]; [congruence | exact Hin].
        -- intros r' Hr'. apply Hranks. right. exact Hr'.
      * intros Hown'. apply Hne.
        exact (consecutive_owner_unique size bound rows p r owner split
                 (Hranks r ltac:(left)) Howner Hown' Hown).
Qed.

End SetByAll.

(** X17: with the sparse backend, when every process of the communicator
    calls [mpi_matrix_set] with the same entry of a matrix whose rows are
    split into consecutive ranges, the entry is staged once: on the
    process that owns the row, and the handle of every other process is as
    it was. *)
Theorem matrix_set_by_all_ranks
    (cfg : build) (size rows cols : Z) (bound : Z -> Z)
    (handles : list mpi_matrix) (p q x : Z) :
  USE_PETSC cfg = true -> 1 <= size ->
  consecutive size bound rows ->
  shared_matrix size rows cols bound handles ->
  0 <= p < rows -> q < cols ->
  exists owner m,
    0 <= owner < size /\ bound owner <= p < bound (owner + 1) /\
    handles !! Z.to_nat owner = Some m /\
    on_ranks (seqZ 0 size) (set_on_rank cfg size p q x) handles =
      Returns (<[Z.to_nat owner :=
                   with_mat_data m (<[(p, q) := x]> (mat_data m))]> handles).
Proof.
  intros Hpetsc Hsize Hcons Hshared Hp Hq.
  destruct (consecutive_owner size bound rows p ltac:(lia) Hcons Hp)
    as (owner & Howner & Hown).
  destruct (Hshared owner Howner) as (m & Hm & _).
  exists owner, m. split; [exact Howner|]. split; [exact Hown|].
  split; [exact Hm|].
  apply (set_by_all cfg size rows cols bound p q x Hpetsc Hcons Hp Hq owner);
    try assumption.
  - apply NoDup_seqZ.
  - apply elem_of_seqZ. lia.
  - intros r Hr. apply elem_of_seqZ in Hr. lia.
Qed.

Lemma matrix_set_by_all_ranks_witness :
  exists owner m,
    0 <= owner < 2 /\
    (if owner <=? 0 then 0 else if owner =? 1 then 2 else 4) <= 3
      < (if owner + 1 <=? 0 then 0 else if owner + 1 =? 1 then 2 else 4) /\
    [fresh_matrix 4 4 0 2; fresh_matrix 4 4 2 4] !! Z.to_nat owner = Some m /\
    on_ranks (seqZ 0 2) (set_on_rank (Build_build true true true false) 2 3 1 7)
      [fresh_matrix 4 4 0 2; fresh_matrix 4 4 2 4] =
      Returns (<[Z.to_nat owner :=
                   with_mat_data m (<[(3, 1) := 7]> (mat_data m))]>
                 [fresh_matrix 4 4 0 2; fresh_matrix 4 4 2 4]).
Proof.
  apply (matrix_set_by_all_ranks (Build_build true true true false) 2 4 4
           (fun r => if r <=? 0 then 0 else if r =? 1 then 2 else 4)
           [fresh_matrix 4 4 0 2; fresh_matrix 4 4 2 4] 3 1 7).
  - reflexivity.
  - lia.
  - split; [reflexivity|]. split; [reflexivity|].
    intros r Hr. assert (r = 0 \/ r = 1) as [-> | ->] by lia; simpl; lia.
  - intros r Hr. assert (r = 0 \/ r = 1) as [-> | ->] by lia;
      eexists; (split; [reflexivity|]); repeat split.
  - lia.
  - lia.
Defined.

(** ** Rows and columns of a dense matrix *)

Lemma load_element (d : matrix) (p q : Z) :
  wf_matrix d -> 0 <= p < max_row d -> 0 <= q < max_col d ->
  load d (DATA_OFFSET d p q) = Returns (element d p q).
Proof.
  intros (Hr & Hc & Hfit & Hlen) Hp Hq.
  destruct (dense_offset d p q Hp Hq ltac:(lia)) as (_ & _ & Hoff & Hin).
  rewrite Hoff. unfold load, array_load, element.
  destruct (lookup_lt_is_Some_2 (data d) (Z.to_nat (p * max_col d + q))
              ltac:(lia)) as [x Hx].
  rewrite Hx. reflexivity.
Qed.

Lemma raw_col_is_column (cfg : build) (fresh : list Z) (d : matrix) (q : Z) :
  wf_matrix d -> 0 <= q < max_col d ->
  matrix_get_raw_col cfg fresh d q = Returns (column_of d q).
Proof.
  intros Hwf Hq. unfold matrix_get_raw_col, Matrix.ASSERT_COL_INDEX.
  assert ((q <? max_col d) = true) as -> by lia.
  assert (Hloop :
    for_loop (seqZ 0 (max_row d))
      (fun p col =>
         outcome_bind (load d (DATA_OFFSET d p q)) (fun x => array_store col p x))
      (allocate fresh (max_row d) false) = Returns (column_of d q)).
  { apply (fill_array (fun p => load d (DATA_OFFSET d p q))
             (fun p => element d p q)).
    - unfold allocate. rewrite length_resize. destruct Hwf as (Hr & _). lia.
    - intros p Hp. apply load_element; assumption. }
  rewrite Hloop. destruct (MATRIX_BOUND_CHECK cfg); reflexivity.
Qed.

Lemma raw_row_is_row (cfg : build) (fresh : list Z) (d : matrix) (p : Z) :
  wf_matrix d -> 0 <= p < max_row d ->
  matrix_get_raw_row cfg fresh d p = Returns (row_of d p).
Proof.
  intros Hwf Hp. unfold matrix_get_raw_row, Matrix.ASSERT_ROW_INDEX.
  assert ((p <? max_row d) = true) as -> by lia.
  assert (Hloop :
    for_loop (seqZ 0 (max_col d))
      (fun q row =>
         outcome_bind (load d (DATA_OFFSET d p q)) (fun x => array_store row q x))
      (allocate fresh (max_col d) false) = Returns (row_of d p)).
  { apply (fill_array (fun q => load d (DATA_OFFSET d p q)) (element d p)).
    - unfold allocate. rewrite length_resize. destruct Hwf as (_ & Hc & _). lia.
    - intros q Hq. apply load_element; assumption. }
  rewrite Hloop. destruct (MATRIX_BOUND_CHECK cfg); reflexivity.
Qed.

(** X18: without the sparse backend, [mpi_matrix_eigenpair] on a handle
    that has no eigenvalues yet, as [mpi_matrix_alloc] returns it, halts on
    its assertion.  After [mpi_matrix_sparse_eigen] on a square matrix of
    [N] rows it returns, for every [k] below [N], the [k]-th eigenvalue of
    the dense solver and a vector of length [N] that holds column [k] of
    the matrix as the solver left it (row [k] in a build with
    [USE_MAGMA]), whatever the allocator leaves in the fresh block. *)
Theorem eigenpair_without_backend
    (cfg : build) (magma : bool) (B : backend) (K : kernels) (g : mpi_globals)
    (m : mpi_matrix) (n max_step tol : Z) (up : bool) (a eigenval : list Z) (N : Z) :
  USE_PETSC cfg = false ->
  0 < n -> 0 < max_step -> is_nan tol = false ->
  max_row (dense_data m) = N -> max_col (dense_data m) = N -> 0 < N <= INT_MAX ->
  call_dsyev K "v" "l" N (data (dense_data m)) N = Returns (a, eigenval) ->
  Z.of_nat (length a) = N * N -> Z.of_nat (length eigenval) = N ->
  (mat_eigenval m = None ->
   forall fresh k, mpi_matrix_eigenpair cfg magma B g fresh m k =
                     Halts assertion_failed) /\
  exists m',
    mpi_matrix_sparse_eigen cfg K g m n max_step tol up = Returns (m', N) /\
    data (dense_data m') = a /\
    forall fresh k, 0 <= k < N ->
      exists v value,
        mpi_matrix_eigenpair cfg magma B g fresh m' k = Returns (v, value) /\
        eigenval !! Z.to_nat k = Some value /\
        vec_length v = N /\
        raw_data v = if magma then row_of (dense_data m') k
                     else column_of (dense_data m') k.
Proof.
  intros Hpetsc Hn Hstep Htol Hrow Hcol HN Hk Ha He. split.
  - intros Hnone fresh k. unfold mpi_matrix_eigenpair, Handles.ASSERT_COL_INDEX.
    rewrite Hpetsc, Hnone. reflexivity.
  - set (d' := {| data := a; max_row := N; max_col := N;
                  use_omp := use_omp (dense_data m) |}).
    exists (with_eigenval (with_dense_data m d') eigenval).
    split; [|split; [reflexivity|]].
    + unfold mpi_matrix_sparse_eigen, ASSERT.
      rewrite (proj2 (Z.ltb_lt 0 n) Hn), (proj2 (Z.ltb_lt 0 max_step) Hstep).
      rewrite eqb_reflx, Htol, Hpetsc. simpl andb. cbv iota.
      unfold matrix_symm_eigen. rewrite Hrow, Hcol, Hk.
      cbn [outcome_bind matrix_rows max_row].
      rewrite c_int_small by lia. reflexivity.
    + intros fresh k Hkk.
      assert (Hwf : wf_matrix d').
      { unfold wf_matrix, d'. cbn [data max_row max_col].
        unfold INT_MAX, SIZE_MODULUS in *. repeat split; nia. }
      destruct (lookup_lt_is_Some_2 eigenval (Z.to_nat k) ltac:(lia)) as [value Hv].
      exists {| vec_data := no_vec;
                raw_data := if magma then row_of d' k else column_of d' k;
                vec_length := c_int (matrix_rows d');
                vec_first := 0; vec_last := 0 |}.
      exists value. split; [|split; [exact Hv|]].
      * unfold mpi_matrix_eigenpair, Handles.ASSERT_COL_INDEX.
        rewrite Hpetsc. cbn [andb with_eigenval with_dense_data mat_eigenval dense_data].
        assert ((k <? 0) = false) as -> by lia.
        unfold array_load. rewrite Hv. cbn [outcome_bind].
        rewrite size_wrap_small by (unfold is_size_t, INT_MAX, SIZE_MODULUS in *; lia).
        unfold matrix_using_magma. destruct magma.
        -- rewrite raw_row_is_row by (first [exact Hwf | simpl; lia]).
           reflexivity.
        -- rewrite raw_col_is_column by (first [exact Hwf | simpl; lia]).
           reflexivity.
      * cbn [vec_length raw_data matrix_rows max_row with_eigenval with_dense_data
             dense_data d'].
        split; [apply c_int_small; lia|]. destruct magma; reflexivity.
Qed.

Lemma eigenpair_without_backend_witness :
  let B := idle_backend in
  let cfg := Build_build false false false false in
  let K := constant_kernels 2 [5; 6] in
  let m := with_dense_data (fresh_matrix 2 2 0 2)
             {| data := [1; 2; 3; 4]; max_row := 2; max_col := 2; use_omp := 0 |} in
  (mat_eigenval m = None ->
   forall fresh k, mpi_matrix_eigenpair cfg false B (process 1 0) fresh m k =
                     Halts assertion_failed) /\
  exists m',
    mpi_matrix_sparse_eigen cfg K (process 1 0) m 1 10 0 true = Returns (m', 2) /\
    data (dense_data m') = [1; 2; 3; 4] /\
    forall fresh k, 0 <= k < 2 ->
      exists v value,
        mpi_matrix_eigenpair cfg false B (process 1 0) fresh m' k = Returns (v, value) /\
        [5; 6] !! Z.to_nat k = Some value /\
        vec_length v = 2 /\
        raw_data v = if false then row_of (dense_data m') k
                     else column_of (dense_data m') k.
Proof.
  intros B cfg K m.
  apply (eigenpair_without_backend cfg false B K (process 1 0) m 1 10 0 true
           [1; 2; 3; 4] [5; 6] 2);
    first [reflexivity | lia | unfold INT_MAX; lia].
Defined.

(** A loop that stores [value n] in element [n] of a matrix, for every [n]
    below the length of its array, leaves the array of these values. *)
Lemma fill_matrix (source : Z -> outcome Z) (value : Z -> Z)
    (offset : matrix -> Z -> Z) (count : Z) (m : matrix) :
  Z.of_nat (length (data m)) = count ->
  (forall n, 0 <= n < count -> source n = Returns (value n)) ->
  (forall m' n, max_row m' = max_row m -> max_col m' = max_col m ->
     0 <= n < count -> offset m' n = n) ->
  for_loop (seqZ 0 count)
    (fun n m => outcome_bind (source n) (fun x => store m (offset m n) x)) m
  = Returns (with_data m (value <$> seqZ 0 count)).
Proof.
  intros Hlen Hsource Hoffset.
  destruct (for_loop_invariant
              (fun done m' =>
                 max_row m' = max_row m /\ max_col m' = max_col m /\
                 use_omp m' = use_omp m /\
                 length (data m') = length (data m) /\
                 forall i : nat, (i < done)%nat ->
                   data m' !! i = Some (value (Z.of_nat i)))
              (fun n m => outcome_bind (source n) (fun x => store m (offset m n) x))
              (seqZ 0 count) 0%nat m) as (m' & E & Hr & Hc & Ho & Hl & Hd).
  - repeat split. intros i Hi. lia.
  - intros i n m1 Hn (Hr & Hc & Ho & Hl & Hd). apply lookup_seqZ in Hn as [-> Hi].
    rewrite Z.add_0_l, Hsource by lia. cbn [outcome_bind].
    rewrite Hoffset by (first [assumption | lia]).
    unfold store, array_store.
    destruct (Z.ltb_spec (Z.of_nat i) (Z.of_nat (length (data m1)))) as [_ | Hge];
      [|lia].
    eexists. split; [reflexivity|]. cbn [outcome_bind with_data data max_row max_col use_omp].
    rewrite length_insert. repeat split; try assumption.
    rewrite Nat2Z.id. intros j Hj. simpl in Hj.
    destruct (Nat.eq_dec j i) as [-> | Hne].
    + apply list_lookup_insert_eq. lia.
    + rewrite list_lookup_insert_ne by congruence. apply Hd. simpl. lia.
  - rewrite E. f_equal. destruct m' as [d' r' c' o']. unfold with_data.
    cbn [data max_row max_col use_omp] in *. subst r' c' o'. f_equal.
    apply list_eq. intros i. rewrite list_lookup_fmap.
    simpl in Hd. rewrite length_seqZ in Hd.
    destruct (Z.lt_ge_cases (Z.of_nat i) count) as [Hi | Hi].
    + rewrite Hd by lia. rewrite lookup_seqZ_lt by exact Hi. reflexivity.
    + rewrite lookup_seqZ_ge by exact Hi. apply lookup_ge_None. lia.
Qed.

Lemma fmap_const_seqZ (x : Z) (count : Z) :
  (fun _ : Z => x) <$> seqZ 0 count = replicate (Z.to_nat count) x.
Proof.
  apply list_eq. intros i. rewrite list_lookup_fmap.
  destruct (Z.lt_ge_cases (Z.of_nat i) count) as [Hi | Hi].
  - rewrite lookup_seqZ_lt by exact Hi. rewrite lookup_replicate_2 by lia. reflexivity.
  - rewrite lookup_seqZ_ge by exact Hi. symmetry. apply lookup_replicate_None. lia.
Qed.

Lemma matrix_set_all_replicate (m : matrix) (x : Z) :
  wf_matrix m ->
  matrix_set_all m x =
    Returns (with_data m (replicate (Z.to_nat (max_row m * max_col m)) x)).
Proof.
  intros (Hr & Hc & Hfit & Hlen). unfold matrix_set_all, size_mul.
  rewrite size_wrap_small by (unfold is_size_t; nia).
  rewrite <- fmap_const_seqZ.
  apply (fill_matrix (fun _ => Returns x) (fun _ => x) (fun _ n => n)).
  - exact Hlen.
  - reflexivity.
  - reflexivity.
Qed.

(** X19: [matrix_alloc] with [set_zero] returns the matrix of zeros of the
    shape asked for in either build, by the zeroing allocator or, with
    [USE_MAGMA], by the loop of [matrix_set_zero] over the block that the
    pinned allocator left; and [matrix_is_null] holds of it. *)
Theorem matrix_alloc_zeroed
    (magma : bool) (fresh : list Z) (rows cols : Z) :
  0 <= rows < SIZE_MODULUS -> 0 <= cols < SIZE_MODULUS ->
  rows * cols < SIZE_MODULUS ->
  let zeros := {| data := replicate (Z.to_nat (rows * cols)) 0;
                  max_row := rows; max_col := cols; use_omp := 0 |} in
  matrix_alloc magma fresh rows cols true = Returns zeros /\
  wf_matrix zeros /\
  matrix_is_null zeros = Returns true.
Proof.
  intros Hr Hc Hfit zeros.
  assert (Hwf : wf_matrix zeros).
  { unfold wf_matrix, zeros. cbn [data max_row max_col].
    rewrite length_replicate. lia. }
  split; [|split; [exact Hwf|]].
  - unfold matrix_alloc. destruct magma.
    + unfold matrix_set_zero.
      set (m := {| data := allocate fresh (size_mul rows cols) false;
                   max_row := rows; max_col := cols; use_omp := 0 |}).
      assert (Hm : wf_matrix m).
      { unfold wf_matrix, m. cbn [data max_row max_col]. unfold allocate, size_mul.
        rewrite length_resize, size_wrap_small by (unfold is_size_t; nia). lia. }
      pose proof (matrix_set_all_replicate m 0 Hm) as Hall.
      unfold matrix_set_all in Hall. rewrite Hall. reflexivity.
    + unfold allocate, size_mul.
      rewrite size_wrap_small by (unfold is_size_t; nia). reflexivity.
  - unfold matrix_is_null, size_mul. cbn [max_row max_col zeros].
    rewrite size_wrap_small by (unfold is_size_t; nia).
    assert (Hscan : forall ns,
              (forall n, n ∈ ns -> 0 <= n < rows * cols) ->
              any_element double_ne_zero zeros ns = Returns false).
    { induction ns as [|n ns IH]; intros Hns; [reflexivity|].
      cbn [any_element]. unfold load, array_load. cbn [data zeros].
      rewrite lookup_replicate_2 by (specialize (Hns n ltac:(left)); lia).
      cbn [outcome_bind]. change (double_ne_zero 0) with false. cbv iota.
      apply IH. intros n' Hn'. apply Hns. right. exact Hn'. }
    rewrite Hscan; [reflexivity|].
    intros n Hn. apply elem_of_seqZ in Hn. lia.
Qed.

Lemma matrix_alloc_zeroed_witness :
  let zeros := {| data := replicate (Z.to_nat (2 * 3)) 0;
                  max_row := 2; max_col := 3; use_omp := 0 |} in
  matrix_alloc true [7; 7; 7; 7; 7; 7] 2 3 true = Returns zeros /\
  wf_matrix zeros /\
  matrix_is_null zeros = Returns true.
Proof.
  apply (matrix_alloc_zeroed true [7; 7; 7; 7; 7; 7] 2 3);
    unfold SIZE_MODULUS; lia.
Defined.

(** What [matrix_get] returns after a store into the element [(p, q)]. *)
Lemma matrix_get_stored (cfg : build) (d : matrix) (p q x p' q' : Z) :
  wf_matrix d -> 0 <= p < max_row d -> 0 <= q < max_col d ->
  0 <= p' < max_row d -> 0 <= q' < max_col d ->
  matrix_get cfg (with_data d (<[Z.to_nat (p * max_col d + q) := x]> (data d))) p' q' =
  if decide ((p', q') = (p, q)) then Returns x else matrix_get cfg d p' q'.
Proof.
  intros (Hr & Hc & Hfit & Hlen) Hp Hq Hp' Hq'.
  unfold matrix_get.
  rewrite !matrix_bounds_pass by (simpl; lia).
  destruct (dense_offset d p' q' Hp' Hq' ltac:(lia)) as (_ & _ & Hoff' & Hin').
  destruct (dense_offset d p q Hp Hq ltac:(lia)) as (_ & _ & _ & Hin).
  assert (Hoff'' : DATA_OFFSET (with_data d (<[Z.to_nat (p * max_col d + q) := x]>
                                              (data d))) p' q' =
                   p' * max_col d + q') by exact Hoff'.
  rewrite Hoff'', Hoff'. cbn [with_data data].
  destruct (decide ((p', q') = (p, q))) as [E | NE].
  - injection E as -> ->. rewrite list_lookup_insert_eq by lia. reflexivity.
  - rewrite list_lookup_insert_ne; [reflexivity|].
    intros E. apply NE.
    assert (E' : p * max_col d + q = p' * max_col d + q') by lia.
    destruct (dense_offset_inj d p q p' q' Hq Hq' E') as [-> ->]. reflexivity.
Qed.

Lemma store_element (d : matrix) (p q x : Z) :
  wf_matrix d -> 0 <= p < max_row d -> 0 <= q < max_col d ->
  store d (DATA_OFFSET d p q) x =
    Returns (with_data d (<[Z.to_nat (p * max_col d + q) := x]> (data d))).
Proof.
  intros (Hr & Hc & Hfit & Hlen) Hp Hq.
  destruct (dense_offset d p q Hp Hq ltac:(lia)) as (_ & _ & Hoff & Hin).
  rewrite Hoff. unfold store, array_store.
  destruct (Z.ltb_spec (p * max_col d + q) (Z.of_nat (length (data d)))); [|lia].
  reflexivity.
Qed.

Lemma with_data_wf (d : matrix) (k : nat) (x : Z) :
  wf_matrix d -> wf_matrix (with_data d (<[k := x]> (data d))).
Proof.
  intros (Hr & Hc & Hfit & Hlen). unfold wf_matrix, with_data.
  cbn [data max_row max_col]. rewrite length_insert. auto.
Qed.

(** X20: on a square matrix and within its bounds, [matrix_set_symm]
    stores [x] in the elements [(p, q)] and [(q, p)] and leaves every
    other element as it was. *)
Theorem matrix_set_symm_square (cfg : build) (d : matrix) (p q x : Z) :
  wf_matrix d -> max_row d = max_col d ->
  0 <= p < max_row d -> 0 <= q < max_col d ->
  exists d',
    matrix_set_symm cfg d p q x = Returns d' /\
    wf_matrix d' /\
    matrix_get cfg d' p q = Returns x /\
    matrix_get cfg d' q p = Returns x /\
    forall p' q', 0 <= p' < max_row d -> 0 <= q' < max_col d ->
      (p', q') <> (p, q) -> (p', q') <> (q, p) ->
      matrix_get cfg d' p' q' = matrix_get cfg d p' q'.
Proof.
  intros Hwf Hsq Hp Hq.
  set (d1 := with_data d (<[Z.to_nat (p * max_col d + q) := x]> (data d))).
  assert (Hwf1 : wf_matrix d1) by (apply with_data_wf; exact Hwf).
  set (d2 := with_data d1 (<[Z.to_nat (q * max_col d1 + p) := x]> (data d1))).
  exists d2. split; [|split; [apply with_data_wf; exact Hwf1|]].
  - unfold matrix_set_symm. rewrite matrix_bounds_pass by lia.
    rewrite store_element by assumption. cbn [outcome_bind]. fold d1.
    apply store_element; [exact Hwf1 | simpl; lia | simpl; lia].
  - assert (Hget : forall p' q', 0 <= p' < max_row d -> 0 <= q' < max_col d ->
              matrix_get cfg d2 p' q' =
              if decide ((p', q') = (q, p)) then Returns x
              else if decide ((p', q') = (p, q)) then Returns x
              else matrix_get cfg d p' q').
    { intros p' q' Hp' Hq'. unfold d2.
      rewrite (matrix_get_stored cfg d1 q p x p' q' Hwf1)
        by (simpl; lia).
      destruct (decide ((p', q') = (q, p))); [reflexivity|].
      unfold d1. apply matrix_get_stored; assumption. }
    split; [|split].
    + rewrite Hget by lia.
      destruct (decide ((p, q) = (q, p))); [reflexivity|].
      rewrite decide_True by reflexivity. reflexivity.
    + rewrite Hget by lia. rewrite decide_True by reflexivity. reflexivity.
    + intros p' q' Hp' Hq' N1 N2. rewrite Hget by assumption.
      rewrite decide_False by exact N2. rewrite decide_False by exact N1.
      reflexivity.
Qed.

Lemma matrix_set_symm_square_witness :
  exists d',
    matrix_set_symm (Build_build false false false true)
      {| data := [1; 2; 3; 4]; max_row := 2; max_col := 2; use_omp := 0 |} 0 1 9
      = Returns d' /\
    wf_matrix d' /\
    matrix_get (Build_build false false false true) d' 0 1 = Returns 9 /\
    matrix_get (Build_build false false false true) d' 1 0 = Returns 9 /\
    forall p' q', 0 <= p' < 2 -> 0 <= q' < 2 ->
      (p', q') <> (0, 1) -> (p', q') <> (1, 0) ->
      matrix_get (Build_build false false false true) d' p' q' =
      matrix_get (Build_build false false false true)
        {| data := [1; 2; 3; 4]; max_row := 2; max_col := 2; use_omp := 0 |} p' q'.
Proof.
  apply (matrix_set_symm_square (Build_build false false false true)
           {| data := [1; 2; 3; 4]; max_row := 2; max_col := 2; use_omp := 0 |}
           0 1 9).
  - unfold wf_matrix. simpl. unfold SIZE_MODULUS. lia.
  - reflexivity.
  - simpl. lia.
  - simpl. lia.
Defined.

(** X21: on a matrix with more columns than rows, the assertions of
    [matrix_set_symm] do not cover its second store: for a column [q] at
    or beyond the number of rows they pass, also with
    [MATRIX_BOUND_CHECK], and the element [(q, p)] that is then written
    lies outside the array. *)
Theorem matrix_set_symm_wide (cfg : build) (d : matrix) (p q x : Z) :
  wf_matrix d -> max_col d * max_col d <= SIZE_MODULUS ->
  0 <= p < max_row d -> max_row d <= q < max_col d ->
  matrix_set_symm cfg d p q x = Undefined.
Proof.
  intros Hwf Hfit Hp Hq.
  set (d1 := with_data d (<[Z.to_nat (p * max_col d + q) := x]> (data d))).
  unfold matrix_set_symm. rewrite matrix_bounds_pass by lia.
  rewrite store_element by (first [assumption | lia]). cbn [outcome_bind]. fold d1.
  destruct Hwf as (Hr & Hc & Hprod & Hlen).
  unfold store, array_store, DATA_OFFSET. cbn [max_col d1 with_data data].
  rewrite length_insert. size_norm.
  rewrite size_wrap_small by (unfold is_size_t; nia).
  destruct (Z.ltb_spec (q * max_col d + p) (Z.of_nat (length (data d)))); [nia|].
  reflexivity.
Qed.

Lemma matrix_set_symm_wide_witness :
  matrix_set_symm (Build_build false false false true)
    {| data := [1; 2; 3; 4; 5; 6]; max_row := 2; max_col := 3; use_omp := 0 |} 0 2 9
  = Undefined.
Proof.
  apply (matrix_set_symm_wide (Build_build false false false true)
           {| data := [1; 2; 3; 4; 5; 6]; max_row := 2; max_col := 3; use_omp := 0 |}
           0 2 9).
  - unfold wf_matrix. simpl. unfold SIZE_MODULUS. lia.
  - simpl. unfold SIZE_MODULUS. lia.
  - simpl. lia.
  - simpl. lia.
Defined.

(** X22: [matrix_get_row] and [matrix_get_col] return the row and the
    column asked for as a matrix of one row and of one column, in either
    build and whatever the allocator leaves in the fresh block: every
    element of the block is overwritten. *)
Theorem matrix_get_row_col
    (cfg : build) (magma : bool) (fresh : list Z) (d : matrix) (p q : Z) :
  wf_matrix d -> 0 <= p < max_row d -> 0 <= q < max_col d ->
  matrix_get_row cfg magma fresh d p =
    Returns {| data := row_of d p; max_row := 1; max_col := max_col d;
               use_omp := 0 |} /\
  matrix_get_col cfg magma fresh d q =
    Returns {| data := column_of d q; max_row := max_row d; max_col := 1;
               use_omp := 0 |}.
Proof.
  intros Hwf Hp Hq. pose proof Hwf as (Hr & Hc & Hfit & Hlen).
  split.
  - unfold matrix_get_row, Matrix.ASSERT_ROW_INDEX.
    assert ((p <? max_row d) = true) as -> by lia.
    assert (Halloc : matrix_alloc magma fresh 1 (max_col d) false =
              Returns {| data := allocate fresh (max_col d) false;
                         max_row := 1; max_col := max_col d; use_omp := 0 |}).
    { unfold matrix_alloc, size_mul. rewrite Z.mul_1_l.
      rewrite size_wrap_small by (unfold is_size_t; nia).
      destruct magma; reflexivity. }
    rewrite Halloc. cbn [outcome_bind].
    assert (Hloop :
      for_loop (seqZ 0 (max_col d))
        (fun q row =>
           outcome_bind (load d (DATA_OFFSET d p q))
             (fun x => store row (DATA_OFFSET row 0 q) x))
        {| data := allocate fresh (max_col d) false;
           max_row := 1; max_col := max_col d; use_omp := 0 |}
      = Returns {| data := row_of d p; max_row := 1; max_col := max_col d;
                   use_omp := 0 |}).
    { apply (fill_matrix (fun q => load d (DATA_OFFSET d p q)) (element d p)
               (fun row q => DATA_OFFSET row 0 q)).
      - cbn [data]. unfold allocate. rewrite length_resize. lia.
      - intros q' Hq'. apply load_element; assumption.
      - intros row q' _ Hcol Hq'. unfold DATA_OFFSET. size_norm.
        rewrite Z.mul_0_l, Z.add_0_l.
        apply size_wrap_small. unfold is_size_t. nia. }
    rewrite Hloop. destruct (MATRIX_BOUND_CHECK cfg); reflexivity.
  - unfold matrix_get_col, Matrix.ASSERT_COL_INDEX.
    assert ((q <? max_col d) = true) as -> by lia.
    assert (Halloc : matrix_alloc magma fresh (max_row d) 1 false =
              Returns {| data := allocate fresh (max_row d) false;
                         max_row := max_row d; max_col := 1; use_omp := 0 |}).
    { unfold matrix_alloc, size_mul. rewrite Z.mul_1_r.
      rewrite size_wrap_small by (unfold is_size_t; nia).
      destruct magma; reflexivity. }
    rewrite Halloc. cbn [outcome_bind].
    assert (Hloop :
      for_loop (seqZ 0 (max_row d))
        (fun p col =>
           outcome_bind (load d (DATA_OFFSET d p q))
             (fun x => store col (DATA_OFFSET col p 0) x))
        {| data := allocate fresh (max_row d) false;
           max_row := max_row d; max_col := 1; use_omp := 0 |}
      = Returns {| data := column_of d q; max_row := max_row d; max_col := 1;
                   use_omp := 0 |}).
    { apply (fill_matrix (fun p => load d (DATA_OFFSET d p q))
               (fun p => element d p q) (fun col p => DATA_OFFSET col p 0)).
      - cbn [data]. unfold allocate. rewrite length_resize. lia.
      - intros p' Hp'. apply load_element; assumption.
      - intros col p' _ Hcol Hp'. unfold DATA_OFFSET. cbn [max_col] in Hcol.
        rewrite Hcol. size_norm. rewrite Z.mul_1_r, Z.add_0_r.
        apply size_wrap_small. unfold is_size_t. nia. }
    rewrite Hloop. destruct (MATRIX_BOUND_CHECK cfg); reflexivity.
Qed.

Lemma matrix_get_row_col_witness :
  let d := {| data := [1; 2; 3; 4; 5; 6]; max_row := 2; max_col := 3; use_omp := 1 |} in
  matrix_get_row (Build_build false false false true) false [9; 9; 9] d 1 =
    Returns {| data := row_of d 1; max_row := 1; max_col := max_col d;
               use_omp := 0 |} /\
  matrix_get_col (Build_build false false false true) false [9; 9; 9] d 2 =
    Returns {| data := column_of d 2; max_row := max_row d; max_col := 1;
               use_omp := 0 |}.
Proof.
  intros d.
  apply (matrix_get_row_col (Build_build false false false true) false [9; 9; 9] d 1 2).
  - unfold wf_matrix. simpl. unfold SIZE_MODULUS. lia.
  - simpl. lia.
  - simpl. lia.
Defined.

(** A loop in which one iteration is outside its arrays, whatever the
    state, is undefined as a whole when no iteration halts. *)
Lemma for_loop_undefined {State : Type} (body : Z -> State -> outcome State)
    (ns : list Z) (n : Z) :
  n ∈ ns -> (forall s, body n s = Undefined) ->
  (forall n' s, (exists s', body n' s = Returns s') \/ body n' s = Undefined) ->
  forall s, for_loop ns body s = Undefined.
Proof.
  intros Hin Hbad Hbody. induction ns as [|n0 ns IH]; intros s.
  - inversion Hin.
  - cbn [for_loop]. destruct (Hbody n0 s) as [[s' E] | E]; rewrite E.
    + cbn [outcome_bind]. apply IH.
      apply elem_of_cons in Hin as [-> | Hin]; [|exact Hin].
      rewrite Hbad in E. discriminate E.
    + reflexivity.
Qed.

(** X23: [matrix_get_diag] runs over the rows: on a matrix with at least
    as many columns as rows it returns the diagonal as a column, whatever
    the allocator leaves in the fresh block; on a matrix with more rows
    than columns its last read is beyond the end of the array. *)
Theorem matrix_get_diag_shape (magma : bool) (fresh : list Z) (d : matrix) :
  wf_matrix d -> 0 < max_row d ->
  (max_row d <= max_col d ->
   matrix_get_diag magma fresh d =
     Returns {| data := (fun p => element d p p) <$> seqZ 0 (max_row d);
                max_row := max_row d; max_col := 1; use_omp := 0 |}) /\
  (max_col d < max_row d -> max_row d * (max_col d + 1) <= SIZE_MODULUS ->
   matrix_get_diag magma fresh d = Undefined).
Proof.
  intros Hwf Hrows. pose proof Hwf as (Hr & Hc & Hfit & Hlen).
  assert (Halloc : matrix_alloc magma fresh (max_row d) 1 false =
            Returns {| data := allocate fresh (max_row d) false;
                       max_row := max_row d; max_col := 1; use_omp := 0 |}).
  { unfold matrix_alloc, size_mul. rewrite Z.mul_1_r.
    rewrite size_wrap_small by (unfold is_size_t; lia).
    destruct magma; reflexivity. }
  unfold matrix_get_diag. rewrite Halloc. cbn [outcome_bind]. split.
  - intros Hwide.
    apply (fill_matrix (fun p => load d (DATA_OFFSET d p p))
             (fun p => element d p p) (fun diag p => DATA_OFFSET diag p 0)).
    + cbn [data]. unfold allocate. rewrite length_resize. lia.
    + intros p Hp. apply load_element; [exact Hwf | lia | lia].
    + intros diag p _ Hcol Hp. unfold DATA_OFFSET. cbn [max_col] in Hcol.
      rewrite Hcol. size_norm. rewrite Z.mul_1_r, Z.add_0_r.
      apply size_wrap_small. unfold is_size_t. lia.
  - intros Htall Hnowrap.
    apply (for_loop_undefined _ _ (max_row d - 1)).
    + apply elem_of_seqZ. lia.
    + intros diag. unfold load, array_load, DATA_OFFSET. size_norm.
      rewrite size_wrap_small by (unfold is_size_t; nia).
      rewrite (proj2 (lookup_ge_None (data d) _)) by nia. reflexivity.
    + intros p diag. unfold load, array_load.
      destruct (data d !! Z.to_nat (DATA_OFFSET d p p)); [|right; reflexivity].
      cbn [outcome_bind]. unfold store, array_store.
      destruct (DATA_OFFSET diag p 0 <? Z.of_nat (length (data diag)));
        [left; eexists; reflexivity | right; reflexivity].
Qed.

Lemma matrix_get_diag_shape_witness :
  matrix_get_diag false [9; 9]
    {| data := [1; 2; 3; 4; 5; 6]; max_row := 2; max_col := 3; use_omp := 0 |} =
    Returns {| data := [1; 5]; max_row := 2; max_col := 1; use_omp := 0 |} /\
  matrix_get_diag false [9; 9; 9]
    {| data := [1; 2; 3; 4; 5; 6]; max_row := 3; max_col := 2; use_omp := 0 |} =
    Undefined.
Proof.
  split.
  - destruct (matrix_get_diag_shape false [9; 9]
                {| data := [1; 2; 3; 4; 5; 6]; max_row := 2; max_col := 3;
                   use_omp := 0 |}) as [Hwide _].
    + unfold wf_matrix. simpl. unfold SIZE_MODULUS. lia.
    + simpl. lia.
    + apply Hwide. simpl. lia.
  - destruct (matrix_get_diag_shape false [9; 9; 9]
                {| data := [1; 2; 3; 4; 5; 6]; max_row := 3; max_col := 2;
                   use_omp := 0 |}) as [_ Htall].
    + unfold wf_matrix. simpl. unfold SIZE_MODULUS. lia.
    + simpl. lia.
    + apply Htall; simpl; unfold SIZE_MODULUS; lia.
Defined.

(** ** Predicates on the elements *)

(** The scan of the whole array finds an element that passes [test]
    exactly when there is one. *)
Lemma any_element_existsb (test : Z -> bool) (d : matrix) :
  forall (rest before : list Z),
    data d = before ++ rest ->
    any_element test d (seqZ (Z.of_nat (length before)) (Z.of_nat (length rest))) =
      Returns (existsb test rest).
Proof.
  induction rest as [|x rest IH]; intros before Hdata.
  - reflexivity.
  - rewrite seqZ_cons by (simpl; lia). cbn [any_element].
    unfold load, array_load. rewrite Hdata, Nat2Z.id.
    rewrite lookup_app_r by lia. rewrite Nat.sub_diag. cbn [lookup list_lookup].
    cbn [outcome_bind existsb]. destruct (test x); [reflexivity|].
    cbn [orb].
    replace (Z.succ (Z.of_nat (length before)))
      with (Z.of_nat (length (before ++ [x]))) by (rewrite length_app; simpl; lia).
    replace (Z.pred (Z.of_nat (length (x :: rest)))) with (Z.of_nat (length rest))
      by (simpl; lia).
    apply IH. rewrite Hdata, <- app_assoc. reflexivity.
Qed.

Lemma any_element_all (test : Z -> bool) (d : matrix) :
  wf_matrix d ->
  any_element test d (seqZ 0 (size_mul (max_row d) (max_col d))) =
    Returns (existsb test (data d)).
Proof.
  intros (Hr & Hc & Hfit & Hlen). unfold size_mul.
  rewrite size_wrap_small by (unfold is_size_t; nia). rewrite <- Hlen.
  exact (any_element_existsb test d (data d) [] eq_refl).
Qed.

(** X24: [matrix_is_positive] means that no element is below zero and
    [matrix_is_negative] that no element is at or above zero, and a NaN is
    neither: both hold of a matrix exactly when every element is a NaN,
    in particular of a matrix without elements.  A matrix of zeros is
    positive. *)
Theorem matrix_positive_and_negative (d : matrix) :
  wf_matrix d ->
  ((matrix_is_positive d = Returns true /\ matrix_is_negative d = Returns true) <->
   Forall (fun x => is_nan x = true) (data d)) /\
  (Forall (fun x => x = 0) (data d) -> matrix_is_positive d = Returns true).
Proof.
  intros Hwf. unfold matrix_is_positive, matrix_is_negative.
  rewrite !any_element_all by exact Hwf. cbn [outcome_bind].
  split.
  - rewrite Forall_forall. split.
    + intros [Hpos Hneg] x Hx.
      assert (Hlt : double_lt_zero x = false).
      { destruct (existsb double_lt_zero (data d)) eqn:E; [discriminate Hpos|].
        destruct (double_lt_zero x) eqn:Ex; [|reflexivity].
        rewrite <- E. symmetry. apply existsb_exists. exists x.
        split; [apply list_elem_of_In; exact Hx | exact Ex]. }
      assert (Hge : double_ge_zero x = false).
      { destruct (existsb double_ge_zero (data d)) eqn:E; [discriminate Hneg|].
        destruct (double_ge_zero x) eqn:Ex; [|reflexivity].
        rewrite <- E. symmetry. apply existsb_exists. exists x.
        split; [apply list_elem_of_In; exact Hx | exact Ex]. }
      unfold double_ge_zero in Hge. rewrite Hlt in Hge.
      destruct (is_nan x); [reflexivity | discriminate Hge].
    + intros Hnan.
      assert (Hnone : forall test,
                (forall x, is_nan x = true -> test x = false) ->
                existsb test (data d) = false).
      { intros test Htest. destruct (existsb test (data d)) eqn:E; [|reflexivity].
        apply existsb_exists in E as (x & Hx & Ex).
        rewrite Htest in Ex; [discriminate Ex|].
        apply Hnan, list_elem_of_In. exact Hx. }
      rewrite !Hnone; [split; reflexivity | |].
      * intros x Hx. unfold double_ge_zero. rewrite Hx. reflexivity.
      * intros x Hx. unfold double_lt_zero. rewrite Hx.
        rewrite andb_false_r. reflexivity.
  - rewrite Forall_forall. intros Hzero.
    destruct (existsb double_lt_zero (data d)) eqn:E; [|reflexivity].
    apply existsb_exists in E as (x & Hx & Ex).
    rewrite (Hzero x) in Ex by (apply list_elem_of_In; exact Hx).
    discriminate Ex.
Qed.

Lemma matrix_positive_and_negative_witness :
  let d := {| data := [2 ^ 63 - 1; 2047 * 2 ^ 52 + 1]; max_row := 1; max_col := 2;
              use_omp := 0 |} in
  matrix_is_positive d = Returns true /\ matrix_is_negative d = Returns true.
Proof.
  intros d.
  apply (matrix_positive_and_negative d).
  - unfold wf_matrix. simpl. unfold SIZE_MODULUS. lia.
  - repeat constructor.
Defined.

(** ** Matrices on disk *)

(** What [matrix_load] makes of a file that begins with a shape and as
    many elements as the shape asks for. *)
Lemma matrix_load_whole (magma : bool) (fresh : list Z) (fs : files)
    (filename : string) (rows cols : Z) (items extra : list Z) :
  fs !! filename = Some (rows :: cols :: items ++ extra) ->
  Z.of_nat (length items) = size_mul rows cols ->
  matrix_load magma fresh fs filename =
    opened_then (Returns {| data := items; max_row := rows; max_col := cols;
                            use_omp := 0 |}).
Proof.
  intros Hfile Hitems. unfold matrix_load. rewrite Hfile.
  unfold fread. change (Z.to_nat 1) with 1%nat.
  cbn [take drop length head default]. rewrite ?take_0, ?drop_0. unfold id.
  cbn [length]. change (Z.of_nat 1 =? 1) with true. cbn [ASSERT].
  assert (Halloc : matrix_alloc magma fresh rows cols false =
            Returns {| data := allocate fresh (size_mul rows cols) false;
                       max_row := rows; max_col := cols; use_omp := 0 |})
    by (unfold matrix_alloc; destruct magma; reflexivity).
  rewrite Halloc. cbn [outcome_bind max_row max_col].
  rewrite <- Hitems, Nat2Z.id, take_app_length, Z.eqb_refl. cbn [ASSERT].
  unfold with_data. cbn [data max_row max_col use_omp].
  rewrite drop_ge by (unfold allocate; rewrite length_resize; lia).
  rewrite app_nil_r. reflexivity.
Qed.

(** X25: what [matrix_save] writes, [matrix_load] reads back: after a
    save under a name that can be opened, a load of that name returns a
    matrix of the same shape with the same elements, whatever the
    allocator leaves in the fresh block, and no other file is touched.
    The flag [use_omp] is not part of the file; the matrix loaded has it
    cleared. *)
Theorem matrix_save_load
    (magma : bool) (fresh : list Z) (fs : files) (d : matrix) (filename : string) :
  wf_matrix d ->
  exists fs',
    matrix_save true fs d filename = opened_then (Returns fs') /\
    matrix_load magma fresh fs' filename =
      opened_then (Returns {| data := data d; max_row := max_row d;
                              max_col := max_col d; use_omp := 0 |}) /\
    (forall other, other <> filename -> fs' !! other = fs !! other).
Proof.
  intros (Hr & Hc & Hfit & Hlen).
  assert (Hn : size_mul (max_row d) (max_col d) = max_row d * max_col d)
    by (unfold size_mul; apply size_wrap_small; unfold is_size_t; nia).
  eexists. split; [|split].
  - unfold matrix_save. rewrite Hn.
    destruct (Z.leb_spec (max_row d * max_col d) (Z.of_nat (length (data d))));
      [reflexivity | lia].
  - apply (matrix_load_whole magma fresh _ filename (max_row d) (max_col d)
             (data d) []).
    + rewrite lookup_insert_eq. rewrite firstn_all2 by lia.
      rewrite app_nil_r. reflexivity.
    + lia.
  - intros other Hother. apply lookup_insert_ne. congruence.
Qed.

Lemma matrix_save_load_witness :
  exists fs',
    matrix_save true ∅
      {| data := [1; 2; 3; 4; 5; 6]; max_row := 2; max_col := 3; use_omp := 1 |}
      "m.bin" = opened_then (Returns fs') /\
    matrix_load false [9] fs' "m.bin" =
      opened_then (Returns {| data := [1; 2; 3; 4; 5; 6]; max_row := 2;
                              max_col := 3; use_omp := 0 |}) /\
    (forall other, other <> "m.bin"%string -> fs' !! other = (∅ : files) !! other).
Proof.
  apply (matrix_save_load false [9] ∅
           {| data := [1; 2; 3; 4; 5; 6]; max_row := 2; max_col := 3; use_omp := 1 |}
           "m.bin").
  unfold wf_matrix. simpl. unfold SIZE_MODULUS. lia.
Defined.

(** X26: [matrix_load] trusts the shape at the head of the file: a file
    that does not exist makes it exit, a file that is shorter than its
    shape says (or than the shape itself) fails an assertion, and words
    after the elements are ignored. *)
Theorem matrix_load_checks
    (magma : bool) (fresh : list Z) (fs : files) (filename : string)
    (rows cols : Z) (items extra : list Z) :
  (fs !! filename = None ->
   matrix_load magma fresh fs filename = unable_to_open filename) /\
  (fs !! filename = Some [] \/ fs !! filename = Some [rows] ->
   matrix_load magma fresh fs filename = opened_then (Halts assertion_failed)) /\
  (fs !! filename = Some (rows :: cols :: items) ->
   Z.of_nat (length items) < size_mul rows cols ->
   matrix_load magma fresh fs filename = opened_then (Halts assertion_failed)) /\
  (fs !! filename = Some (rows :: cols :: items ++ extra) ->
   Z.of_nat (length items) = size_mul rows cols ->
   matrix_load magma fresh fs filename =
     opened_then (Returns {| data := items; max_row := rows; max_col := cols;
                             use_omp := 0 |})).
Proof.
  split; [|split; [|split]].
  - intros Hnone. unfold matrix_load. rewrite Hnone. reflexivity.
  - intros [Hfile | Hfile]; unfold matrix_load; rewrite Hfile; reflexivity.
  - intros Hfile Hshort. unfold matrix_load. rewrite Hfile.
    unfold fread. change (Z.to_nat 1) with 1%nat.
    cbn [take drop length head default]. rewrite ?take_0, ?drop_0. unfold id.
    cbn [length]. change (Z.of_nat 1 =? 1) with true. cbn [ASSERT].
    assert (Halloc : matrix_alloc magma fresh rows cols false =
              Returns {| data := allocate fresh (size_mul rows cols) false;
                         max_row := rows; max_col := cols; use_omp := 0 |})
      by (unfold matrix_alloc; destruct magma; reflexivity).
    rewrite Halloc. cbn [outcome_bind max_row max_col].
    rewrite firstn_all2 by lia.
    destruct (Z.eqb_spec (Z.of_nat (length items)) (size_mul rows cols)); [lia|].
    reflexivity.
  - apply matrix_load_whole.
Qed.

Lemma matrix_load_checks_witness :
  matrix_load false [] (<["m.bin"%string := [2; 3; 1; 2; 3; 4]]> ∅) "n.bin" =
    unable_to_open "n.bin" /\
  matrix_load false [] (<["m.bin"%string := [2; 3; 1; 2; 3; 4]]> ∅) "m.bin" =
    opened_then (Halts assertion_failed) /\
  matrix_load false [] (<["m.bin"%string := [2; 2; 1; 2; 3; 4; 5]]> ∅) "m.bin" =
    opened_then (Returns {| data := [1; 2; 3; 4]; max_row := 2; max_col := 2;
                            use_omp := 0 |}).
Proof.
  split; [|split].
  - apply (matrix_load_checks false [] (<["m.bin"%string := [2; 3; 1; 2; 3; 4]]> ∅)
             "n.bin" 0 0 [] []).
    reflexivity.
  - apply (proj1 (proj2 (proj2
             (matrix_load_checks false [] (<["m.bin"%string := [2; 3; 1; 2; 3; 4]]> ∅)
                "m.bin" 2 3 [1; 2; 3; 4] [])))).
    + reflexivity.
    + vm_compute. reflexivity.
  - apply (proj2 (proj2 (proj2
             (matrix_load_checks false [] (<["m.bin"%string := [2; 2; 1; 2; 3; 4; 5]]> ∅)
                "m.bin" 2 2 [1; 2; 3; 4] [5])))).
    + reflexivity.
    + reflexivity.
Defined.

(** A loop that stores [x] at the offsets [off 0, ..., off (count - 1)] of
    a matrix, all inside its array, leaves [x] there and every other
    element as it was. *)
Lemma store_loop (x : Z) (off : Z -> Z) (offset : matrix -> Z -> Z)
    (count : Z) (d : matrix) :
  (forall n, 0 <= n < count -> 0 <= off n < Z.of_nat (length (data d))) ->
  (forall m n, max_row m = max_row d -> max_col m = max_col d ->
     0 <= n < count -> offset m n = off n) ->
  exists d',
    for_loop (seqZ 0 count) (fun n m => store m (offset m n) x) d = Returns d' /\
    max_row d' = max_row d /\ max_col d' = max_col d /\
    length (data d') = length (data d) /\
    (forall n, 0 <= n < count -> data d' !! Z.to_nat (off n) = Some x) /\
    (forall i : nat, (forall n, 0 <= n < count -> Z.to_nat (off n) <> i) ->
       data d' !! i = data d !! i).
Proof.
  intros Hin Hoffset.
  destruct (for_loop_invariant
              (fun done m =>
                 max_row m = max_row d /\ max_col m = max_col d /\
                 length (data m) = length (data d) /\
                 (forall n, 0 <= n < Z.of_nat done ->
                    data m !! Z.to_nat (off n) = Some x) /\
                 (forall i : nat,
                    (forall n, 0 <= n < Z.of_nat done -> Z.to_nat (off n) <> i) ->
                    data m !! i = data d !! i))
              (fun n m => store m (offset m n) x)
              (seqZ 0 count) 0%nat d) as (d' & E & Hr & Hc & Hl & Hset & Hkeep).
  - repeat split. intros n Hn. lia.
  - intros i n m Hn (Hr & Hc & Hl & Hset & Hkeep).
    apply lookup_seqZ in Hn as [-> Hi]. rewrite Z.add_0_l.
    rewrite Hoffset by (first [assumption | lia]).
    pose proof (Hin (Z.of_nat i) ltac:(lia)) as Hoff.
    unfold store, array_store.
    destruct (Z.ltb_spec (off (Z.of_nat i)) (Z.of_nat (length (data m))));
      [|lia].
    eexists. split; [reflexivity|].
    cbn [outcome_bind with_data data max_row max_col].
    rewrite length_insert. repeat split; try assumption.
    + intros n Hn.
      destruct (Nat.eq_dec (Z.to_nat (off (Z.of_nat i))) (Z.to_nat (off n)))
        as [Eq | Ne].
      * rewrite <- Eq. apply list_lookup_insert_eq. lia.
      * rewrite list_lookup_insert_ne by exact Ne.
        destruct (Z.eq_dec n (Z.of_nat i)) as [-> | Hni];
          [exfalso; apply Ne; reflexivity | apply Hset; lia].
    + intros j Hj. rewrite list_lookup_insert_ne by (apply Hj; lia).
      apply Hkeep. intros n Hn. apply Hj. lia.
  - exists d'. rewrite length_seqZ in Hset, Hkeep. simpl in Hset, Hkeep.
    split; [exact E|]. split; [exact Hr|]. split; [exact Hc|]. split; [exact Hl|].
    split.
    + intros n Hn. apply Hset. lia.
    + intros i Hi. apply Hkeep. intros n Hn. apply Hi. lia.
Qed.

Lemma matrix_get_lookup (cfg : build) (d : matrix) (p q : Z) :
  0 <= max_row d * max_col d <= SIZE_MODULUS ->
  0 <= p < max_row d -> 0 <= q < max_col d ->
  matrix_get cfg d p q = array_load (data d) (p * max_col d + q).
Proof.
  intros Hfit Hp Hq. unfold matrix_get.
  rewrite matrix_bounds_pass by lia.
  destruct (dense_offset d p q Hp Hq ltac:(lia)) as (_ & _ & Hoff & _).
  rewrite Hoff. reflexivity.
Qed.

(** X27: within the bounds of a matrix, [matrix_set_row] stores [x] in
    every element of row [p] and [matrix_set_col] in every element of
    column [q], and each leaves every other element as it was. *)
Theorem matrix_set_row_col (cfg : build) (d : matrix) (p q x : Z) :
  wf_matrix d -> 0 <= p < max_row d -> 0 <= q < max_col d ->
  (exists d',
     matrix_set_row cfg d p x = Returns d' /\ wf_matrix d' /\
     forall p' q', 0 <= p' < max_row d -> 0 <= q' < max_col d ->
       matrix_get cfg d' p' q' =
       if decide (p' = p) then Returns x else matrix_get cfg d p' q') /\
  (exists d',
     matrix_set_col cfg d q x = Returns d' /\ wf_matrix d' /\
     forall p' q', 0 <= p' < max_row d -> 0 <= q' < max_col d ->
       matrix_get cfg d' p' q' =
       if decide (q' = q) then Returns x else matrix_get cfg d p' q').
Proof.
  intros Hwf Hp Hq. pose proof Hwf as (Hr & Hc & Hfit & Hlen).
  split.
  - destruct (store_loop x (fun n => p * max_col d + n)
                (fun m n => DATA_OFFSET m p n) (max_col d) d)
      as (d' & E & Hr' & Hc' & Hl' & Hset & Hkeep).
    + intros n Hn. nia.
    + intros m n Hrow Hcol Hn.
      destruct (dense_offset m p n) as (_ & _ & Hoff & _); [lia | lia | lia |].
      rewrite Hoff, Hcol. reflexivity.
    + exists d'. split; [|split].
      * unfold matrix_set_row, Matrix.ASSERT_ROW_INDEX.
        assert ((p <? max_row d) = true) as -> by lia.
        rewrite E. destruct (MATRIX_BOUND_CHECK cfg); reflexivity.
      * unfold wf_matrix. rewrite Hr', Hc', Hl'. auto.
      * intros p' q' Hp' Hq'.
        rewrite !matrix_get_lookup by lia. rewrite Hc'. unfold array_load.
        destruct (decide (p' = p)) as [-> | Hne].
        -- rewrite Hset by lia. reflexivity.
        -- rewrite Hkeep; [reflexivity|]. intros n Hn. nia.
  - destruct (store_loop x (fun n => n * max_col d + q)
                (fun m n => DATA_OFFSET m n q) (max_row d) d)
      as (d' & E & Hr' & Hc' & Hl' & Hset & Hkeep).
    + intros n Hn. nia.
    + intros m n Hrow Hcol Hn.
      destruct (dense_offset m n q) as (_ & _ & Hoff & _); [lia | lia | lia |].
      rewrite Hoff, Hcol. reflexivity.
    + exists d'. split; [|split].
      * unfold matrix_set_col, Matrix.ASSERT_COL_INDEX.
        assert ((q <? max_col d) = true) as -> by lia.
        rewrite E. destruct (MATRIX_BOUND_CHECK cfg); reflexivity.
      * unfold wf_matrix. rewrite Hr', Hc', Hl'. auto.
      * intros p' q' Hp' Hq'.
        rewrite !matrix_get_lookup by lia. rewrite Hc'. unfold array_load.
        destruct (decide (q' = q)) as [-> | Hne].
        -- rewrite Hset by lia. reflexivity.
        -- rewrite Hkeep; [reflexivity|]. intros n Hn Eq.
           assert (0 <= n * max_col d) by nia.
           assert (0 <= p' * max_col d) by nia.
           assert (E' : n * max_col d + q = p' * max_col d + q') by lia.
           destruct (dense_offset_inj d n q p' q' Hq Hq' E') as [_ Hqq].
           apply Hne. symmetry. exact Hqq.
Qed.

Lemma matrix_set_row_col_witness :
  let d := {| data := [1; 2; 3; 4; 5; 6]; max_row := 2; max_col := 3; use_omp := 0 |} in
  (exists d',
     matrix_set_row (Build_build false false false true) d 1 9 = Returns d' /\
     wf_matrix d' /\
     forall p' q', 0 <= p' < max_row d -> 0 <= q' < max_col d ->
       matrix_get (Build_build false false false true) d' p' q' =
       if decide (p' = 1) then Returns 9
       else matrix_get (Build_build false false false true) d p' q') /\
  (exists d',
     matrix_set_col (Build_build false false false true) d 2 9 = Returns d' /\
     wf_matrix d' /\
     forall p' q', 0 <= p' < max_row d -> 0 <= q' < max_col d ->
       matrix_get (Build_build false false false true) d' p' q' =
       if decide (q' = 2) then Returns 9
       else matrix_get (Build_build false false false true) d p' q').
Proof.
  intros d.
  apply (matrix_set_row_col (Build_build false false false true) d 1 2 9).
  - unfold wf_matrix. simpl. unfold SIZE_MODULUS. lia.
  - simpl. lia.
  - simpl. lia.
Defined.

(** X28: [mpi_vector_alloc] asserts a positive length.  Without the sparse
    backend it returns a vector of that length whose elements are what the
    allocator left and whose ownership range is empty; with the backend,
    when its calls succeed, a vector of that length with the ownership
    range that the backend reports. *)
Theorem vector_alloc_handle
    (cfg : build) (B : backend) (g : mpi_globals) (fresh : list Z) (length : Z) :
  (length <= 0 ->
   mpi_vector_alloc cfg B g fresh length = Halts assertion_failed) /\
  (0 < length -> USE_PETSC cfg = false ->
   Z.of_nat (List.length fresh) = length ->
   exists v,
     mpi_vector_alloc cfg B g fresh length = Returns v /\
     vec_length v = length /\ raw_data v = fresh /\
     vec_first v = 0 /\ vec_last v = 0) /\
  (0 < length -> USE_PETSC cfg = true ->
   forall x x' first last,
     VecCreate B = (0, x) -> VecSetSizes B x PETSC_DECIDE length = (0, x') ->
     VecGetOwnershipRange B x' = (0, (first, last)) ->
     mpi_vector_alloc cfg B g fresh length =
       Returns {| vec_data := x'; raw_data := []; vec_length := length;
                  vec_first := first; vec_last := last |}).
Proof.
  split; [|split].
  - intros Hbad. unfold mpi_vector_alloc, ASSERT.
    destruct (Z.ltb_spec 0 length); [lia | reflexivity].
  - intros Hpos Hpetsc Hfresh. eexists. split.
    + unfold mpi_vector_alloc, ASSERT. rewrite Hpetsc.
      destruct (Z.ltb_spec 0 length); [reflexivity | lia].
    + cbn [vec_length raw_data vec_first vec_last]. split; [reflexivity|].
      split; [|split; reflexivity].
      unfold allocate. apply resize_all_alt. lia.
  - intros Hpos Hpetsc x x' first last Hcreate Hsizes Hrange.
    unfold mpi_vector_alloc, ASSERT. rewrite Hpetsc.
    destruct (Z.ltb_spec 0 length); [|lia].
    rewrite Hcreate, check_petsc_ok, Hsizes, check_petsc_ok, Hrange, check_petsc_ok.
    reflexivity.
Qed.

Lemma vector_alloc_handle_witness :
  let B := idle_backend in
  mpi_vector_alloc (Build_build false false false false) B (process 1 0) [] 0
    = Halts assertion_failed /\
  exists v,
    mpi_vector_alloc (Build_build false false false false) B (process 1 0)
      [7; 8; 9] 3 = Returns v /\
    vec_length v = 3 /\ raw_data v = [7; 8; 9] /\ vec_first v = 0 /\ vec_last v = 0.
Proof.
  intros B. split.
  - apply (vector_alloc_handle (Build_build false false false false) B
             (process 1 0) [] 0). lia.
  - apply (vector_alloc_handle (Build_build false false false false) B
             (process 1 0) [7; 8; 9] 3); first [lia | reflexivity].
Defined.

(** X29: with the sparse backend and the eigensolver,
    [mpi_matrix_eigenpair] asserts its index against the number of columns
    of the matrix, not against the number of converged eigenpairs: an
    index at or beyond the columns halts on the assertion; below, the
    backend is asked, a failure of [EPSGetEigenpair] is fatal and named in
    the diagnostic, and on success the vector has the length and the
    ownership range that the backend reports. *)
Theorem eigenpair_with_backend
    (cfg : build) (magma : bool) (B : backend) (g : mpi_globals) (fresh : list Z)
    (m : mpi_matrix) (k : Z) (x x' : Vec) (length first last code value : Z) :
  USE_PETSC cfg = true -> USE_SLEPC cfg = true ->
  (mat_max_col m <= k ->
   mpi_matrix_eigenpair cfg magma B g fresh m k = Halts assertion_failed) /\
  (k < mat_max_col m ->
   MatCreateVecs B (mat_data m) = (0, x) -> VecGetSize B x = (0, length) ->
   VecGetOwnershipRange B x = (0, (first, last)) ->
   EPSGetEigenpair B (mat_solver m) k x = (code, (value, x')) ->
   mpi_matrix_eigenpair cfg magma B g fresh m k =
     if code =? 0
     then Returns ({| vec_data := x'; raw_data := []; vec_length := length;
                      vec_first := first; vec_last := last |}, value)
     else Halts (exit_failure
                   (petsc_failure (this_rank g) "EPSGetEigenpair()" code))).
Proof.
  intros Hpetsc Hslepc. split.
  - intros Hbad. unfold mpi_matrix_eigenpair, Handles.ASSERT_COL_INDEX, ASSERT.
    rewrite Hpetsc. destruct (Z.ltb_spec k (mat_max_col m)); [lia | reflexivity].
  - intros Hk Hvecs Hsize Hrange Hpair.
    unfold mpi_matrix_eigenpair, Handles.ASSERT_COL_INDEX, ASSERT.
    rewrite Hpetsc, Hslepc. cbn [andb].
    destruct (Z.ltb_spec k (mat_max_col m)); [|lia].
    rewrite Hvecs, check_petsc_ok, Hsize, check_petsc_ok, Hrange, check_petsc_ok,
      Hpair.
    unfold CHECK_PETSC_ERROR. destruct (code =? 0); reflexivity.
Qed.

Lemma eigenpair_with_backend_witness :
  let B := {| MatCreateAIJ := fun _ _ _ _ => (0, ∅);
              MatCreateSeqAIJ := fun _ _ _ => (0, ∅);
              MatSetOption := fun A => (0, A);
              MatGetOwnershipRange := fun _ => (0, (0, 0));
              MatAssemblyBegin := fun A => (0, A);
              MatAssemblyEnd := fun A => (0, A);
              VecCreate := (0, no_vec);
              VecSetSizes := fun x _ _ => (0, x);
              VecGetOwnershipRange := fun _ => (0, (0, 2));
              VecAssemblyBegin := fun x => (0, x);
              VecAssemblyEnd := fun x => (0, x);
              MatCreateVecs := fun _ => (0, no_vec);
              VecGetSize := fun _ => (0, 4);
              EPSGetEigenpair := fun _ k x => (if k <? 2 then 0 else 63, (5, x)) |} in
  mpi_matrix_eigenpair (Build_build true true true false) false B (process 2 0) []
    (fresh_matrix 4 4 0 2) 4 = Halts assertion_failed /\
  mpi_matrix_eigenpair (Build_build true true true false) false B (process 2 0) []
    (fresh_matrix 4 4 0 2) 3 =
    Halts (exit_failure (petsc_failure 0 "EPSGetEigenpair()" 63)).
Proof.
  intros B. split.
  - apply (eigenpair_with_backend (Build_build true true true false) false B
             (process 2 0) [] (fresh_matrix 4 4 0 2) 4 no_vec no_vec 0 0 0 0 0);
      first [reflexivity | simpl; lia].
  - apply (proj2 (eigenpair_with_backend (Build_build true true true false) false B
                    (process 2 0) [] (fresh_matrix 4 4 0 2) 3 no_vec no_vec 4 0 2 63 5
                    eq_refl eq_refl));
      first [reflexivity | simpl; lia].
Defined.
